(** * Event ingestion core of the Stacks blockchain API

    A shallow embedding of [src/event-stream/event-server.ts] (the message
    handlers, the event scatter and per-transaction index normalization, the
    HTTP routes, the address the server listens on), of the program entry
    point ([getApiMode], [init], [initApp], [handleProgramArgs]) and of the
    router of BNS names, together with the properties the specification
    states about them and further properties of the code.

    Conventions of the embedding:
    - a JS [number] that the node emits as an integer is a [Z];
    - a thrown exception is the [Throw] outcome of [Result];
    - a value whose interface is declared in a module that is not embedded
      here is a generic [JsValue];
    - functions imported from other modules are the fields of [Externals],
      and of [Runtime], [Platform] and [NamesStore] for the entry point and
      the names router;
    - what the entry point does to the outside is a trace of effects;
    - event objects live in a heap and the buckets hold references to them,
      because the normalization loop mutates objects that the buckets share
      with the sorted array. *)

From stdpp Require Import base option numbers list strings gmap sorting.

(** ** Exceptions *)

Inductive JsError := Error (message : string).

Inductive Result (A : Type) :=
  | Ok (a : A)
  | Throw (e : JsError).
Arguments Ok {A} a.
Arguments Throw {A} e.

Global Instance Result_ret : MRet Result := λ A a, Ok a.
Global Instance Result_bind : MBind Result := λ A B f m,
  match m with
  | Ok a => f a
  | Throw e => Throw e
  end.

Definition isThrow {A} (r : Result A) : Prop :=
  match r with
  | Ok _ => False
  | Throw _ => True
  end.

(** ** Generic JS values *)

Local Unset Elimination Schemes.
Inductive JsValue :=
  | JsUndefined
  | JsNull
  | JsBool (b : bool)
  | JsNumber (n : Z)
  | JsString (s : string)
  | JsArray (items : list JsValue)
  | JsObject (fields : list (string * JsValue)).
Local Set Elimination Schemes.

Definition Buffer := list Byte.byte.
Definition ChainID := Z.

(** ** Messages of the core node *)

Module ContractEvent.
Record t := { contract_identifier : string; topic : string; raw_value : string }.
End ContractEvent.

Module StxLockEvent.
Record t := { locked_amount : string; unlock_height : string; locked_address : string }.
End StxLockEvent.

Module StxTransferEvent.
Record t := { sender : string; recipient : string; amount : string }.
End StxTransferEvent.

Module StxMintEvent.
Record t := { recipient : string; amount : string }.
End StxMintEvent.

Module StxBurnEvent.
Record t := { sender : string; amount : string }.
End StxBurnEvent.

Module FtTransferEvent.
Record t := { asset_identifier : string; sender : string; recipient : string; amount : string }.
End FtTransferEvent.

Module FtMintEvent.
Record t := { asset_identifier : string; recipient : string; amount : string }.
End FtMintEvent.

Module FtBurnEvent.
Record t := { asset_identifier : string; sender : string; amount : string }.
End FtBurnEvent.

Module NftTransferEvent.
Record t := { asset_identifier : string; sender : string; recipient : string; raw_value : string }.
End NftTransferEvent.

Module NftMintEvent.
Record t := { asset_identifier : string; recipient : string; raw_value : string }.
End NftMintEvent.

Module NftBurnEvent.
Record t := { asset_identifier : string; sender : string; raw_value : string }.
End NftBurnEvent.

(** [event.type] together with the sub-object that the type selects.  A body
    is untyped JSON, so a [type] outside [CoreNodeEventType] can arrive: it is
    [OtherEvent]. *)
Inductive CoreNodeEventType :=
  | ContractEvent (contract_event : ContractEvent.t)
  | StxLockEvent (stx_lock_event : StxLockEvent.t)
  | StxTransferEvent (stx_transfer_event : StxTransferEvent.t)
  | StxMintEvent (stx_mint_event : StxMintEvent.t)
  | StxBurnEvent (stx_burn_event : StxBurnEvent.t)
  | FtTransferEvent (ft_transfer_event : FtTransferEvent.t)
  | FtMintEvent (ft_mint_event : FtMintEvent.t)
  | FtBurnEvent (ft_burn_event : FtBurnEvent.t)
  | NftTransferEvent (nft_transfer_event : NftTransferEvent.t)
  | NftMintEvent (nft_mint_event : NftMintEvent.t)
  | NftBurnEvent (nft_burn_event : NftBurnEvent.t)
  | OtherEvent (type : string).

Module CoreNodeEvent.
Record t := {
  txid : string;
  event_index : Z;
  committed : bool;
  type : CoreNodeEventType;
}.
End CoreNodeEvent.

Module CoreNodeTxMessage.
Record t := {
  txid : string;
  raw_tx : string;
  contract_abi : JsValue;
  microblock_hash : string;
  rest : JsValue;
}.
End CoreNodeTxMessage.

(** The payload variants of a decoded transaction. *)
Inductive TxPayload :=
  | TokenTransfer (data : JsValue)
  | ContractCall (data : JsValue)
  | SmartContract (contract_name code_body : string)
  | PoisonMicroblock (data : JsValue)
  | Coinbase (data : JsValue)
  | VersionedSmartContract (data : JsValue).

Module DecodedTxResult.
Record t := { tx_id : string; payload : TxPayload; rest : JsValue }.
End DecodedTxResult.

Module CoreNodeParsedTxMessage.
Record t := {
  core_tx : CoreNodeTxMessage.t;
  parsed_tx : DecodedTxResult.t;
  sender_address : string;
  microblock_hash : string;
  rest : JsValue;
}.
End CoreNodeParsedTxMessage.

Module CoreNodeMsgBlockData.
Record t := {
  parent_index_block_hash : string;
  parent_burn_block_timestamp : Z;
  parent_burn_block_height : Z;
  parent_burn_block_hash : string;
  burn_block_time : Z;
  burn_block_height : Z;
  index_block_hash : string;
  block_hash : string;
  block_height : Z;
  parent_block_hash : string;
}.
End CoreNodeMsgBlockData.

Module MaturedMinerReward.
Record t := {
  from_stacks_block_hash : string;
  from_index_consensus_hash : string;
  recipient : string;
  coinbase_amount : string;
  tx_fees_anchored : string;
  tx_fees_streamed_confirmed : string;
  tx_fees_streamed_produced : string;
}.
End MaturedMinerReward.

Module CoreNodeBlockMessage.
Record t := {
  block_hash : string;
  index_block_hash : string;
  parent_index_block_hash : string;
  parent_block_hash : string;
  parent_microblock : string;
  parent_microblock_sequence : Z;
  block_height : Z;
  burn_block_time : Z;
  burn_block_hash : string;
  burn_block_height : Z;
  miner_txid : string;
  parent_burn_block_hash : string;
  parent_burn_block_height : Z;
  parent_burn_block_timestamp : Z;
  events : list CoreNodeEvent.t;
  transactions : list CoreNodeTxMessage.t;
  matured_miner_rewards : list MaturedMinerReward.t;
}.
End CoreNodeBlockMessage.

Module CoreNodeMicroblockMessage.
Record t := {
  parent_index_block_hash : string;
  burn_block_hash : string;
  burn_block_height : Z;
  burn_block_timestamp : Z;
  events : list CoreNodeEvent.t;
  transactions : list CoreNodeTxMessage.t;
}.
End CoreNodeMicroblockMessage.

Module RewardRecipient.
Record t := { recipient : string; amt : Z }.
End RewardRecipient.

Module CoreNodeBurnBlockMessage.
Record t := {
  burn_block_hash : string;
  burn_block_height : Z;
  burn_amount : Z;
  reward_recipients : list RewardRecipient.t;
  reward_slot_holders : list string;
}.
End CoreNodeBurnBlockMessage.

Module CoreNodeDropMempoolTxMessage.
Record t := { dropped_txids : list string; reason : string }.
End CoreNodeDropMempoolTxMessage.

Module CoreNodeAttachmentMessage.
Record t := {
  contract_id : string;
  metadata : string;
  content : string;
  content_hash : string;
  tx_id : string;
  index_block_hash : string;
  block_height : string;
}.
End CoreNodeAttachmentMessage.

(** ** Records of the data store *)

Module DbTx.
Record t := {
  tx_id : string;
  tx_index : Z;
  event_count : Z;
  rest : JsValue;
}.
Definition set_event_count (n : Z) (x : t) : t :=
  {| tx_id := tx_id x; tx_index := tx_index x; event_count := n; rest := rest x |}.
End DbTx.

Module DbEventBase.
Record t := {
  event_index : Z;
  tx_id : string;
  tx_index : Z;
  block_height : Z;
  canonical : bool;
}.
Definition set_event_index (i : Z) (b : t) : t :=
  {| event_index := i; tx_id := tx_id b; tx_index := tx_index b;
     block_height := block_height b; canonical := canonical b |}.
End DbEventBase.

Inductive DbAssetEventTypeId := Transfer | Mint | Burn.

(** The fields an event has besides those of [DbEventBase]; the constructor
    is the record's [event_type] ([DbEventTypeId]). *)
Inductive DbEventDetail :=
  | SmartContractLog (contract_identifier topic : string) (value : Buffer)
  | StxLock (locked_amount : Z) (unlock_height : Z) (locked_address : string)
  | StxAsset (asset_event_type_id : DbAssetEventTypeId)
      (sender recipient : option string) (amount : Z)
  | FungibleTokenAsset (asset_event_type_id : DbAssetEventTypeId)
      (sender recipient : option string) (asset_identifier : string) (amount : Z)
  | NonFungibleTokenAsset (asset_event_type_id : DbAssetEventTypeId)
      (sender recipient : option string) (asset_identifier : string) (value : Buffer).

Module DbEvent.
Record t := { base : DbEventBase.t; detail : DbEventDetail }.
Definition event_index (e : t) : Z := DbEventBase.event_index (base e).
Definition tx_id (e : t) : string := DbEventBase.tx_id (base e).
Definition canonical (e : t) : bool := DbEventBase.canonical (base e).
Definition set_event_index (i : Z) (e : t) : t :=
  {| base := DbEventBase.set_event_index i (base e); detail := detail e |}.
End DbEvent.

Module DbSmartContract.
Record t := {
  tx_id : string;
  contract_id : string;
  block_height : Z;
  source_code : string;
  abi : string;
  canonical : bool;
}.
End DbSmartContract.

(** An entry of the parser's result, as the store receives it. *)
Module DataStoreTxEventData.
Record t := {
  tx : DbTx.t;
  stxEvents : list DbEvent.t;
  stxLockEvents : list DbEvent.t;
  ftEvents : list DbEvent.t;
  nftEvents : list DbEvent.t;
  contractLogEvents : list DbEvent.t;
  smartContracts : list DbSmartContract.t;
  names : list JsValue;
  namespaces : list JsValue;
}.
End DataStoreTxEventData.

Module DbBlock.
Record t := {
  canonical : bool;
  block_hash : string;
  index_block_hash : string;
  parent_index_block_hash : string;
  parent_block_hash : string;
  parent_microblock_hash : string;
  parent_microblock_sequence : Z;
  block_height : Z;
  burn_block_time : Z;
  burn_block_hash : string;
  burn_block_height : Z;
  miner_txid : string;
  execution_cost_read_count : Z;
  execution_cost_read_length : Z;
  execution_cost_runtime : Z;
  execution_cost_write_count : Z;
  execution_cost_write_length : Z;
}.
End DbBlock.

Module DbMinerReward.
Record t := {
  canonical : bool;
  block_hash : string;
  index_block_hash : string;
  from_index_block_hash : string;
  mature_block_height : Z;
  recipient : string;
  coinbase_amount : Z;
  tx_fees_anchored : Z;
  tx_fees_streamed_confirmed : Z;
  tx_fees_streamed_produced : Z;
}.
End DbMinerReward.

(** [DbMicroblockPartial] is what the reader returns; its interface is
    declared in [../datastore/common], so it is a [JsValue].  A [DbMicroblock] is the spread
    of a partial record followed by the fields of the anchor block. *)
Definition DbMicroblockPartial := JsValue.

Module DbMicroblock.
Record t := {
  mb : DbMicroblockPartial;
  canonical : bool;
  microblock_canonical : bool;
  block_height : Z;
  parent_block_height : Z;
  parent_block_hash : string;
  index_block_hash : string;
  block_hash : string;
}.
End DbMicroblock.

Module DbBurnchainReward.
Record t := {
  canonical : bool;
  burn_block_hash : string;
  burn_block_height : Z;
  burn_amount : Z;
  reward_recipient : string;
  reward_amount : Z;
  reward_index : Z;
}.
End DbBurnchainReward.

Module DbRewardSlotHolder.
Record t := {
  canonical : bool;
  burn_block_hash : string;
  burn_block_height : Z;
  address : string;
  slot_index : Z;
}.
End DbRewardSlotHolder.

Module DataStoreBlockUpdateData.
Record t := {
  block : DbBlock.t;
  microblocks : list DbMicroblock.t;
  minerRewards : list DbMinerReward.t;
  txs : list DataStoreTxEventData.t;
}.
End DataStoreBlockUpdateData.

Module DataStoreMicroblockUpdateData.
Record t := {
  microblocks : list DbMicroblockPartial;
  txs : list DataStoreTxEventData.t;
}.
End DataStoreMicroblockUpdateData.

Module DataStoreAttachmentData.
Record t := {
  op : string;
  zonefile : string;
  name : string;
  namespace : string;
  zonefileHash : string;
  txId : string;
  indexBlockHash : string;
  blockHeight : Z;
}.
End DataStoreAttachmentData.

(** The arguments of one call of [parseMessageTransaction]. *)
Module ParserCall.
Record t := {
  chainId : ChainID;
  tx : CoreNodeTxMessage.t;
  blockData : CoreNodeMsgBlockData.t;
  allEvents : list CoreNodeEvent.t;
}.
End ParserCall.

(** The argument of [createDbMempoolTxFromCoreMsg]. *)
Module MempoolTxArgs.
Record t := {
  txId : string;
  txData : DecodedTxResult.t;
  sender : string;
  sponsorAddress : option string;
  rawTx : Buffer;
  receiptDate : Z;
}.
End MempoolTxArgs.

(** The decoded values [handleNewAttachmentMessage] looks into. *)
Local Unset Elimination Schemes.
Inductive ClarityValue :=
  | ClarityValueStringAscii (data : string)
  | ClarityValueBuffer (buffer : string)
  | ClarityValueTuple (data : list (string * ClarityValue))
  | ClarityValueOther (repr : JsValue).
Local Set Elimination Schemes.

(** ** The store and the requests *)

Inductive StoreCall :=
  | storeRawEventRequest (eventPath payload : string)
  | updateBurnchainRewards (burnchainBlockHash : string) (burnchainBlockHeight : Z)
      (rewards : list DbBurnchainReward.t)
  | updateBurnchainRewardSlotHolders (burnchainBlockHash : string) (burnchainBlockHeight : Z)
      (slotHolders : list DbRewardSlotHolder.t)
  | updateMempoolTxs (mempoolTxs : list JsValue)
  | dropMempoolTxs (status : JsValue) (txIds : list string)
  | updateMicroblocks (data : DataStoreMicroblockUpdateData.t)
  | update (data : DataStoreBlockUpdateData.t)
  | updateAttachments (attachments : list DataStoreAttachmentData.t).

Inductive Method := GET | POST | OtherMethod (name : string).

Global Instance Method_eq_dec : EqDecision Method.
Proof. solve_decision. Defined.

Module Request.
Record t := { method : Method; path : string; body : JsValue }.
End Request.

Module Response.
Record t := { status : Z; json : JsValue }.
End Response.

Module StacksApiMode.
Inductive t := default | readOnly | writeOnly | offline.
End StacksApiMode.

(** ** Imported functions

    What [event-server.ts] and the entry point import from other modules and
    use.  Those that can throw return a [Result]. *)

Class Externals := {
  (* ../helpers *)
  hexToBuffer : string → Result Buffer;
  parseArgBoolean : option string → Result bool;
  (* ../datastore/common *)
  createDbTxFromCoreMsg : CoreNodeParsedTxMessage.t → Result DbTx.t;
  (* ./bns/bns-helpers *)
  parseNameRenewalWithNoZonefileHashFromContractCall :
    CoreNodeParsedTxMessage.t → ChainID → Result (option JsValue);
  parseNameFromContractEvent :
    CoreNodeEvent.t → CoreNodeParsedTxMessage.t → list CoreNodeEvent.t → Z → ChainID →
    Result (option JsValue);
  parseNamespaceFromContractEvent :
    CoreNodeEvent.t → CoreNodeParsedTxMessage.t → Z → Result (option JsValue);
  (* built-ins: BigInt(string), Number(string), JSON.stringify, util.inspect *)
  BigInt : string → Result Z;
  Number : string → Z;
  JSON_stringify : JsValue → string;
  inspect : CoreNodeEvent.t → string;
  parseInt : string → Z;
  Buffer_toString_utf8 : Buffer → string;
  (* ../datastore/common, continued *)
  createDbMempoolTxFromCoreMsg : MempoolTxArgs.t → Result JsValue;
  getTxDbStatus : string → Result JsValue;
  (* ./reader *)
  getTxSenderAddress : DecodedTxResult.t → Result string;
  getTxSponsorAddress : DecodedTxResult.t → Result (option string);
  parseMicroblocksFromTxs :
    string → list CoreNodeTxMessage.t → Z → string → Z → Result (list DbMicroblockPartial);
  (* what ./reader's parseMessageTransaction does with a decoded transaction:
     the parsed message, or null to leave the transaction out *)
  readMessageTransaction :
    ChainID → CoreNodeTxMessage.t → DecodedTxResult.t → CoreNodeMsgBlockData.t →
    list CoreNodeEvent.t → Result (option CoreNodeParsedTxMessage.t);
  (* stacks-encoding-native-js *)
  decodeTransaction : Buffer → Result DecodedTxResult.t;
  decodeClarityValue : string → Result ClarityValue;
  (* ./bns/bns-constants *)
  BnsContractIdentifier_mainnet : string;
  BnsContractIdentifier_testnet : string;
  (* a request body read at the type its route asserts; Throw is the
     TypeError that a body of another shape raises when it is used *)
  asCoreNodeBlockMessage : JsValue → Result CoreNodeBlockMessage.t;
  asCoreNodeBurnBlockMessage : JsValue → Result CoreNodeBurnBlockMessage.t;
  asRawTxs : JsValue → Result (list string);
  asCoreNodeDropMempoolTxMessage : JsValue → Result CoreNodeDropMempoolTxMessage.t;
  asCoreNodeAttachmentMessages : JsValue → Result (list CoreNodeAttachmentMessage.t);
  asCoreNodeMicroblockMessage : JsValue → Result CoreNodeMicroblockMessage.t;
  (* express: whether a route path other than '*' matches a request path *)
  routeMatches : string → string → bool;
}.

(** The store behind the [DataStore] interface: a call changes its state and
    may fail. *)
Class DataStore := {
  DbState : Type;
  dbRun : StoreCall → DbState → option JsError * DbState;
}.

(** ** The parser's working state

    [dbData] during the scatter loop: the buckets of an entry hold references
    into [heap], where the event objects are. *)

Abbreviation Ref := nat (only parsing).
Abbreviation Heap := (list DbEvent.t) (only parsing).

Module TxEntry.
Record t := {
  tx : DbTx.t;
  stxEvents : list Ref;
  stxLockEvents : list Ref;
  ftEvents : list Ref;
  nftEvents : list Ref;
  contractLogEvents : list Ref;
  smartContracts : list DbSmartContract.t;
  names : list JsValue;
  namespaces : list JsValue;
}.

Definition set_tx (x : DbTx.t) (e : t) : t :=
  {| tx := x; stxEvents := stxEvents e; stxLockEvents := stxLockEvents e;
     ftEvents := ftEvents e; nftEvents := nftEvents e;
     contractLogEvents := contractLogEvents e; smartContracts := smartContracts e;
     names := names e; namespaces := namespaces e |}.

Definition push_smartContract (c : DbSmartContract.t) (e : t) : t :=
  {| tx := tx e; stxEvents := stxEvents e; stxLockEvents := stxLockEvents e;
     ftEvents := ftEvents e; nftEvents := nftEvents e;
     contractLogEvents := contractLogEvents e;
     smartContracts := smartContracts e ++ [c];
     names := names e; namespaces := namespaces e |}.

Definition push_name (n : JsValue) (e : t) : t :=
  {| tx := tx e; stxEvents := stxEvents e; stxLockEvents := stxLockEvents e;
     ftEvents := ftEvents e; nftEvents := nftEvents e;
     contractLogEvents := contractLogEvents e; smartContracts := smartContracts e;
     names := names e ++ [n]; namespaces := namespaces e |}.

Definition push_namespace (n : JsValue) (e : t) : t :=
  {| tx := tx e; stxEvents := stxEvents e; stxLockEvents := stxLockEvents e;
     ftEvents := ftEvents e; nftEvents := nftEvents e;
     contractLogEvents := contractLogEvents e; smartContracts := smartContracts e;
     names := names e; namespaces := namespaces e ++ [n] |}.
End TxEntry.

(** The five event arrays of an entry. *)
Inductive Bucket := contractLogEvents | ftEvents | nftEvents | stxEvents | stxLockEvents.

Global Instance Bucket_eq_dec : EqDecision Bucket.
Proof. solve_decision. Defined.

(** [dbTx.<b>.push(entry)], with [r] the reference of [entry]. *)
Definition push (b : Bucket) (r : Ref) (e : TxEntry.t) : TxEntry.t :=
  {| TxEntry.tx := TxEntry.tx e;
     TxEntry.stxEvents :=
       if decide (b = stxEvents) then TxEntry.stxEvents e ++ [r] else TxEntry.stxEvents e;
     TxEntry.stxLockEvents :=
       if decide (b = stxLockEvents) then TxEntry.stxLockEvents e ++ [r]
       else TxEntry.stxLockEvents e;
     TxEntry.ftEvents :=
       if decide (b = ftEvents) then TxEntry.ftEvents e ++ [r] else TxEntry.ftEvents e;
     TxEntry.nftEvents :=
       if decide (b = nftEvents) then TxEntry.nftEvents e ++ [r] else TxEntry.nftEvents e;
     TxEntry.contractLogEvents :=
       if decide (b = contractLogEvents) then TxEntry.contractLogEvents e ++ [r]
       else TxEntry.contractLogEvents e;
     TxEntry.smartContracts := TxEntry.smartContracts e;
     TxEntry.names := TxEntry.names e;
     TxEntry.namespaces := TxEntry.namespaces e |}.

Module ParseState.
Record t := { dbData : list TxEntry.t; heap : Heap }.
End ParseState.

(** The argument [blockData] of [parseDataStoreTxEventData]. *)
Module BlockRef.
Record t := { block_height : Z; index_block_hash : string }.
End BlockRef.

(** ** [Array.prototype.sort] with a comparator

    The sort of the JS standard is stable; an insertion sort that puts an
    element in front of the first one it does not exceed is a stable sort. *)

Fixpoint insertSorted {A} (cmp : A → A → Z) (x : A) (l : list A) : list A :=
  match l with
  | [] => [x]
  | y :: l' => if (cmp x y <=? 0)%Z then x :: y :: l' else y :: insertSorted cmp x l'
  end.

Fixpoint sortBy {A} (cmp : A → A → Z) (l : list A) : list A :=
  match l with
  | [] => []
  | x :: l' => insertSorted cmp x (sortBy cmp l')
  end.

(** The comparator [(a, b) => key(a) - key(b)], and the order a sort with it
    brings about. *)
Definition compareBy {A} (key : A → Z) (a b : A) : Z := (key a - key b)%Z.

Definition keyLe {A} (key : A → Z) (a b : A) : Prop := (key a ≤ key b)%Z.

(** ** [parseDataStoreTxEventData] *)

Section Parser.
Context {externals : Externals}.

(** The callback of [parsedTxs.map]: the entry of one transaction. *)
Definition initEntry (blockData : BlockRef.t) (chainId : ChainID)
    (tx : CoreNodeParsedTxMessage.t) : Result TxEntry.t :=
  dbTx_tx ← createDbTxFromCoreMsg tx;
  let dbTx :=
    {| TxEntry.tx := dbTx_tx;
       TxEntry.stxEvents := [];
       TxEntry.stxLockEvents := [];
       TxEntry.ftEvents := [];
       TxEntry.nftEvents := [];
       TxEntry.contractLogEvents := [];
       TxEntry.smartContracts := [];
       TxEntry.names := [];
       TxEntry.namespaces := [] |} in
  match DecodedTxResult.payload (CoreNodeParsedTxMessage.parsed_tx tx) with
  | SmartContract contract_name code_body =>
      let contractId := CoreNodeParsedTxMessage.sender_address tx +:+ "." +:+ contract_name in
      Ok (TxEntry.push_smartContract
            {| DbSmartContract.tx_id :=
                 CoreNodeTxMessage.txid (CoreNodeParsedTxMessage.core_tx tx);
               DbSmartContract.contract_id := contractId;
               DbSmartContract.block_height := BlockRef.block_height blockData;
               DbSmartContract.source_code := code_body;
               DbSmartContract.abi :=
                 JSON_stringify
                   (CoreNodeTxMessage.contract_abi (CoreNodeParsedTxMessage.core_tx tx));
               DbSmartContract.canonical := true |}
            dbTx)
  | ContractCall _ =>
      name ← parseNameRenewalWithNoZonefileHashFromContractCall tx chainId;
      match name with
      | Some name => Ok (TxEntry.push_name name dbTx)
      | None => Ok dbTx
      end
  | _ => Ok dbTx
  end.

Fixpoint initDbData (blockData : BlockRef.t) (chainId : ChainID)
    (parsedTxs : list CoreNodeParsedTxMessage.t) : Result (list TxEntry.t) :=
  match parsedTxs with
  | [] => Ok []
  | tx :: parsedTxs' =>
      dbTx ← initEntry blockData chainId tx;
      dbData ← initDbData blockData chainId parsedTxs';
      Ok (dbTx :: dbData)
  end.

(** The [switch (event.type)]: the record built for the event and the array
    it is pushed to. *)
Definition dispatch (dbEvent : DbEventBase.t) (event : CoreNodeEvent.t) :
    Result (Bucket * DbEvent.t) :=
  match CoreNodeEvent.type event with
  | ContractEvent ev =>
      value ← hexToBuffer (ContractEvent.raw_value ev);
      Ok (contractLogEvents,
          {| DbEvent.base := dbEvent;
             DbEvent.detail :=
               SmartContractLog (ContractEvent.contract_identifier ev)
                 (ContractEvent.topic ev) value |})
  | StxLockEvent ev =>
      locked_amount ← BigInt (StxLockEvent.locked_amount ev);
      Ok (stxLockEvents,
          {| DbEvent.base := dbEvent;
             DbEvent.detail :=
               StxLock locked_amount (Number (StxLockEvent.unlock_height ev))
                 (StxLockEvent.locked_address ev) |})
  | StxTransferEvent ev =>
      amount ← BigInt (StxTransferEvent.amount ev);
      Ok (stxEvents,
          {| DbEvent.base := dbEvent;
             DbEvent.detail :=
               StxAsset Transfer (Some (StxTransferEvent.sender ev))
                 (Some (StxTransferEvent.recipient ev)) amount |})
  | StxMintEvent ev =>
      amount ← BigInt (StxMintEvent.amount ev);
      Ok (stxEvents,
          {| DbEvent.base := dbEvent;
             DbEvent.detail := StxAsset Mint None (Some (StxMintEvent.recipient ev)) amount |})
  | StxBurnEvent ev =>
      amount ← BigInt (StxBurnEvent.amount ev);
      Ok (stxEvents,
          {| DbEvent.base := dbEvent;
             DbEvent.detail := StxAsset Burn (Some (StxBurnEvent.sender ev)) None amount |})
  | FtTransferEvent ev =>
      amount ← BigInt (FtTransferEvent.amount ev);
      Ok (ftEvents,
          {| DbEvent.base := dbEvent;
             DbEvent.detail :=
               FungibleTokenAsset Transfer (Some (FtTransferEvent.sender ev))
                 (Some (FtTransferEvent.recipient ev))
                 (FtTransferEvent.asset_identifier ev) amount |})
  | FtMintEvent ev =>
      amount ← BigInt (FtMintEvent.amount ev);
      Ok (ftEvents,
          {| DbEvent.base := dbEvent;
             DbEvent.detail :=
               FungibleTokenAsset Mint None (Some (FtMintEvent.recipient ev))
                 (FtMintEvent.asset_identifier ev) amount |})
  | FtBurnEvent ev =>
      amount ← BigInt (FtBurnEvent.amount ev);
      Ok (ftEvents,
          {| DbEvent.base := dbEvent;
             DbEvent.detail :=
               FungibleTokenAsset Burn (Some (FtBurnEvent.sender ev)) None
                 (FtBurnEvent.asset_identifier ev) amount |})
  | NftTransferEvent ev =>
      value ← hexToBuffer (NftTransferEvent.raw_value ev);
      Ok (nftEvents,
          {| DbEvent.base := dbEvent;
             DbEvent.detail :=
               NonFungibleTokenAsset Transfer (Some (NftTransferEvent.sender ev))
                 (Some (NftTransferEvent.recipient ev))
                 (NftTransferEvent.asset_identifier ev) value |})
  | NftMintEvent ev =>
      value ← hexToBuffer (NftMintEvent.raw_value ev);
      Ok (nftEvents,
          {| DbEvent.base := dbEvent;
             DbEvent.detail :=
               NonFungibleTokenAsset Mint None (Some (NftMintEvent.recipient ev))
                 (NftMintEvent.asset_identifier ev) value |})
  | NftBurnEvent ev =>
      value ← hexToBuffer (NftBurnEvent.raw_value ev);
      Ok (nftEvents,
          {| DbEvent.base := dbEvent;
             DbEvent.detail :=
               NonFungibleTokenAsset Burn (Some (NftBurnEvent.sender ev)) None
                 (NftBurnEvent.asset_identifier ev) value |})
  | OtherEvent _ => Throw (Error ("Unexpected CoreNodeEventType: " +:+ inspect event))
  end.

(** [dbData.find(entry => entry.tx.tx_id === txid)], with the position. *)
Definition findDbTx (dbData : list TxEntry.t) (txid : string) : option (nat * TxEntry.t) :=
  list_find (λ entry, DbTx.tx_id (TxEntry.tx entry) = txid) dbData.

Definition findParsedTx (parsedTxs : list CoreNodeParsedTxMessage.t) (txid : string) :
    option (nat * CoreNodeParsedTxMessage.t) :=
  list_find
    (λ entry, CoreNodeTxMessage.txid (CoreNodeParsedTxMessage.core_tx entry) = txid)
    parsedTxs.

(** A new event object is allocated at the end of the heap and its
    reference is pushed to array [b] of entry [k]. *)
Definition pushEvent (k : nat) (b : Bucket) (entry : DbEvent.t) (st : ParseState.t) :
    ParseState.t :=
  {| ParseState.dbData := alter (push b (length (ParseState.heap st))) k (ParseState.dbData st);
     ParseState.heap := ParseState.heap st ++ [entry] |}.

Definition updateEntry (k : nat) (f : TxEntry.t → TxEntry.t) (st : ParseState.t) :
    ParseState.t :=
  {| ParseState.dbData := alter f k (ParseState.dbData st);
     ParseState.heap := ParseState.heap st |}.

(** The [dbEvent] literal; [tx_index] is [dbTx.tx.tx_index]. *)
Definition mkDbEventBase (blockData : BlockRef.t) (tx_index : Z)
    (event : CoreNodeEvent.t) : DbEventBase.t :=
  {| DbEventBase.event_index := CoreNodeEvent.event_index event;
     DbEventBase.tx_id := CoreNodeEvent.txid event;
     DbEventBase.tx_index := tx_index;
     DbEventBase.block_height := BlockRef.block_height blockData;
     DbEventBase.canonical := true |}.

(** The body of [for (const event of events)]. *)
Definition processEvent (parsedTxs : list CoreNodeParsedTxMessage.t)
    (events : list CoreNodeEvent.t) (blockData : BlockRef.t) (chainId : ChainID)
    (st : ParseState.t) (event : CoreNodeEvent.t) : Result ParseState.t :=
  if negb (CoreNodeEvent.committed event) then Ok st
  else
    match findDbTx (ParseState.dbData st) (CoreNodeEvent.txid event) with
    | None =>
        Throw (Error ("Unexpected missing tx during event parsing by tx_id "
                      +:+ CoreNodeEvent.txid event))
    | Some (k, dbTx) =>
        let dbEvent := mkDbEventBase blockData (DbTx.tx_index (TxEntry.tx dbTx)) event in
        '(b, entry) ← dispatch dbEvent event;
        let st := pushEvent k b entry st in
        match CoreNodeEvent.type event with
        | ContractEvent _ =>
            match findParsedTx parsedTxs (CoreNodeEvent.txid event) with
            | None =>
                Throw (Error ("Unexpected missing tx during BNS parsing by tx_id "
                              +:+ CoreNodeEvent.txid event))
            | Some (_, parsedTx) =>
                name ← parseNameFromContractEvent event parsedTx events
                         (BlockRef.block_height blockData) chainId;
                let st :=
                  match name with
                  | Some name => updateEntry k (TxEntry.push_name name) st
                  | None => st
                  end in
                namespace ← parseNamespaceFromContractEvent event parsedTx
                              (BlockRef.block_height blockData);
                Ok match namespace with
                   | Some namespace => updateEntry k (TxEntry.push_namespace namespace) st
                   | None => st
                   end
            end
        | _ => Ok st
        end
    end.

(** The loop over [events]; [allEvents] is the whole array, which the BNS
    parser is handed at every contract log. *)
Fixpoint scatterEvents (parsedTxs : list CoreNodeParsedTxMessage.t)
    (allEvents : list CoreNodeEvent.t) (blockData : BlockRef.t) (chainId : ChainID)
    (events : list CoreNodeEvent.t) (st : ParseState.t) : Result ParseState.t :=
  match events with
  | [] => Ok st
  | event :: events' =>
      st' ← processEvent parsedTxs allEvents blockData chainId st event;
      scatterEvents parsedTxs allEvents blockData chainId events' st'
  end.

(** Everything before the normalization loop. *)
Definition scatter (parsedTxs : list CoreNodeParsedTxMessage.t)
    (events : list CoreNodeEvent.t) (blockData : BlockRef.t) (chainId : ChainID) :
    Result ParseState.t :=
  dbData ← initDbData blockData chainId parsedTxs;
  scatterEvents parsedTxs events blockData chainId events
    {| ParseState.dbData := dbData; ParseState.heap := [] |}.

(** [[contractLogEvents, ftEvents, nftEvents, stxEvents, stxLockEvents].flat()] *)
Definition flatEvents (tx : TxEntry.t) : list Ref :=
  concat [TxEntry.contractLogEvents tx; TxEntry.ftEvents tx; TxEntry.nftEvents tx;
          TxEntry.stxEvents tx; TxEntry.stxLockEvents tx].

(** [a.event_index] of the object behind a reference. *)
Definition eventIndexAt (h : Heap) (a : Ref) : Z :=
  match h !! a with
  | Some e => DbEvent.event_index e
  | None => 0
  end.

(** [(a, b) => a.event_index - b.event_index] *)
Definition compareEvents (h : Heap) (a b : Ref) : Z :=
  compareBy (eventIndexAt h) a b.

(** [for (let i = 0; i < sortedEvents.length; i++) sortedEvents[i].event_index = i],
    from position [i] on. *)
Fixpoint renumber (sortedEvents : list Ref) (i : nat) (h : Heap) : Heap :=
  match sortedEvents with
  | [] => h
  | r :: sortedEvents' =>
      renumber sortedEvents' (S i) (alter (DbEvent.set_event_index (Z.of_nat i)) r h)
  end.

(** The body of [for (const tx of dbData)]. *)
Definition normalizeTx (tx : TxEntry.t) (h : Heap) : TxEntry.t * Heap :=
  let sortedEvents := sortBy (compareEvents h) (flatEvents tx) in
  (TxEntry.set_tx (DbTx.set_event_count (Z.of_nat (length sortedEvents)) (TxEntry.tx tx)) tx,
   renumber sortedEvents 0 h).

Fixpoint normalizeAll (dbData : list TxEntry.t) (h : Heap) : list TxEntry.t * Heap :=
  match dbData with
  | [] => ([], h)
  | tx :: dbData' =>
      let '(tx', h') := normalizeTx tx h in
      let '(dbData'', h'') := normalizeAll dbData' h' in
      (tx' :: dbData'', h'')
  end.

Definition normalize (st : ParseState.t) : ParseState.t :=
  let '(dbData, h) := normalizeAll (ParseState.dbData st) (ParseState.heap st) in
  {| ParseState.dbData := dbData; ParseState.heap := h |}.

(** The value of an entry once the function returns: every reference is
    replaced by the object it points to. *)
Definition deref (h : Heap) (refs : list Ref) : list DbEvent.t :=
  omap (λ r, h !! r) refs.

Definition snapshotEntry (h : Heap) (e : TxEntry.t) : DataStoreTxEventData.t :=
  {| DataStoreTxEventData.tx := TxEntry.tx e;
     DataStoreTxEventData.stxEvents := deref h (TxEntry.stxEvents e);
     DataStoreTxEventData.stxLockEvents := deref h (TxEntry.stxLockEvents e);
     DataStoreTxEventData.ftEvents := deref h (TxEntry.ftEvents e);
     DataStoreTxEventData.nftEvents := deref h (TxEntry.nftEvents e);
     DataStoreTxEventData.contractLogEvents := deref h (TxEntry.contractLogEvents e);
     DataStoreTxEventData.smartContracts := TxEntry.smartContracts e;
     DataStoreTxEventData.names := TxEntry.names e;
     DataStoreTxEventData.namespaces := TxEntry.namespaces e |}.

Definition snapshot (st : ParseState.t) : list DataStoreTxEventData.t :=
  snapshotEntry (ParseState.heap st) <$> ParseState.dbData st.

Definition parseDataStoreTxEventData (parsedTxs : list CoreNodeParsedTxMessage.t)
    (events : list CoreNodeEvent.t) (blockData : BlockRef.t) (chainId : ChainID) :
    Result (list DataStoreTxEventData.t) :=
  st ← scatter parsedTxs events blockData chainId;
  Ok (snapshot (normalize st)).

End Parser.

(** ** The message handlers *)

Section Handlers.
Context {externals : Externals} {dataStore : DataStore}.

(** What a handler can observe and change: the store, the calls made to it
    so far (oldest first), and the clock behind [Date.now()]. *)
Record World := { db : DbState; calls : list StoreCall; clock : Z }.

(** An [async] function: it runs from a world to an outcome and a world. *)
Definition Task (A : Type) : Type := World → Result A * World.

Global Instance Task_ret : MRet Task := λ A a w, (Ok a, w).
Global Instance Task_bind : MBind Task := λ A B f m w,
  match m w with
  | (Ok a, w') => f a w'
  | (Throw e, w') => (Throw e, w')
  end.

Definition lift {A} (r : Result A) : Task A := λ w, (r, w).

Definition tryCatch {A} (m : Task A) (handler : JsError → Task A) : Task A := λ w,
  match m w with
  | (Ok a, w') => (Ok a, w')
  | (Throw e, w') => handler e w'
  end.

(** [await db.<call>] *)
Definition dbCall (c : StoreCall) : Task unit := λ w,
  let '(failure, s) := dbRun c (db w) in
  (match failure with
   | None => Ok ()
   | Some e => Throw e
   end,
   {| db := s; calls := calls w ++ [c]; clock := clock w |}).

Definition handleRawEventRequest (eventPath payload : string) : Task unit :=
  dbCall (storeRawEventRequest eventPath payload).

(** The callbacks of [reward_recipients.map] and [reward_slot_holders.map];
    [BigInt] of a number that is an integer is that integer. *)
Definition mkDbBurnchainReward (burnBlockMsg : CoreNodeBurnBlockMessage.t) (index : nat)
    (r : RewardRecipient.t) : DbBurnchainReward.t :=
  {| DbBurnchainReward.canonical := true;
     DbBurnchainReward.burn_block_hash := CoreNodeBurnBlockMessage.burn_block_hash burnBlockMsg;
     DbBurnchainReward.burn_block_height :=
       CoreNodeBurnBlockMessage.burn_block_height burnBlockMsg;
     DbBurnchainReward.burn_amount := CoreNodeBurnBlockMessage.burn_amount burnBlockMsg;
     DbBurnchainReward.reward_recipient := RewardRecipient.recipient r;
     DbBurnchainReward.reward_amount := RewardRecipient.amt r;
     DbBurnchainReward.reward_index := Z.of_nat index |}.

Definition mkDbRewardSlotHolder (burnBlockMsg : CoreNodeBurnBlockMessage.t) (index : nat)
    (r : string) : DbRewardSlotHolder.t :=
  {| DbRewardSlotHolder.canonical := true;
     DbRewardSlotHolder.burn_block_hash := CoreNodeBurnBlockMessage.burn_block_hash burnBlockMsg;
     DbRewardSlotHolder.burn_block_height :=
       CoreNodeBurnBlockMessage.burn_block_height burnBlockMsg;
     DbRewardSlotHolder.address := r;
     DbRewardSlotHolder.slot_index := Z.of_nat index |}.

Definition handleBurnBlockMessage (burnBlockMsg : CoreNodeBurnBlockMessage.t) : Task unit :=
  let rewards :=
    imap (mkDbBurnchainReward burnBlockMsg)
      (CoreNodeBurnBlockMessage.reward_recipients burnBlockMsg) in
  let slotHolders :=
    imap (mkDbRewardSlotHolder burnBlockMsg)
      (CoreNodeBurnBlockMessage.reward_slot_holders burnBlockMsg) in
  dbCall (updateBurnchainRewards
            (CoreNodeBurnBlockMessage.burn_block_hash burnBlockMsg)
            (CoreNodeBurnBlockMessage.burn_block_height burnBlockMsg)
            rewards);;
  dbCall (updateBurnchainRewardSlotHolders
            (CoreNodeBurnBlockMessage.burn_block_hash burnBlockMsg)
            (CoreNodeBurnBlockMessage.burn_block_height burnBlockMsg)
            slotHolders).

(** [l.map(f)] for a callback that may throw. *)
Fixpoint mapResult {A B} (f : A → Result B) (l : list A) : Result (list B) :=
  match l with
  | [] => Ok []
  | x :: l' =>
      y ← f x;
      ys ← mapResult f l';
      Ok (y :: ys)
  end.

Definition handleMempoolTxsMessage (rawTxs : list string) : Task unit := λ w,
  (* Math.round(Date.now() / 1000) *)
  let receiptDate := ((clock w + 500) `div` 1000)%Z in
  (rawTxBuffers ← lift (mapResult hexToBuffer rawTxs);
   decodedTxs ← lift (mapResult (λ buffer,
                        parsedTx ← decodeTransaction buffer;
                        txSender ← getTxSenderAddress parsedTx;
                        sponsorAddress ← getTxSponsorAddress parsedTx;
                        Ok {| MempoolTxArgs.txId := DecodedTxResult.tx_id parsedTx;
                              MempoolTxArgs.txData := parsedTx;
                              MempoolTxArgs.sender := txSender;
                              MempoolTxArgs.sponsorAddress := sponsorAddress;
                              MempoolTxArgs.rawTx := buffer;
                              MempoolTxArgs.receiptDate := receiptDate |})
                      rawTxBuffers);
   dbMempoolTxs ← lift (mapResult createDbMempoolTxFromCoreMsg decodedTxs);
   dbCall (updateMempoolTxs dbMempoolTxs)) w.

Definition handleDroppedMempoolTxsMessage (msg : CoreNodeDropMempoolTxMessage.t) :
    Task unit :=
  dbTxStatus ← lift (getTxDbStatus (CoreNodeDropMempoolTxMessage.reason msg));
  dbCall (dropMempoolTxs dbTxStatus (CoreNodeDropMempoolTxMessage.dropped_txids msg)).

(** Decoding the raw bytes of a transaction of a block or microblock
    message. *)
Definition decodeRawTx (coreTx : CoreNodeTxMessage.t) : Result DecodedTxResult.t :=
  txBuffer ← hexToBuffer (CoreNodeTxMessage.raw_tx coreTx);
  decodeTransaction txBuffer.

(** Modelled from the spec: [parseMessageTransaction] is defined in
    [./reader], which is not embedded here.  The spec, 4.1: the
    transaction decoder "fails with DecodeError::Transaction on truncated or
    malformed input".  What the reader does with a decoded transaction is
    the imported [readMessageTransaction]. *)
Definition parseMessageTransaction (chainId : ChainID) (coreTx : CoreNodeTxMessage.t)
    (blockData : CoreNodeMsgBlockData.t) (allEvents : list CoreNodeEvent.t) :
    Result (option CoreNodeParsedTxMessage.t) :=
  match decodeRawTx coreTx with
  | Throw _ => Throw (Error "DecodeError::Transaction")
  | Ok rawTx => readMessageTransaction chainId coreTx rawTx blockData allEvents
  end.

(** The arguments of the calls of [parseMessageTransaction] that a
    [transactions.forEach] makes, one per transaction. *)
Definition parserCalls (chainId : ChainID) (blockData : CoreNodeMsgBlockData.t)
    (events : list CoreNodeEvent.t) (transactions : list CoreNodeTxMessage.t) :
    list ParserCall.t :=
  (λ tx, {| ParserCall.chainId := chainId; ParserCall.tx := tx;
            ParserCall.blockData := blockData; ParserCall.allEvents := events |})
    <$> transactions.

(** The calls in order, with [if (parsedTx) parsedTxs.push(parsedTx)]. *)
Fixpoint runParserCalls (calls : list ParserCall.t) : Result (list CoreNodeParsedTxMessage.t) :=
  match calls with
  | [] => Ok []
  | call :: calls' =>
      parsedTx ← parseMessageTransaction (ParserCall.chainId call) (ParserCall.tx call)
                   (ParserCall.blockData call) (ParserCall.allEvents call);
      parsedTxs ← runParserCalls calls';
      Ok match parsedTx with
         | Some parsedTx => parsedTx :: parsedTxs
         | None => parsedTxs
         end
  end.

Definition parseTransactions (chainId : ChainID) (blockData : CoreNodeMsgBlockData.t)
    (events : list CoreNodeEvent.t) (transactions : list CoreNodeTxMessage.t) :
    Result (list CoreNodeParsedTxMessage.t) :=
  runParserCalls (parserCalls chainId blockData events transactions).

(** The [blockData] literal of [handleMicroblockMessage]. *)
Definition microblockBlockData (msg : CoreNodeMicroblockMessage.t) : CoreNodeMsgBlockData.t :=
  {| CoreNodeMsgBlockData.parent_index_block_hash :=
       CoreNodeMicroblockMessage.parent_index_block_hash msg;
     CoreNodeMsgBlockData.parent_burn_block_timestamp :=
       CoreNodeMicroblockMessage.burn_block_timestamp msg;
     CoreNodeMsgBlockData.parent_burn_block_height :=
       CoreNodeMicroblockMessage.burn_block_height msg;
     CoreNodeMsgBlockData.parent_burn_block_hash :=
       CoreNodeMicroblockMessage.burn_block_hash msg;
     CoreNodeMsgBlockData.burn_block_time := -1;
     CoreNodeMsgBlockData.burn_block_height := -1;
     CoreNodeMsgBlockData.index_block_hash := "";
     CoreNodeMsgBlockData.block_hash := "";
     CoreNodeMsgBlockData.block_height := -1;
     CoreNodeMsgBlockData.parent_block_hash := "" |}.

(** The calls of [parseMessageTransaction] that [handleMicroblockMessage]
    makes. *)
Definition microblockParserCalls (chainId : ChainID) (msg : CoreNodeMicroblockMessage.t) :
    list ParserCall.t :=
  parserCalls chainId (microblockBlockData msg) (CoreNodeMicroblockMessage.events msg)
    (CoreNodeMicroblockMessage.transactions msg).

Definition handleMicroblockMessage (chainId : ChainID) (msg : CoreNodeMicroblockMessage.t) :
    Task unit :=
  dbMicroblocks ← lift (parseMicroblocksFromTxs
                          (CoreNodeMicroblockMessage.parent_index_block_hash msg)
                          (CoreNodeMicroblockMessage.transactions msg)
                          (CoreNodeMicroblockMessage.burn_block_height msg)
                          (CoreNodeMicroblockMessage.burn_block_hash msg)
                          (CoreNodeMicroblockMessage.burn_block_timestamp msg));
  parsedTxs ← lift (runParserCalls (microblockParserCalls chainId msg));
  txs ← lift (parseDataStoreTxEventData parsedTxs (CoreNodeMicroblockMessage.events msg)
                {| BlockRef.block_height := -1; BlockRef.index_block_hash := "" |}
                chainId);
  let updateData :=
    {| DataStoreMicroblockUpdateData.microblocks := dbMicroblocks;
       DataStoreMicroblockUpdateData.txs := txs |} in
  dbCall (updateMicroblocks updateData).

(** [{ ...msg }] read as a [CoreNodeMsgBlockData]. *)
Definition blockDataOfMsg (msg : CoreNodeBlockMessage.t) : CoreNodeMsgBlockData.t :=
  {| CoreNodeMsgBlockData.parent_index_block_hash :=
       CoreNodeBlockMessage.parent_index_block_hash msg;
     CoreNodeMsgBlockData.parent_burn_block_timestamp :=
       CoreNodeBlockMessage.parent_burn_block_timestamp msg;
     CoreNodeMsgBlockData.parent_burn_block_height :=
       CoreNodeBlockMessage.parent_burn_block_height msg;
     CoreNodeMsgBlockData.parent_burn_block_hash :=
       CoreNodeBlockMessage.parent_burn_block_hash msg;
     CoreNodeMsgBlockData.burn_block_time := CoreNodeBlockMessage.burn_block_time msg;
     CoreNodeMsgBlockData.burn_block_height := CoreNodeBlockMessage.burn_block_height msg;
     CoreNodeMsgBlockData.index_block_hash := CoreNodeBlockMessage.index_block_hash msg;
     CoreNodeMsgBlockData.block_hash := CoreNodeBlockMessage.block_hash msg;
     CoreNodeMsgBlockData.block_height := CoreNodeBlockMessage.block_height msg;
     CoreNodeMsgBlockData.parent_block_hash := CoreNodeBlockMessage.parent_block_hash msg |}.

Definition mkDbBlock (msg : CoreNodeBlockMessage.t) : DbBlock.t :=
  {| DbBlock.canonical := true;
     DbBlock.block_hash := CoreNodeBlockMessage.block_hash msg;
     DbBlock.index_block_hash := CoreNodeBlockMessage.index_block_hash msg;
     DbBlock.parent_index_block_hash := CoreNodeBlockMessage.parent_index_block_hash msg;
     DbBlock.parent_block_hash := CoreNodeBlockMessage.parent_block_hash msg;
     DbBlock.parent_microblock_hash := CoreNodeBlockMessage.parent_microblock msg;
     DbBlock.parent_microblock_sequence := CoreNodeBlockMessage.parent_microblock_sequence msg;
     DbBlock.block_height := CoreNodeBlockMessage.block_height msg;
     DbBlock.burn_block_time := CoreNodeBlockMessage.burn_block_time msg;
     DbBlock.burn_block_hash := CoreNodeBlockMessage.burn_block_hash msg;
     DbBlock.burn_block_height := CoreNodeBlockMessage.burn_block_height msg;
     DbBlock.miner_txid := CoreNodeBlockMessage.miner_txid msg;
     DbBlock.execution_cost_read_count := 0;
     DbBlock.execution_cost_read_length := 0;
     DbBlock.execution_cost_runtime := 0;
     DbBlock.execution_cost_write_count := 0;
     DbBlock.execution_cost_write_length := 0 |}.

(** The body of [for (const minerReward of msg.matured_miner_rewards)]. *)
Definition mkDbMinerReward (msg : CoreNodeBlockMessage.t) (minerReward : MaturedMinerReward.t) :
    Result DbMinerReward.t :=
  coinbase_amount ← BigInt (MaturedMinerReward.coinbase_amount minerReward);
  tx_fees_anchored ← BigInt (MaturedMinerReward.tx_fees_anchored minerReward);
  tx_fees_streamed_confirmed ← BigInt (MaturedMinerReward.tx_fees_streamed_confirmed minerReward);
  tx_fees_streamed_produced ← BigInt (MaturedMinerReward.tx_fees_streamed_produced minerReward);
  Ok {| DbMinerReward.canonical := true;
        DbMinerReward.block_hash := MaturedMinerReward.from_stacks_block_hash minerReward;
        DbMinerReward.index_block_hash := CoreNodeBlockMessage.index_block_hash msg;
        DbMinerReward.from_index_block_hash :=
          MaturedMinerReward.from_index_consensus_hash minerReward;
        DbMinerReward.mature_block_height := CoreNodeBlockMessage.block_height msg;
        DbMinerReward.recipient := MaturedMinerReward.recipient minerReward;
        DbMinerReward.coinbase_amount := coinbase_amount;
        DbMinerReward.tx_fees_anchored := tx_fees_anchored;
        DbMinerReward.tx_fees_streamed_confirmed := tx_fees_streamed_confirmed;
        DbMinerReward.tx_fees_streamed_produced := tx_fees_streamed_produced |}.

(** The callback of [parseMicroblocksFromTxs(...).map]. *)
Definition mkDbMicroblock (msg : CoreNodeBlockMessage.t) (mb : DbMicroblockPartial) :
    DbMicroblock.t :=
  {| DbMicroblock.mb := mb;
     DbMicroblock.canonical := true;
     DbMicroblock.microblock_canonical := true;
     DbMicroblock.block_height := CoreNodeBlockMessage.block_height msg;
     DbMicroblock.parent_block_height := CoreNodeBlockMessage.block_height msg - 1;
     DbMicroblock.parent_block_hash := CoreNodeBlockMessage.parent_block_hash msg;
     DbMicroblock.index_block_hash := CoreNodeBlockMessage.index_block_hash msg;
     DbMicroblock.block_hash := CoreNodeBlockMessage.block_hash msg |}.

Definition handleBlockMessage (chainId : ChainID) (msg : CoreNodeBlockMessage.t) : Task unit :=
  let blockData := blockDataOfMsg msg in
  parsedTxs ← lift (parseTransactions chainId blockData (CoreNodeBlockMessage.events msg)
                      (CoreNodeBlockMessage.transactions msg));
  let dbBlock := mkDbBlock msg in
  dbMinerRewards ← lift (mapResult (mkDbMinerReward msg)
                           (CoreNodeBlockMessage.matured_miner_rewards msg));
  partials ← lift (parseMicroblocksFromTxs
                     (CoreNodeBlockMessage.parent_index_block_hash msg)
                     (CoreNodeBlockMessage.transactions msg)
                     (CoreNodeBlockMessage.parent_burn_block_height msg)
                     (CoreNodeBlockMessage.parent_burn_block_hash msg)
                     (CoreNodeBlockMessage.parent_burn_block_timestamp msg));
  let dbMicroblocks := mkDbMicroblock msg <$> partials in
  txs ← lift (parseDataStoreTxEventData parsedTxs (CoreNodeBlockMessage.events msg)
                {| BlockRef.block_height := CoreNodeBlockMessage.block_height msg;
                   BlockRef.index_block_hash := CoreNodeBlockMessage.index_block_hash msg |}
                chainId);
  let dbData :=
    {| DataStoreBlockUpdateData.block := dbBlock;
       DataStoreBlockUpdateData.microblocks := dbMicroblocks;
       DataStoreBlockUpdateData.minerRewards := dbMinerRewards;
       DataStoreBlockUpdateData.txs := txs |} in
  dbCall (update dbData).

(** [cv.data[key]] of a tuple; anything else raises a TypeError further on. *)
Definition tupleField (cv : ClarityValue) (key : string) : Result ClarityValue :=
  match cv with
  | ClarityValueTuple data =>
      match list_find (λ kv, kv.1 = key) data with
      | Some (_, (_, v)) => Ok v
      | None => Throw (Error "TypeError")
      end
  | _ => Throw (Error "TypeError")
  end.

Definition asciiData (cv : ClarityValue) : Result string :=
  match cv with
  | ClarityValueStringAscii data => Ok data
  | _ => Throw (Error "TypeError")
  end.

Definition bufferHex (cv : ClarityValue) : Result string :=
  match cv with
  | ClarityValueBuffer buffer => Ok buffer
  | _ => Throw (Error "TypeError")
  end.

(** [content.slice(2)] *)
Definition slice2 (content : string) : string :=
  String.substring 2 (String.length content - 2) content.

(** The callback of [msg.map] in [handleNewAttachmentMessage]; [None] is
    the [undefined] that the filter removes. *)
Definition attachmentOf (message : CoreNodeAttachmentMessage.t) :
    Result (option DataStoreAttachmentData.t) :=
  if bool_decide (CoreNodeAttachmentMessage.contract_id message = BnsContractIdentifier_mainnet)
     || bool_decide (CoreNodeAttachmentMessage.contract_id message
                     = BnsContractIdentifier_testnet)
  then
    metadataCV ← decodeClarityValue (CoreNodeAttachmentMessage.metadata message);
    opCV ← tupleField metadataCV "op";
    op ← asciiData opCV;
    nameCV ← tupleField metadataCV "name";
    nameHex ← bufferHex nameCV;
    name ← hexToBuffer nameHex;
    namespaceCV ← tupleField metadataCV "namespace";
    namespaceHex ← bufferHex namespaceCV;
    namespace ← hexToBuffer namespaceHex;
    Ok (Some {| DataStoreAttachmentData.op := op;
                DataStoreAttachmentData.zonefile :=
                  slice2 (CoreNodeAttachmentMessage.content message);
                DataStoreAttachmentData.name := Buffer_toString_utf8 name;
                DataStoreAttachmentData.namespace := Buffer_toString_utf8 namespace;
                DataStoreAttachmentData.zonefileHash :=
                  CoreNodeAttachmentMessage.content_hash message;
                DataStoreAttachmentData.txId := CoreNodeAttachmentMessage.tx_id message;
                DataStoreAttachmentData.indexBlockHash :=
                  CoreNodeAttachmentMessage.index_block_hash message;
                DataStoreAttachmentData.blockHeight :=
                  parseInt (CoreNodeAttachmentMessage.block_height message) |})
  else Ok None.

Definition handleNewAttachmentMessage (msg : list CoreNodeAttachmentMessage.t) : Task unit :=
  attachments ← lift (mapResult attachmentOf msg);
  dbCall (updateAttachments (omap id attachments)).

End Handlers.

(** ** The event server *)

Module EventMessageHandler.
Record t {dataStore : DataStore} := {
  handleRawEventRequest : string → string → Task unit;
  handleBlockMessage : ChainID → CoreNodeBlockMessage.t → Task unit;
  handleMicroblockMessage : ChainID → CoreNodeMicroblockMessage.t → Task unit;
  handleMempoolTxs : list string → Task unit;
  handleBurnBlock : CoreNodeBurnBlockMessage.t → Task unit;
  handleDroppedMempoolTxs : CoreNodeDropMempoolTxMessage.t → Task unit;
  handleNewAttachment : list CoreNodeAttachmentMessage.t → Task unit;
}.
End EventMessageHandler.

Section Server.
Context {externals : Externals} {dataStore : DataStore}.

(** [processorQueue.add(() => task).catch(e => { logError(...); throw e; })]:
    the queue has concurrency 1, so within one request the task simply
    runs; the [catch] logs and throws the same error again. *)
Definition enqueue {A} (task : Task A) : Task A :=
  tryCatch task (λ e, lift (Throw e)).

Definition createMessageProcessorQueue : EventMessageHandler.t :=
  {| EventMessageHandler.handleRawEventRequest := λ eventPath payload,
       enqueue (handleRawEventRequest eventPath payload);
     EventMessageHandler.handleBlockMessage := λ chainId msg,
       enqueue (handleBlockMessage chainId msg);
     EventMessageHandler.handleMicroblockMessage := λ chainId msg,
       enqueue (handleMicroblockMessage chainId msg);
     EventMessageHandler.handleMempoolTxs := λ rawTxs,
       enqueue (handleMempoolTxsMessage rawTxs);
     EventMessageHandler.handleBurnBlock := λ msg,
       enqueue (handleBurnBlockMessage msg);
     EventMessageHandler.handleDroppedMempoolTxs := λ msg,
       enqueue (handleDroppedMempoolTxsMessage msg);
     EventMessageHandler.handleNewAttachment := λ msg,
       enqueue (handleNewAttachmentMessage msg) |}.

(** What a route handler does with the request: it sends a response, or
    calls [next()]; a rejected promise is the [Throw] outcome of the task. *)
Inductive Outcome :=
  | next
  | sent (res : Response.t).

Record Layer := {
  layer_method : Method;
  layer_path : string;
  layer_handle : Request.t → Task Outcome;
}.

Definition okResponse : Response.t :=
  {| Response.status := 200; Response.json := JsObject [("result", JsString "ok")] |}.

Definition errorMessage (error : JsError) : string :=
  match error with
  | Error message => message
  end.

Definition errorResponse (error : JsError) : Response.t :=
  {| Response.status := 500;
     Response.json := JsObject [("error", JsString (errorMessage error))] |}.

(** [app.get('/')] *)
Definition ready (req : Request.t) : Task Outcome :=
  mret (sent {| Response.status := 200;
                Response.json :=
                  JsObject [("status", JsString "ready");
                            ("msg", JsString "API event server listening for core-node POST messages")] |}).

(** The first [app.post('*')]: the raw request is stored, then [next()]. *)
Definition storeRawRequest (messageHandler : EventMessageHandler.t) (req : Request.t) :
    Task Outcome :=
  let eventPath := Request.path req in
  let payload := JSON_stringify (Request.body req) in
  EventMessageHandler.handleRawEventRequest messageHandler eventPath payload;;
  mret next.

(** The [try { ...; res.status(200).json({ result: 'ok' }) } catch (error)
    { ...; res.status(500).json({ error: error }) }] of the typed routes. *)
Definition typedRoute (handler : Task unit) : Task Outcome :=
  tryCatch (handler;; mret (sent okResponse)) (λ error, mret (sent (errorResponse error))).

Definition newBlock (messageHandler : EventMessageHandler.t) (chainId : ChainID)
    (req : Request.t) : Task Outcome :=
  typedRoute (msg ← lift (asCoreNodeBlockMessage (Request.body req));
              EventMessageHandler.handleBlockMessage messageHandler chainId msg).

Definition newBurnBlock (messageHandler : EventMessageHandler.t) (req : Request.t) :
    Task Outcome :=
  typedRoute (msg ← lift (asCoreNodeBurnBlockMessage (Request.body req));
              EventMessageHandler.handleBurnBlock messageHandler msg).

Definition newMempoolTx (messageHandler : EventMessageHandler.t) (req : Request.t) :
    Task Outcome :=
  typedRoute (rawTxs ← lift (asRawTxs (Request.body req));
              EventMessageHandler.handleMempoolTxs messageHandler rawTxs).

Definition dropMempoolTx (messageHandler : EventMessageHandler.t) (req : Request.t) :
    Task Outcome :=
  typedRoute (msg ← lift (asCoreNodeDropMempoolTxMessage (Request.body req));
              EventMessageHandler.handleDroppedMempoolTxs messageHandler msg).

Definition attachmentsNew (messageHandler : EventMessageHandler.t) (req : Request.t) :
    Task Outcome :=
  typedRoute (msg ← lift (asCoreNodeAttachmentMessages (Request.body req));
              EventMessageHandler.handleNewAttachment messageHandler msg).

Definition newMicroblocks (messageHandler : EventMessageHandler.t) (chainId : ChainID)
    (req : Request.t) : Task Outcome :=
  typedRoute (msg ← lift (asCoreNodeMicroblockMessage (Request.body req));
              EventMessageHandler.handleMicroblockMessage messageHandler chainId msg).

(** The last [app.post('*')]: no route handled the path. *)
Definition noRoute (req : Request.t) : Task Outcome :=
  mret (sent {| Response.status := 404;
                Response.json :=
                  JsObject [("error",
                             JsString ("no route handler for " +:+ Request.path req))] |}).

(** The routes that follow the raw-request recorder, in the order they are
    registered. *)
Definition typedRoutes (messageHandler : EventMessageHandler.t) (chainId : ChainID) :
    list Layer :=
  [ {| layer_method := POST; layer_path := "/new_block";
       layer_handle := newBlock messageHandler chainId |};
    {| layer_method := POST; layer_path := "/new_burn_block";
       layer_handle := newBurnBlock messageHandler |};
    {| layer_method := POST; layer_path := "/new_mempool_tx";
       layer_handle := newMempoolTx messageHandler |};
    {| layer_method := POST; layer_path := "/drop_mempool_tx";
       layer_handle := dropMempoolTx messageHandler |};
    {| layer_method := POST; layer_path := "/attachments/new";
       layer_handle := attachmentsNew messageHandler |};
    {| layer_method := POST; layer_path := "/new_microblocks";
       layer_handle := newMicroblocks messageHandler chainId |};
    {| layer_method := POST; layer_path := "*"; layer_handle := noRoute |} ].

(** The routes of the [app] that [startEventServer] builds;
    [opts.messageHandler ?? createMessageProcessorQueue()]. *)
Definition startEventServer (messageHandler : option EventMessageHandler.t)
    (chainId : ChainID) : list Layer :=
  let messageHandler := default createMessageProcessorQueue messageHandler in
  {| layer_method := GET; layer_path := "/"; layer_handle := ready |}
  :: {| layer_method := POST; layer_path := "*";
        layer_handle := storeRawRequest messageHandler |}
  :: typedRoutes messageHandler chainId.

Definition layerMatches (layer : Layer) (req : Request.t) : bool :=
  bool_decide (layer_method layer = Request.method req)
  && (bool_decide (layer_path layer = "*") || routeMatches (layer_path layer) (Request.path req)).

(** Modelled from the spec: how a request travels through the routes is
    the framework's business, and [asyncHandler] is defined in
    [../api/async-handler]; neither is embedded here.  The spec, 4.5:
    the recorder "runs before specific routes", it "must complete before the
    specific handler runs; failures here abort the request with 500", and
    "unknown POST paths" get 404.  So: the layers that match run in the
    order of registration, a handler that calls [next()] hands over to the
    following layer, a response ends the request, and a failed handler
    ends it with status 500. *)
Fixpoint serve (layers : list Layer) (req : Request.t) (w : World) : Response.t * World :=
  match layers with
  | [] => ({| Response.status := 404; Response.json := JsUndefined |}, w)
  | layer :: layers' =>
      if layerMatches layer req then
        match layer_handle layer req w with
        | (Ok next, w') => serve layers' req w'
        | (Ok (sent res), w') => (res, w')
        | (Throw error, w') => (errorResponse error, w')
        end
      else serve layers' req w
  end.

End Server.

(** ** The execution mode *)

Section ApiMode.
Context {externals : Externals}.

(** [process.env] is a map from names to strings. *)
Definition getApiMode (env : gmap string string) : Result StacksApiMode.t :=
  let mode := env !! "STACKS_API_MODE" in
  if decide (mode = Some "readonly") then Ok StacksApiMode.readOnly
  else if decide (mode = Some "writeonly") then Ok StacksApiMode.writeOnly
  else if decide (mode = Some "offline") then Ok StacksApiMode.offline
  else
    readOnlyMode ← parseArgBoolean (env !! "STACKS_READ_ONLY_MODE");
    if readOnlyMode : bool then Ok StacksApiMode.readOnly
    else
      offlineMode ← parseArgBoolean (env !! "STACKS_API_OFFLINE_MODE");
      if offlineMode : bool then Ok StacksApiMode.offline
      else Ok StacksApiMode.default.

End ApiMode.

(** ** Where the event server listens

    The opening of [startEventServer]: the host and the port come from the
    options or, failing that, from the environment. *)

(** A JS [number] as [Number.isInteger] sees it. *)
Inductive Num :=
  | Integer (n : Z)
  | NonInteger.

(** What the opening of [startEventServer] uses of the runtime. *)
Class Runtime := {
  (* parseInt(s, 10); None is NaN *)
  parseInt10 : string → option Z;
  (* new URL(s).hostname; the constructor throws on what is no URL *)
  URL_hostname : string → Result string;
}.

(** The character U+0022. *)
Definition dquote : string := String (Ascii.ascii_of_nat 34) EmptyString.

Definition eventHostMissing : JsError :=
  Error ("STACKS_CORE_EVENT_HOST must be specified, e.g. " +:+ dquote
         +:+ "STACKS_CORE_EVENT_HOST=127.0.0.1" +:+ dquote).

Definition eventPortMissing : JsError :=
  Error ("STACKS_CORE_EVENT_PORT must be specified, e.g. " +:+ dquote
         +:+ "STACKS_CORE_EVENT_PORT=3700" +:+ dquote).

Section EventServerAddress.
Context {runtime : Runtime}.

(** From [let eventHost = ...] to the end of [if (eventHost.startsWith('http:'))]:
    the host and port that [server.listen] is given. *)
Definition eventServerAddress (serverHost : option string) (serverPort : option Num)
    (env : gmap string string) : Result (string * Z) :=
  let eventHost :=
    match serverHost with
    | Some host => Some host
    | None => env !! "STACKS_CORE_EVENT_HOST"
    end in
  let eventPort :=
    match serverPort with
    | Some port => port
    | None =>
        match parseInt10 (default "" (env !! "STACKS_CORE_EVENT_PORT")) with
        | Some n => Integer n
        | None => NonInteger
        end
    end in
  match eventHost with
  | None | Some "" => Throw eventHostMissing
  | Some eventHost =>
      match eventPort with
      | NonInteger => Throw eventPortMissing
      | Integer eventPort =>
          if String.prefix "http:" eventHost then
            hostname ← URL_hostname eventHost;
            Ok (hostname, eventPort)
          else Ok (eventHost, eventPort)
      end
  end.

End EventServerAddress.

(** ** The program entry point

    [init], [initApp] and [handleProgramArgs] of the entry point.  What
    they do to the outside is recorded as a trace of effects; logging is
    left out. *)

(** [StacksApiMode] is a string enum: the value of a mode. *)
Definition StacksApiMode_value (mode : StacksApiMode.t) : string :=
  match mode with
  | StacksApiMode.default => "default"
  | StacksApiMode.readOnly => "readonly"
  | StacksApiMode.writeOnly => "writeonly"
  | StacksApiMode.offline => "offline"
  end.

Global Instance StacksApiMode_eq_dec : EqDecision StacksApiMode.t.
Proof. solve_decision. Defined.

(** The [db] of [init]. *)
Inductive Db :=
  | OfflineDummyStore
  | PgDataStore (usageName : string) (skipMigrations : bool).

(** The command line as [getopts] returns it: the operands ([_]) and the
    options the program reads. *)
Module ParsedOpts.
Record t := {
  operands : list string;
  file : option string;
  overwrite_file : option bool;
  mode : option string;
  wipe_db : option bool;
  force : option bool;
}.
End ParsedOpts.

Module Effect.
Inductive t :=
  | connect (usageName : string) (skipMigrations : bool)
  | listen (host : string) (port : Z)
  | registerShutdownConfig (name : string) (forceKillable : bool)
  | getStacksNodeChainID
  | monitorCoreRpcConnection
  | newTokensProcessorQueue (db : Db) (chainId : ChainID)
  | drainDbQueue
  | startApiServer (db : Db) (chainId : ChainID)
  | startProfilerServer (port : string)
  | createPrometheusServer (port : Z)
  | exportEventsAsTsv (file : option string) (overwriteFile : option bool)
  | importEventsFromTsv (file mode : option string) (wipeDb force : option bool)
  | exit (code : Z).
End Effect.

(** What the entry point imports and calls; [Throw] is a rejected
    promise. *)
Class Platform := {
  (* ./helpers *)
  isProdEnv : bool;
  getApiConfiguredChainID : Result ChainID;
  getStacksNodeChainID : Result ChainID;
  numberToHex : ChainID → string;
  (* fs *)
  existsSync : string → bool;
  (* ./datastore/postgres-store: PgDataStore.connect *)
  PgDataStore_connect : string → bool → Result unit;
  (* what startEventServer does once it has the address: it listens there
     and reads the address of the server back *)
  server_listen : string → Z → Result unit;
  (* ./token-metadata *)
  isFtMetadataEnabled : bool;
  isNftMetadataEnabled : bool;
  drainDbQueue : Result unit;
  (* ./api/init, ./inspector-util, @promster/server *)
  startApiServer : Db → ChainID → Result unit;
  startProfilerServer : string → Result unit;
  createPrometheusServer : Z → Result unit;
  (* ./event-replay/event-replay *)
  exportEventsAsTsv : option string → option bool → Result unit;
  importEventsFromTsv : option string → option string → option bool → option bool →
                        Result unit;
}.

Section EntryPoint.
Context {externals : Externals} {runtime : Runtime} {platform : Platform}.

(** An [async] function of the entry point: it runs from the effects so
    far (oldest first) to an outcome and the effects then. *)
Definition Startup (A : Type) : Type := list Effect.t → Result A * list Effect.t.

Global Instance Startup_ret : MRet Startup := λ A a t, (Ok a, t).
Global Instance Startup_bind : MBind Startup := λ A B f m t,
  match m t with
  | (Ok a, t') => f a t'
  | (Throw e, t') => (Throw e, t')
  end.

(** A computation without effect. *)
Definition pure {A} (r : Result A) : Startup A := λ t, (r, t).

(** An effect, with what it returns or throws. *)
Definition perform {A} (effect : Effect.t) (outcome : Result A) : Startup A := λ t,
  (outcome, t ++ [effect]).


(** [await startEventServer({ datastore: db, chainId })]: the address is
    worked out, then the server listens. *)
Definition awaitStartEventServer (env : gmap string string) : Startup unit :=
  '(host, port) ← pure (eventServerAddress None None env);
  perform (Effect.listen host port) (server_listen host port).

Definition gitInfoMissing : JsError :=
  Error ("File not found: .git-info. This generated file is required to display the running API version in the "
         +:+ "`/extended/v1/status` endpoint. Please execute `npm run build` to regenerate it.").

Definition chainIdMismatch (configuredChainID networkChainId : ChainID) : JsError :=
  Error ("The configured STACKS_CHAIN_ID does not match, configured: "
         +:+ numberToHex configuredChainID +:+ ", stacks-node: "
         +:+ numberToHex networkChainId).

(** The branch [if (apiMode !== StacksApiMode.readOnly)] of [init]. *)
Definition startIngestion (env : gmap string string) (db : Db) : Startup unit :=
  configuredChainID ← pure getApiConfiguredChainID;
  awaitStartEventServer env;;
  perform (Effect.registerShutdownConfig "Event Server" false) (Ok ());;
  networkChainId ← perform Effect.getStacksNodeChainID getStacksNodeChainID;
  if decide (networkChainId ≠ configuredChainID) then
    pure (Throw (chainIdMismatch configuredChainID networkChainId))
  else
    perform Effect.monitorCoreRpcConnection (Ok ());;
    if isFtMetadataEnabled || isNftMetadataEnabled then
      perform (Effect.newTokensProcessorQueue db configuredChainID) (Ok ());;
      perform (Effect.registerShutdownConfig "Token Metadata Processor" true) (Ok ());;
      perform Effect.drainDbQueue drainDbQueue
    else mret ().

(** The branch [else] of [if (apiMode === StacksApiMode.offline)]: the
    store is connected and, outside [readonly] mode, events are taken
    in. *)
Definition connectStore (env : gmap string string) (apiMode : StacksApiMode.t) : Startup Db :=
  let skipMigrations := bool_decide (apiMode = StacksApiMode.readOnly) in
  let usageName := "datastore-" +:+ StacksApiMode_value apiMode in
  perform (Effect.connect usageName skipMigrations)
    (PgDataStore_connect usageName skipMigrations);;
  let db := PgDataStore usageName skipMigrations in
  (if decide (apiMode ≠ StacksApiMode.readOnly) then startIngestion env db
   else mret ());;
  mret db.

Definition init (env : gmap string string) : Startup unit :=
  (if isProdEnv && negb (existsSync ".git-info") then pure (Throw gitInfoMissing)
   else mret ());;
  apiMode ← pure (getApiMode env);
  db ← (if decide (apiMode = StacksApiMode.offline) then mret OfflineDummyStore
        else connectStore env apiMode);
  (if decide (apiMode ≠ StacksApiMode.writeOnly) then
     chainId ← pure getApiConfiguredChainID;
     perform (Effect.startApiServer db chainId) (startApiServer db chainId);;
     perform (Effect.registerShutdownConfig "API Server" true) (Ok ())
   else mret ());;
  (match env !! "STACKS_PROFILER_PORT" with
   | None | Some "" => mret ()
   | Some profilerHttpServerPort =>
       perform (Effect.startProfilerServer profilerHttpServerPort)
         (startProfilerServer profilerHttpServerPort);;
       perform (Effect.registerShutdownConfig "Profiler server" false) (Ok ())
   end);;
  perform (Effect.registerShutdownConfig "DB" false) (Ok ());;
  if isProdEnv then
    perform (Effect.createPrometheusServer 9153) (createPrometheusServer 9153);;
    perform (Effect.registerShutdownConfig "Prometheus" true) (Ok ())
  else mret ().



End EntryPoint.

(** ** The router of BNS names

    The route handlers of [createBnsNamesRouter], as they run once the
    cache handler has passed the request on. *)

(** What a handler reads of the request. *)
Module NamesRequest.
Record t := {
  params_name : string;
  params_zoneFileHash : string;
  (* req.query.page; undefined when the query has no page *)
  query_page : JsValue;
  url : string;
  rest : JsValue;
}.
End NamesRequest.

(** What a handler sends: [res.status(s).json(body)], with the cache
    headers of [setETagCacheHeaders] or without, or [res.redirect]. *)
Inductive Reply :=
  | json (status : Z) (etag : bool) (body : JsValue)
  | redirect (location : string).

(** The rows the handler of [/:name] reads; the interfaces are declared in
    [../datastore/common]. *)
Module DbBnsSubdomain.
Record t := {
  owner : JsValue;
  tx_id : JsValue;
  resolver : JsValue;
  zonefile : JsValue;
  zonefile_hash : JsValue;
}.
End DbBnsSubdomain.

Module DbBnsName.
Record t := {
  address : JsValue;
  expire_block : JsValue;
  grace_period : JsValue;
  tx_id : JsValue;
  resolver : JsValue;
  status : JsValue;
  zonefile : JsValue;
  zonefile_hash : JsValue;
}.
End DbBnsName.

(** What the router imports and the queries of the store it uses; a
    [FoundOrNot] result is an [option]. *)
Class NamesStore := {
  (* ../../query-helpers, ../../../api/pagination *)
  isUnanchoredRequest : NamesRequest.t → Result bool;
  parsePagingQueryInput : JsValue → Result Z;
  (* ../../../event-stream/bns/bns-constants *)
  bnsBlockchain : string;
  BnsErrors_InvalidPageNumber : JsValue;
  (* DataStore *)
  getHistoricalZoneFile : string → string → bool → Result (option JsValue);
  getSubdomainsListInName : string → bool → Result (list JsValue);
  getLatestZoneFile : string → bool → Result (option JsValue);
  getNamesList : Z → bool → Result (list JsValue);
  getSubdomain : string → bool → Result (option DbBnsSubdomain.t);
  getSubdomainResolver : string → Result (option string);
  getName : string → bool → ChainID → Result (option DbBnsName.t);
}.

(** A value in a condition, and [v == null]. *)
Definition truthy (v : JsValue) : bool :=
  match v with
  | JsUndefined | JsNull => false
  | JsBool b => b
  | JsNumber n => negb (n =? 0)%Z
  | JsString s => negb (String.eqb s "")
  | JsArray _ | JsObject _ => true
  end.

Definition nullish (v : JsValue) : bool :=
  match v with
  | JsUndefined | JsNull => true
  | _ => false
  end.

(** [s.split(sep)] for a separator of one character. *)
Fixpoint split (sep : Ascii.ascii) (s : string) : list string :=
  match s with
  | EmptyString => [EmptyString]
  | String c s' =>
      if Ascii.eqb c sep then EmptyString :: split sep s'
      else
        match split sep s' with
        | part :: parts => String c part :: parts
        | [] => [String c EmptyString]
        end
  end.

(** The character U+002E. *)
Definition dot : Ascii.ascii := Ascii.ascii_of_nat 46.

(** [res.status(404).json({ error })] *)
Definition notFound (error : string) : Reply :=
  json 404 false (JsObject [("error", JsString error)]).

Section NamesRouter.
Context {namesStore : NamesStore}.

(** [GET /:name/zonefile/:zoneFileHash] *)
Definition getZonefileByHash (req : NamesRequest.t) : Result Reply :=
  let name := NamesRequest.params_name req in
  let zoneFileHash := NamesRequest.params_zoneFileHash req in
  includeUnanchored ← isUnanchoredRequest req;
  zonefile ← getHistoricalZoneFile name zoneFileHash includeUnanchored;
  match zonefile with
  | Some result => Ok (json 200 true result)
  | None => Ok (notFound "No such name or zonefile")
  end.

(** [GET /:name/subdomains] *)
Definition getSubdomains (req : NamesRequest.t) : Result Reply :=
  let name := NamesRequest.params_name req in
  includeUnanchored ← isUnanchoredRequest req;
  results ← getSubdomainsListInName name includeUnanchored;
  Ok (json 200 true (JsArray results)).

(** [GET /:name/zonefile] *)
Definition getZonefile (req : NamesRequest.t) : Result Reply :=
  let name := NamesRequest.params_name req in
  includeUnanchored ← isUnanchoredRequest req;
  zonefile ← getLatestZoneFile name includeUnanchored;
  match zonefile with
  | Some result => Ok (json 200 true result)
  | None => Ok (notFound "No such name or zonefile does not exist")
  end.

(** [GET /] *)
Definition getNames (req : NamesRequest.t) : Result Reply :=
  page ← parsePagingQueryInput
           (if nullish (NamesRequest.query_page req) then JsNumber 0
            else NamesRequest.query_page req);
  includeUnanchored ← isUnanchoredRequest req;
  results ← getNamesList page includeUnanchored;
  if (length results =? 0) && truthy (NamesRequest.query_page req)
  then Ok (json 400 false BnsErrors_InvalidPageNumber)
  else Ok (json 200 true (JsArray results)).

(** The two [nameInfoResponse] literals of [GET /:name]. *)
Definition subdomainInfo (result : DbBnsSubdomain.t) : list (string * JsValue) :=
  [ ("address", DbBnsSubdomain.owner result);
    ("blockchain", JsString bnsBlockchain);
    ("last_txid", DbBnsSubdomain.tx_id result);
    ("resolver", DbBnsSubdomain.resolver result);
    ("status", JsString "registered_subdomain");
    ("zonefile", DbBnsSubdomain.zonefile result);
    ("zonefile_hash", DbBnsSubdomain.zonefile_hash result) ].

Definition nameInfo (result : DbBnsName.t) : list (string * JsValue) :=
  [ ("address", DbBnsName.address result);
    ("blockchain", JsString bnsBlockchain);
    ("expire_block", DbBnsName.expire_block result);
    ("grace_period", DbBnsName.grace_period result);
    ("last_txid",
     if truthy (DbBnsName.tx_id result) then DbBnsName.tx_id result else JsString "");
    ("resolver", DbBnsName.resolver result);
    ("status",
     if truthy (DbBnsName.status result) then DbBnsName.status result else JsString "");
    ("zonefile", DbBnsName.zonefile result);
    ("zonefile_hash", DbBnsName.zonefile_hash result) ].

(** [GET /:name], up to the end of the [if]: a reply sent before a
    [return], or the [nameInfoResponse]. *)
Definition lookUpName (chainId : ChainID) (req : NamesRequest.t) (includeUnanchored : bool) :
    Result (Reply + list (string * JsValue)) :=
  let name := NamesRequest.params_name req in
  if length (split dot name) =? 3 then
    subdomainQuery ← getSubdomain name includeUnanchored;
    match subdomainQuery with
    | None =>
        let namePart := String.concat "." (tail (split dot name)) in
        resolverResult ← getSubdomainResolver namePart;
        match resolverResult with
        | Some result =>
            if String.eqb result "" then
              Ok (inl (notFound "missing resolver from a malformed zonefile"))
            else Ok (inl (redirect (result +:+ "/v1/names" +:+ NamesRequest.url req)))
        | None => Ok (inl (notFound ("cannot find subdomain " +:+ name)))
        end
    | Some result => Ok (inr (subdomainInfo result))
    end
  else
    nameQuery ← getName name includeUnanchored chainId;
    match nameQuery with
    | None => Ok (inl (notFound ("cannot find name " +:+ name)))
    | Some result => Ok (inr (nameInfo result))
    end.

(** [GET /:name] *)
Definition getNameInfo (chainId : ChainID) (req : NamesRequest.t) : Result Reply :=
  includeUnanchored ← isUnanchoredRequest req;
  found ← lookUpName chainId req includeUnanchored;
  match found with
  | inl reply => Ok reply
  | inr nameInfoResponse =>
      let response := filter (λ entry, nullish entry.2 = false) nameInfoResponse in
      Ok (json 200 true (JsObject response))
  end.

End NamesRouter.

(** ** The results of the parser, read back *)

(** A task that only ever adds calls at the end of the record of calls. *)
Definition appends {dataStore : DataStore} {A} (m : Task A) : Prop :=
  ∀ w, ∃ new, calls (m w).2 = calls w ++ new.


(** The events of an entry of the result, in the order of the merge. *)
Definition mergedEvents (d : DataStoreTxEventData.t) : list DbEvent.t :=
  concat [DataStoreTxEventData.contractLogEvents d; DataStoreTxEventData.ftEvents d;
          DataStoreTxEventData.nftEvents d; DataStoreTxEventData.stxEvents d;
          DataStoreTxEventData.stxLockEvents d].

(** The [tx_id]s of the transactions of a bundle, in order. *)
Definition txIds (txs : list DataStoreTxEventData.t) : list string :=
  (λ d, DbTx.tx_id (DataStoreTxEventData.tx d)) <$> txs.

Definition entryIds (dbData : list TxEntry.t) : list string :=
  (λ e, DbTx.tx_id (TxEntry.tx e)) <$> dbData.

(** The position of the transaction that events with a given [txid] go to:
    the first one of the bundle with that [tx_id]. *)
Definition ownerOfTxid (ids : list string) (txid : string) : option nat :=
  fst <$> list_find (λ id, id = txid) ids.

Definition ownerOf (ids : list string) (event : CoreNodeEvent.t) : option nat :=
  ownerOfTxid ids (CoreNodeEvent.txid event).

(** The committed events of the message, and among them those of the
    transaction at position [k]. *)
Definition committedEvents (events : list CoreNodeEvent.t) : list CoreNodeEvent.t :=
  filter (λ event, CoreNodeEvent.committed event = true) events.

Definition committedEventsOf (ids : list string) (k : nat) (events : list CoreNodeEvent.t) :
    list CoreNodeEvent.t :=
  filter (λ event, ownerOf ids event = Some k) (committedEvents events).

(** [b] is [a] with another [event_index], and nothing else changed. *)
Definition renumbered (a b : DbEvent.t) : Prop :=
  b = DbEvent.set_event_index (DbEvent.event_index b) a.

(** The record that the scatter loop builds for an event of a transaction
    with the given [tx_index]; its [event_index] is the event's. *)
Definition recordOf {externals : Externals} (blockData : BlockRef.t) (tx_index : Z)
    (event : CoreNodeEvent.t) (entry : DbEvent.t) : Prop :=
  ∃ b, dispatch (mkDbEventBase blockData tx_index event) event = Ok (b, entry).

(** The positions of the elements of a list that satisfy [P], ascending. *)
Definition indicesWhere {A} (P : A → Prop) `{!∀ x, Decision (P x)} (l : list A) : list nat :=
  fst <$> filter (λ ix, P ix.2) (imap pair l).

(** What holds of the parser's state once the events [seen] have been
    processed, starting from the entries [dbData0] and an empty heap: the
    transactions and smart contracts of the entries are untouched, the heap
    holds the records of the committed events in the order of arrival, the
    references of an entry are those of the records of its transaction, and
    every reference is held exactly once. *)
Record ScatterInv {externals : Externals} (blockData : BlockRef.t) (dbData0 : list TxEntry.t)
    (seen : list CoreNodeEvent.t) (st : ParseState.t) : Prop := {
  inv_txs : TxEntry.tx <$> ParseState.dbData st = TxEntry.tx <$> dbData0;
  inv_smartContracts :
    TxEntry.smartContracts <$> ParseState.dbData st = TxEntry.smartContracts <$> dbData0;
  inv_heap :
    Forall2
      (λ event entry,
         ∃ k dbTx,
           ownerOf (entryIds dbData0) event = Some k
           ∧ dbData0 !! k = Some dbTx
           ∧ recordOf blockData (DbTx.tx_index (TxEntry.tx dbTx)) event entry)
      (committedEvents seen) (ParseState.heap st);
  inv_refs :
    ∀ k e,
      ParseState.dbData st !! k = Some e →
      flatEvents e
        ≡ₚ indicesWhere (λ ev, ownerOfTxid (entryIds dbData0) (DbEvent.tx_id ev) = Some k)
             (ParseState.heap st);
  inv_all :
    concat (flatEvents <$> ParseState.dbData st) ≡ₚ seq 0 (length (ParseState.heap st));
}.

(** A change of an entry that leaves its transaction, smart contracts and
    event arrays alone. *)
Definition keepsEvents (f : TxEntry.t → TxEntry.t) : Prop :=
  ∀ e, TxEntry.tx (f e) = TxEntry.tx e
       ∧ TxEntry.smartContracts (f e) = TxEntry.smartContracts e
       ∧ flatEvents (f e) = flatEvents e.

(** An entry after its iteration of the normalization loop: only
    [tx.event_count] has changed. *)
Definition counted (e : TxEntry.t) : TxEntry.t :=
  TxEntry.set_tx (DbTx.set_event_count (Z.of_nat (length (flatEvents e))) (TxEntry.tx e)) e.

(** The [canonical] flags of the records of a store call that the handlers
    build: the block, the microblocks completed with the anchor block's
    fields, miner rewards, burnchain rewards, slot holders, and the smart
    contracts and events of every transaction.  The microblock records of
    [updateMicroblocks] are the reader's partial records. *)
Definition txCanonicalFlags (d : DataStoreTxEventData.t) : list bool :=
  (DbSmartContract.canonical <$> DataStoreTxEventData.smartContracts d)
  ++ (DbEvent.canonical <$> mergedEvents d).

Definition canonicalFlags (c : StoreCall) : list bool :=
  match c with
  | update data =>
      DbBlock.canonical (DataStoreBlockUpdateData.block data)
      :: (DbMicroblock.canonical <$> DataStoreBlockUpdateData.microblocks data)
      ++ (DbMicroblock.microblock_canonical <$> DataStoreBlockUpdateData.microblocks data)
      ++ (DbMinerReward.canonical <$> DataStoreBlockUpdateData.minerRewards data)
      ++ concat (txCanonicalFlags <$> DataStoreBlockUpdateData.txs data)
  | updateMicroblocks data =>
      concat (txCanonicalFlags <$> DataStoreMicroblockUpdateData.txs data)
  | updateBurnchainRewards _ _ rewards => DbBurnchainReward.canonical <$> rewards
  | updateBurnchainRewardSlotHolders _ _ slotHolders =>
      DbRewardSlotHolder.canonical <$> slotHolders
  | _ => []
  end.

(** ** The event arrays, one by one *)

(** The array that the [switch] of the scatter loop pushes a record of a
    given [event_type] to. *)
Definition bucketOf (ev : DbEvent.t) : Bucket :=
  match DbEvent.detail ev with
  | SmartContractLog _ _ _ => contractLogEvents
  | StxLock _ _ _ => stxLockEvents
  | StxAsset _ _ _ _ => stxEvents
  | FungibleTokenAsset _ _ _ _ _ => ftEvents
  | NonFungibleTokenAsset _ _ _ _ _ => nftEvents
  end.

(** The array [b] of an entry, during the loops and in the result. *)
Definition refsOf (b : Bucket) (e : TxEntry.t) : list Ref :=
  match b with
  | contractLogEvents => TxEntry.contractLogEvents e
  | ftEvents => TxEntry.ftEvents e
  | nftEvents => TxEntry.nftEvents e
  | stxEvents => TxEntry.stxEvents e
  | stxLockEvents => TxEntry.stxLockEvents e
  end.

Definition eventsOf (b : Bucket) (d : DataStoreTxEventData.t) : list DbEvent.t :=
  match b with
  | contractLogEvents => DataStoreTxEventData.contractLogEvents d
  | ftEvents => DataStoreTxEventData.ftEvents d
  | nftEvents => DataStoreTxEventData.nftEvents d
  | stxEvents => DataStoreTxEventData.stxEvents d
  | stxLockEvents => DataStoreTxEventData.stxLockEvents d
  end.

(** The arrays in the order in which the normalization loop merges them. *)
Definition mergeOrder : list Bucket :=
  [contractLogEvents; ftEvents; nftEvents; stxEvents; stxLockEvents].

(** The records of a transaction as the merge lays them out: array by
    array, each in the order of the records given. *)
Definition mergedBy (built : list DbEvent.t) : list DbEvent.t :=
  concat ((λ b, filter (λ ev, bucketOf ev = b) built) <$> mergeOrder).

(** The order a stable sort by [key] puts the elements of [l] in: by key,
    and among equal keys by position in [l]. *)
Definition stableLe {A} (key : A → Z) (l : list A) (a b : A) : Prop :=
  (key a < key b)%Z
  ∨ (key a = key b ∧ ∃ p q, p < q ∧ l !! p = Some a ∧ l !! q = Some b).

(** What holds of the arrays of the parser's state besides [ScatterInv]:
    array [b] of the entry at position [k] holds, in ascending order, the
    references of the records of kind [b] whose [tx_id] resolves to [k]. *)
Definition BucketInv (dbData0 : list TxEntry.t) (st : ParseState.t) : Prop :=
  ∀ k e b,
    ParseState.dbData st !! k = Some e →
    refsOf b e
    = indicesWhere
        (λ ev, ownerOfTxid (entryIds dbData0) (DbEvent.tx_id ev) = Some k ∧ bucketOf ev = b)
        (ParseState.heap st).

(** A change of an entry that leaves its transaction, smart contracts and
    every single event array alone. *)
Definition keepsBuckets (f : TxEntry.t → TxEntry.t) : Prop :=
  ∀ e, TxEntry.tx (f e) = TxEntry.tx e ∧ ∀ b, refsOf b (f e) = refsOf b e.

(** ** The handlers, read back *)

(** The test of [handleNewAttachmentMessage]: the attachment belongs to
    the BNS contract of one of the two networks. *)
Definition isBnsAttachment {externals : Externals} (message : CoreNodeAttachmentMessage.t) :
    Prop :=
  CoreNodeAttachmentMessage.contract_id message = BnsContractIdentifier_mainnet
  ∨ CoreNodeAttachmentMessage.contract_id message = BnsContractIdentifier_testnet.

Global Instance isBnsAttachment_dec {externals : Externals}
    (message : CoreNodeAttachmentMessage.t) : Decision (isBnsAttachment message).
Proof. unfold isBnsAttachment. apply _. Defined.

(** A task that either throws in the world it started from, or is one call
    to the store, whose outcome is its own. *)
Definition storesOnceOrNever {dataStore : DataStore} (m : Task unit) : Prop :=
  ∀ w, (∃ e, m w = (Throw e, w)) ∨ (∃ c, m w = dbCall c w).

(** ** The start of the program, read back *)

(** The names given to [registerShutdownConfig], in the order of the
    calls. *)
Definition registered (trace : list Effect.t) : list string :=
  omap (λ effect,
          match effect with
          | Effect.registerShutdownConfig name _ => Some name
          | _ => None
          end)
    trace.


(** The store that [init] works with in a mode. *)
Definition storeOf (mode : StacksApiMode.t) : Db :=
  if decide (mode = StacksApiMode.offline) then OfflineDummyStore
  else PgDataStore ("datastore-" +:+ StacksApiMode_value mode)
         (bool_decide (mode = StacksApiMode.readOnly)).

(** The modes in which events are taken in. *)
Definition ingests (mode : StacksApiMode.t) : Prop :=
  mode = StacksApiMode.default ∨ mode = StacksApiMode.writeOnly.

(** A computation all of whose effects satisfy [P]. *)
Definition emitsOnly {A} (P : Effect.t → Prop) (m : Startup A) : Prop :=
  ∀ t, ∃ new, (m t).2 = t ++ new ∧ Forall P new.

(** No condition on an effect. *)
Definition anything (effect : Effect.t) : Prop := True.

(** The effects that come before the API server is started and the
    shutdown of the store is registered. *)
Definition beforeApi (effect : Effect.t) : Prop :=
  match effect with
  | Effect.startApiServer _ _ => False
  | Effect.registerShutdownConfig name _ => name ≠ "DB"
  | _ => True
  end.

(** A computation that, when it succeeds, has had an effect that satisfies
    [Q]. *)
Definition eventually {A} (Q : Effect.t → Prop) (m : Startup A) : Prop :=
  ∀ t a t', m t = (Ok a, t') → ∃ effect, Q effect ∧ effect ∈ t'.

(** A computation that registers shutdown entries with names among
    [names] only, and in the order of [names]. *)
Definition registersWithin {A} (names : list string) (m : Startup A) : Prop :=
  ∀ t, ∃ new, (m t).2 = t ++ new ∧ sublist (registered new) names.

(** What the mode of the environment allows a run of [init] to do: to
    listen for the node when events are taken in; to connect to Postgres
    outside [offline] mode, under the name of the mode and without
    migrations exactly in [readonly] mode; to start the API server outside
    [writeonly] mode, on the store of the mode. *)
Definition allowed {externals : Externals} {platform : Platform} (env : gmap string string)
    (effect : Effect.t) : Prop :=
  match effect with
  | Effect.listen _ _ => ∃ mode, getApiMode env = Ok mode ∧ ingests mode
  | Effect.connect usageName skipMigrations =>
      ∃ mode,
        getApiMode env = Ok mode
        ∧ mode ≠ StacksApiMode.offline
        ∧ usageName = "datastore-" +:+ StacksApiMode_value mode
        ∧ skipMigrations = bool_decide (mode = StacksApiMode.readOnly)
  | Effect.startApiServer db chainId =>
      ∃ mode,
        getApiMode env = Ok mode
        ∧ mode ≠ StacksApiMode.writeOnly
        ∧ db = storeOf mode
        ∧ getApiConfiguredChainID = Ok chainId
  | _ => True
  end.

(** ** A small instance

    Concrete stand-ins for the imported functions and for the store, on which
    the functions above can be run. *)

Module Sample.

Definition mkParsedTx (coreTx : CoreNodeTxMessage.t) (rawTx : DecodedTxResult.t) :
    CoreNodeParsedTxMessage.t :=
  {| CoreNodeParsedTxMessage.core_tx := coreTx;
     CoreNodeParsedTxMessage.parsed_tx := rawTx;
     CoreNodeParsedTxMessage.sender_address := "SP000";
     CoreNodeParsedTxMessage.microblock_hash := CoreNodeTxMessage.microblock_hash coreTx;
     CoreNodeParsedTxMessage.rest := JsUndefined |}.

Definition emptyBlockMessage : CoreNodeBlockMessage.t :=
  {| CoreNodeBlockMessage.block_hash := "0xb1";
     CoreNodeBlockMessage.index_block_hash := "0x1b";
     CoreNodeBlockMessage.parent_index_block_hash := "0x1a";
     CoreNodeBlockMessage.parent_block_hash := "0xb0";
     CoreNodeBlockMessage.parent_microblock := "0x00";
     CoreNodeBlockMessage.parent_microblock_sequence := 0;
     CoreNodeBlockMessage.block_height := 1;
     CoreNodeBlockMessage.burn_block_time := 1000;
     CoreNodeBlockMessage.burn_block_hash := "0xbb";
     CoreNodeBlockMessage.burn_block_height := 10;
     CoreNodeBlockMessage.miner_txid := "0xaa";
     CoreNodeBlockMessage.parent_burn_block_hash := "0xba";
     CoreNodeBlockMessage.parent_burn_block_height := 9;
     CoreNodeBlockMessage.parent_burn_block_timestamp := 900;
     CoreNodeBlockMessage.events := [];
     CoreNodeBlockMessage.transactions := [];
     CoreNodeBlockMessage.matured_miner_rewards := [] |}.

Global Instance externals : Externals :=
  {| hexToBuffer := λ s, if decide (s = "") then Throw (Error "not a hex string")
                         else Ok (String.list_byte_of_string s);
     parseArgBoolean := λ v,
       match v with
       | None => Ok false
       | Some s => if decide (s = "1") then Ok true
                   else if decide (s = "0") then Ok false
                   else Throw (Error "not a boolean")
       end;
     createDbTxFromCoreMsg := λ tx,
       Ok {| DbTx.tx_id := CoreNodeTxMessage.txid (CoreNodeParsedTxMessage.core_tx tx);
             DbTx.tx_index := 0;
             DbTx.event_count := 0;
             DbTx.rest := JsUndefined |};
     parseNameRenewalWithNoZonefileHashFromContractCall := λ _ _, Ok None;
     parseNameFromContractEvent := λ _ _ _ _ _, Ok None;
     parseNamespaceFromContractEvent := λ _ _ _, Ok None;
     BigInt := λ s, Ok (Z.of_nat (String.length s));
     Number := λ s, Z.of_nat (String.length s);
     JSON_stringify := λ v,
       match v with
       | JsString s => s
       | _ => "{}"
       end;
     inspect := CoreNodeEvent.txid;
     parseInt := λ s, Z.of_nat (String.length s);
     Buffer_toString_utf8 := String.string_of_list_byte;
     createDbMempoolTxFromCoreMsg := λ a, Ok (JsString (MempoolTxArgs.txId a));
     getTxDbStatus := λ reason, Ok (JsString reason);
     getTxSenderAddress := λ _, Ok "SP000";
     getTxSponsorAddress := λ _, Ok None;
     parseMicroblocksFromTxs := λ _ txs _ _ _,
       Ok ((λ tx, JsString (CoreNodeTxMessage.microblock_hash tx)) <$> txs);
     readMessageTransaction := λ _ coreTx rawTx _ _, Ok (Some (mkParsedTx coreTx rawTx));
     decodeTransaction := λ buffer,
       match buffer with
       | [] | [_] | [_; _] => Throw (Error "truncated transaction")
       | _ => Ok {| DecodedTxResult.tx_id := String.string_of_list_byte buffer;
                    DecodedTxResult.payload := Coinbase JsNull;
                    DecodedTxResult.rest := JsUndefined |}
       end;
     decodeClarityValue := λ s, Ok (ClarityValueStringAscii s);
     BnsContractIdentifier_mainnet := "SP000000000000000000002Q6VF78.bns";
     BnsContractIdentifier_testnet := "ST000000000000000000002AMW42H.bns";
     asCoreNodeBlockMessage := λ _, Ok emptyBlockMessage;
     asCoreNodeBurnBlockMessage := λ _, Throw (Error "TypeError");
     asRawTxs := λ _, Throw (Error "TypeError");
     asCoreNodeDropMempoolTxMessage := λ _, Throw (Error "TypeError");
     asCoreNodeAttachmentMessages := λ _, Throw (Error "TypeError");
     asCoreNodeMicroblockMessage := λ _, Throw (Error "TypeError");
     routeMatches := λ route path, bool_decide (route = path) |}.

(** A store that keeps the calls it accepted and refuses a raw request
    with an empty path. *)
Global Instance store : DataStore :=
  {| DbState := list StoreCall;
     dbRun := λ c s,
       match c with
       | storeRawEventRequest "" _ => (Some (Error "store unavailable"), s)
       | _ => (None, s ++ [c])
       end |}.

Definition world0 : World := {| db := []; calls := []; clock := 1700000000499 |}.

Definition coreTx (txid raw_tx : string) : CoreNodeTxMessage.t :=
  {| CoreNodeTxMessage.txid := txid;
     CoreNodeTxMessage.raw_tx := raw_tx;
     CoreNodeTxMessage.contract_abi := JsNull;
     CoreNodeTxMessage.microblock_hash := "";
     CoreNodeTxMessage.rest := JsUndefined |}.

Definition parsedTx (txid : string) : CoreNodeParsedTxMessage.t :=
  mkParsedTx (coreTx txid "0x00")
    {| DecodedTxResult.tx_id := txid;
       DecodedTxResult.payload := Coinbase JsNull;
       DecodedTxResult.rest := JsUndefined |}.

Definition stxTransfer (txid : string) (event_index : Z) (committed : bool) :
    CoreNodeEvent.t :=
  {| CoreNodeEvent.txid := txid;
     CoreNodeEvent.event_index := event_index;
     CoreNodeEvent.committed := committed;
     CoreNodeEvent.type :=
       StxTransferEvent
         {| StxTransferEvent.sender := "SP1"; StxTransferEvent.recipient := "SP2";
            StxTransferEvent.amount := "10" |} |}.

Definition contractLog (txid : string) (event_index : Z) (committed : bool) :
    CoreNodeEvent.t :=
  {| CoreNodeEvent.txid := txid;
     CoreNodeEvent.event_index := event_index;
     CoreNodeEvent.committed := committed;
     CoreNodeEvent.type :=
       ContractEvent
         {| ContractEvent.contract_identifier := "SP1.c"; ContractEvent.topic := "print";
            ContractEvent.raw_value := "0x03" |} |}.

Definition blockRef : BlockRef.t :=
  {| BlockRef.block_height := 7; BlockRef.index_block_hash := "0x1b" |}.

(** Scenario 2 of the spec: transactions T1 and T2 and four events with the
    block-relative indexes 3 (T2), 0 (T1), 2 (T2), 1 (T1); an uncommitted
    event of T1 is added. *)
Definition scenarioTxs : list CoreNodeParsedTxMessage.t := [parsedTx "T1"; parsedTx "T2"].

Definition scenarioEvents : list CoreNodeEvent.t :=
  [contractLog "T2" 3 true; stxTransfer "T1" 0 true; stxTransfer "T1" 9 false;
   stxTransfer "T2" 2 true; contractLog "T1" 1 true].

Definition burnBlockMessage : CoreNodeBurnBlockMessage.t :=
  {| CoreNodeBurnBlockMessage.burn_block_hash := "0xbb";
     CoreNodeBurnBlockMessage.burn_block_height := 10;
     CoreNodeBurnBlockMessage.burn_amount := 500;
     CoreNodeBurnBlockMessage.reward_recipients :=
       [ {| RewardRecipient.recipient := "A"; RewardRecipient.amt := 1 |};
         {| RewardRecipient.recipient := "B"; RewardRecipient.amt := 2 |} ];
     CoreNodeBurnBlockMessage.reward_slot_holders := ["H0"; "H1"; "H2"] |}.

Definition microblockMessage (transactions : list CoreNodeTxMessage.t) :
    CoreNodeMicroblockMessage.t :=
  {| CoreNodeMicroblockMessage.parent_index_block_hash := "0x1a";
     CoreNodeMicroblockMessage.burn_block_hash := "0xbb";
     CoreNodeMicroblockMessage.burn_block_height := 10;
     CoreNodeMicroblockMessage.burn_block_timestamp := 1000;
     CoreNodeMicroblockMessage.events := [];
     CoreNodeMicroblockMessage.transactions := transactions |}.

Definition blockMessage (transactions : list CoreNodeTxMessage.t) : CoreNodeBlockMessage.t :=
  {| CoreNodeBlockMessage.block_hash := "0xb1";
     CoreNodeBlockMessage.index_block_hash := "0x1b";
     CoreNodeBlockMessage.parent_index_block_hash := "0x1a";
     CoreNodeBlockMessage.parent_block_hash := "0xb0";
     CoreNodeBlockMessage.parent_microblock := "0x00";
     CoreNodeBlockMessage.parent_microblock_sequence := 0;
     CoreNodeBlockMessage.block_height := 1;
     CoreNodeBlockMessage.burn_block_time := 1000;
     CoreNodeBlockMessage.burn_block_hash := "0xbb";
     CoreNodeBlockMessage.burn_block_height := 10;
     CoreNodeBlockMessage.miner_txid := "0xaa";
     CoreNodeBlockMessage.parent_burn_block_hash := "0xba";
     CoreNodeBlockMessage.parent_burn_block_height := 9;
     CoreNodeBlockMessage.parent_burn_block_timestamp := 900;
     CoreNodeBlockMessage.events := [];
     CoreNodeBlockMessage.transactions := transactions;
     CoreNodeBlockMessage.matured_miner_rewards := [] |}.

Definition scenarioResult : list DataStoreTxEventData.t :=
  Eval vm_compute in
    match parseDataStoreTxEventData scenarioTxs scenarioEvents blockRef 1%Z with
    | Ok out => out
    | Throw _ => []
    end.

End Sample.

(** ** A small instance of the runtime and the platform *)

Module SampleEntry.

(** The value of the leading decimal digits of a string, if it has one. *)
Fixpoint leadingDigits (s : string) (acc : option Z) : option Z :=
  match s with
  | EmptyString => acc
  | String c s' =>
      let n := Ascii.nat_of_ascii c in
      if (48 <=? n) && (n <=? 57)
      then leadingDigits s' (Some (10 * default 0%Z acc + Z.of_nat (n - 48))%Z)
      else acc
  end.

(** The characters of a string up to the first [:] or [/]. *)
Fixpoint untilSeparator (s : string) : string :=
  match s with
  | EmptyString => EmptyString
  | String c s' =>
      let n := Ascii.nat_of_ascii c in
      if (n =? 58) || (n =? 47) then EmptyString
      else String c (untilSeparator s')
  end.

Global Instance runtime : Runtime :=
  {| parseInt10 := λ s, leadingDigits s None;
     URL_hostname := λ s,
       if String.prefix "http://" s
       then Ok (untilSeparator (String.substring 7 (String.length s - 7) s))
       else Throw (Error "Invalid URL") |}.

(** A platform on which every call succeeds; the node reports the chain id
    [networkChainId]. *)
Definition platformOf (production : bool) (networkChainId : ChainID) : Platform :=
  {| isProdEnv := production;
     getApiConfiguredChainID := Ok 1%Z;
     getStacksNodeChainID := Ok networkChainId;
     numberToHex := λ n, if decide (n = 1%Z) then "0x1" else "0x?";
     existsSync := λ _, true;
     PgDataStore_connect := λ _ _, Ok ();
     server_listen := λ _ _, Ok ();
     isFtMetadataEnabled := false;
     isNftMetadataEnabled := false;
     drainDbQueue := Ok ();
     startApiServer := λ _ _, Ok ();
     startProfilerServer := λ _, Ok ();
     createPrometheusServer := λ _, Ok ();
     exportEventsAsTsv := λ _ _, Ok ();
     importEventsFromTsv := λ _ _ _ _, Ok () |}.

Definition env (mode : string) : gmap string string :=
  {[ "STACKS_API_MODE" := mode;
     "STACKS_CORE_EVENT_HOST" := "http://127.0.0.1:3700/";
     "STACKS_CORE_EVENT_PORT" := "3700" ]}.


End SampleEntry.

(** ** More of the small instance *)

Module SampleMore.

(** [BigInt] of a string of decimal digits; anything else is refused. *)
Fixpoint decimal (s : string) (acc : Z) : Result Z :=
  match s with
  | EmptyString => Ok acc
  | String c s' =>
      let n := Ascii.nat_of_ascii c in
      if (48 <=? n) && (n <=? 57) then decimal s' (10 * acc + Z.of_nat (n - 48))%Z
      else Throw (Error "SyntaxError: Cannot convert to a BigInt")
  end.

(** The imported functions of [Sample.externals], with a [BigInt] that can
    throw. *)
Definition strict : Externals :=
  {| hexToBuffer := @hexToBuffer Sample.externals;
     parseArgBoolean := @parseArgBoolean Sample.externals;
     createDbTxFromCoreMsg := @createDbTxFromCoreMsg Sample.externals;
     parseNameRenewalWithNoZonefileHashFromContractCall :=
       @parseNameRenewalWithNoZonefileHashFromContractCall Sample.externals;
     parseNameFromContractEvent := @parseNameFromContractEvent Sample.externals;
     parseNamespaceFromContractEvent := @parseNamespaceFromContractEvent Sample.externals;
     BigInt := λ s, decimal s 0;
     Number := @Number Sample.externals;
     JSON_stringify := @JSON_stringify Sample.externals;
     inspect := @inspect Sample.externals;
     parseInt := @parseInt Sample.externals;
     Buffer_toString_utf8 := @Buffer_toString_utf8 Sample.externals;
     createDbMempoolTxFromCoreMsg := @createDbMempoolTxFromCoreMsg Sample.externals;
     getTxDbStatus := @getTxDbStatus Sample.externals;
     getTxSenderAddress := @getTxSenderAddress Sample.externals;
     getTxSponsorAddress := @getTxSponsorAddress Sample.externals;
     parseMicroblocksFromTxs := @parseMicroblocksFromTxs Sample.externals;
     readMessageTransaction := @readMessageTransaction Sample.externals;
     decodeTransaction := @decodeTransaction Sample.externals;
     decodeClarityValue := @decodeClarityValue Sample.externals;
     BnsContractIdentifier_mainnet := @BnsContractIdentifier_mainnet Sample.externals;
     BnsContractIdentifier_testnet := @BnsContractIdentifier_testnet Sample.externals;
     asCoreNodeBlockMessage := @asCoreNodeBlockMessage Sample.externals;
     asCoreNodeBurnBlockMessage := @asCoreNodeBurnBlockMessage Sample.externals;
     asRawTxs := @asRawTxs Sample.externals;
     asCoreNodeDropMempoolTxMessage := @asCoreNodeDropMempoolTxMessage Sample.externals;
     asCoreNodeAttachmentMessages := @asCoreNodeAttachmentMessages Sample.externals;
     asCoreNodeMicroblockMessage := @asCoreNodeMicroblockMessage Sample.externals;
     routeMatches := @routeMatches Sample.externals |}.

(** A transaction that deploys the contract [counter]. *)
Definition deployTx : CoreNodeParsedTxMessage.t :=
  Sample.mkParsedTx (Sample.coreTx "T3" "0x00")
    {| DecodedTxResult.tx_id := "T3";
       DecodedTxResult.payload := SmartContract "counter" "(define-data-var n int 0)";
       DecodedTxResult.rest := JsUndefined |}.

(** An STX transfer and a contract log of T1 that the node has given the
    same index, and a lock event with a smaller one. *)
Definition stxLock (txid : string) (event_index : Z) : CoreNodeEvent.t :=
  {| CoreNodeEvent.txid := txid;
     CoreNodeEvent.event_index := event_index;
     CoreNodeEvent.committed := true;
     CoreNodeEvent.type :=
       StxLockEvent
         {| StxLockEvent.locked_amount := "100"; StxLockEvent.unlock_height := "20";
            StxLockEvent.locked_address := "SP1" |} |}.

Definition tiedEvents : list CoreNodeEvent.t :=
  [Sample.stxTransfer "T1" 5 true; Sample.contractLog "T1" 5 true; stxLock "T1" 2].

(** An event of a type that [CoreNodeEventType] does not have. *)
Definition unknownEvent : CoreNodeEvent.t :=
  {| CoreNodeEvent.txid := "T1";
     CoreNodeEvent.event_index := 0;
     CoreNodeEvent.committed := true;
     CoreNodeEvent.type := OtherEvent "data_var_set_event" |}.

(** A matured miner reward whose coinbase amount is no number. *)
Definition malformedReward : MaturedMinerReward.t :=
  {| MaturedMinerReward.from_stacks_block_hash := "0xb0";
     MaturedMinerReward.from_index_consensus_hash := "0x1a";
     MaturedMinerReward.recipient := "SP1";
     MaturedMinerReward.coinbase_amount := "1e9";
     MaturedMinerReward.tx_fees_anchored := "0";
     MaturedMinerReward.tx_fees_streamed_confirmed := "0";
     MaturedMinerReward.tx_fees_streamed_produced := "0" |}.

Definition rewardMessage : CoreNodeBlockMessage.t :=
  {| CoreNodeBlockMessage.block_hash := "0xb1";
     CoreNodeBlockMessage.index_block_hash := "0x1b";
     CoreNodeBlockMessage.parent_index_block_hash := "0x1a";
     CoreNodeBlockMessage.parent_block_hash := "0xb0";
     CoreNodeBlockMessage.parent_microblock := "0x00";
     CoreNodeBlockMessage.parent_microblock_sequence := 0;
     CoreNodeBlockMessage.block_height := 1;
     CoreNodeBlockMessage.burn_block_time := 1000;
     CoreNodeBlockMessage.burn_block_hash := "0xbb";
     CoreNodeBlockMessage.burn_block_height := 10;
     CoreNodeBlockMessage.miner_txid := "0xaa";
     CoreNodeBlockMessage.parent_burn_block_hash := "0xba";
     CoreNodeBlockMessage.parent_burn_block_height := 9;
     CoreNodeBlockMessage.parent_burn_block_timestamp := 900;
     CoreNodeBlockMessage.events := [];
     CoreNodeBlockMessage.transactions := [];
     CoreNodeBlockMessage.matured_miner_rewards := [malformedReward] |}.

(** A store of names that knows the name [muneeb.btc] and a resolver for
    the subdomains of [id.btc]. *)
Global Instance namesStore : NamesStore :=
  {| isUnanchoredRequest := λ _, Ok false;
     parsePagingQueryInput := λ v,
       match v with
       | JsNumber n => Ok n
       | JsString s => decimal s 0
       | _ => Throw (Error "Invalid page")
       end;
     bnsBlockchain := "stacks";
     BnsErrors_InvalidPageNumber := JsObject [("error", JsString "Invalid page")];
     getHistoricalZoneFile := λ _ _ _, Ok None;
     getSubdomainsListInName := λ _ _, Ok [];
     getLatestZoneFile := λ _ _, Ok None;
     getNamesList := λ page _, if (page =? 0)%Z then Ok [JsString "muneeb.btc"] else Ok [];
     getSubdomain := λ _ _, Ok None;
     getSubdomainResolver := λ name,
       if decide (name = "id.btc") then Ok (Some "https://registrar.example") else Ok None;
     getName := λ name _ _,
       if decide (name = "muneeb.btc")
       then Ok (Some {| DbBnsName.address := JsString "SP1";
                        DbBnsName.expire_block := JsNumber 100;
                        DbBnsName.grace_period := JsUndefined;
                        DbBnsName.tx_id := JsString "0xaa";
                        DbBnsName.resolver := JsNull;
                        DbBnsName.status := JsUndefined;
                        DbBnsName.zonefile := JsString "$ORIGIN muneeb.btc";
                        DbBnsName.zonefile_hash := JsString "0xcc" |})
       else Ok None |}.

Definition request (name : string) (page : JsValue) : NamesRequest.t :=
  {| NamesRequest.params_name := name;
     NamesRequest.params_zoneFileHash := "";
     NamesRequest.query_page := page;
     NamesRequest.url := "/" +:+ name;
     NamesRequest.rest := JsUndefined |}.

(** An environment that names the mode and nothing else. *)
Definition modeOnly (mode : string) : gmap string string :=
  {[ "STACKS_API_MODE" := mode ]}.

End SampleMore.

(** ** The sample inputs, run *)

Module SampleRuns.

(** Three events of T1; the transfer and the contract log have the same
    index. *)
Definition tiedResult : list DataStoreTxEventData.t :=
  Eval vm_compute in
    match parseDataStoreTxEventData [Sample.parsedTx "T1"] SampleMore.tiedEvents
            Sample.blockRef 1%Z with
    | Ok out => out
    | Throw _ => []
    end.

(** Two transactions with the id T1 and one event of T1. *)
Definition duplicateResult : list DataStoreTxEventData.t :=
  Eval vm_compute in
    match parseDataStoreTxEventData [Sample.parsedTx "T1"; Sample.parsedTx "T1"]
            [Sample.stxTransfer "T1" 4 true] Sample.blockRef 1%Z with
    | Ok out => out
    | Throw _ => []
    end.

(** A contract deployment and a coinbase transaction. *)
Definition deployResult : list DataStoreTxEventData.t :=
  Eval vm_compute in
    match parseDataStoreTxEventData [SampleMore.deployTx; Sample.parsedTx "T1"] []
            Sample.blockRef 1%Z with
    | Ok out => out
    | Throw _ => []
    end.

(** What [init] does in default mode, outside production. *)
Definition defaultTrace : list Effect.t :=
  [ Effect.connect "datastore-default" false;
    Effect.listen "127.0.0.1" 3700;
    Effect.registerShutdownConfig "Event Server" false;
    Effect.getStacksNodeChainID;
    Effect.monitorCoreRpcConnection;
    Effect.startApiServer (PgDataStore "datastore-default" false) 1%Z;
    Effect.registerShutdownConfig "API Server" true;
    Effect.registerShutdownConfig "DB" false ].

End SampleRuns.

(** * Properties *)

(** ** Outcomes and tasks *)

Lemma Result_bind_Ok {A B} (m : Result A) (f : A → Result B) (b : B) :
  m ≫= f = Ok b ↔ ∃ a, m = Ok a ∧ f a = Ok b.
Proof.
  destruct m as [a|e]; simpl; split.
  - eauto.
  - intros (a' & [= <-] & Hf). exact Hf.
  - discriminate.
  - intros (a' & [=] & _).
Qed.

Lemma isThrow_bind_l {A B} (m : Result A) (f : A → Result B) :
  isThrow m → isThrow (m ≫= f).
Proof. by destruct m. Qed.

Lemma isThrow_bind_r {A B} (m : Result A) (f : A → Result B) :
  (∀ a, m = Ok a → isThrow (f a)) → isThrow (m ≫= f).
Proof. destruct m as [a|e]; simpl; eauto. Qed.

Lemma isThrow_exists {A} (r : Result A) : isThrow r ↔ ∃ e, r = Throw e.
Proof.
  destruct r; simpl; split; try done; eauto.
  intros [? [=]].
Qed.

Section TaskFacts.
Context {externals : Externals} {dataStore : DataStore}.

Lemma lift_bind {A B} (r : Result A) (k : A → Task B) (w : World) :
  (lift r ≫= k) w = match r with
                     | Ok a => k a w
                     | Throw e => (Throw e, w)
                     end.
Proof. by destruct r. Qed.

Lemma lift_bind_Throw {A B} (r : Result A) (k : A → Task B) (w : World) :
  isThrow r → ∃ e, (lift r ≫= k) w = (Throw e, w).
Proof. destruct r as [a|e]; [done|]. intros _. by exists e. Qed.

Lemma appends_ret {A} (a : A) : appends (mret a).
Proof. intros w. exists []. by rewrite app_nil_r. Qed.

Lemma appends_lift {A} (r : Result A) : appends (lift r).
Proof. intros w. exists []. by rewrite app_nil_r. Qed.

Lemma appends_dbCall (c : StoreCall) : appends (dbCall c).
Proof.
  intros w. exists [c]. unfold dbCall. by destruct (dbRun c (db w)).
Qed.

Lemma appends_bind {A B} (m : Task A) (k : A → Task B) :
  appends m → (∀ a, appends (k a)) → appends (m ≫= k).
Proof.
  intros Hm Hk w. unfold mbind, Task_bind.
  destruct (Hm w) as [new1 H1]. destruct (m w) as [[a|e] w1]; simpl in *.
  - destruct (Hk a w1) as [new2 H2]. exists (new1 ++ new2).
    by rewrite H2, H1, (assoc_L (++)).
  - by exists new1.
Qed.

Lemma appends_tryCatch {A} (m : Task A) (handler : JsError → Task A) :
  appends m → (∀ e, appends (handler e)) → appends (tryCatch m handler).
Proof.
  intros Hm Hh w. unfold tryCatch.
  destruct (Hm w) as [new1 H1]. destruct (m w) as [[a|e] w1]; simpl in *.
  - by exists new1.
  - destruct (Hh e w1) as [new2 H2]. exists (new1 ++ new2).
    by rewrite H2, H1, (assoc_L (++)).
Qed.

Lemma appends_ext {A} (m m' : Task A) : (∀ w, m w = m' w) → appends m → appends m'.
Proof. intros Heq Hm w. rewrite <-Heq. apply Hm. Qed.

End TaskFacts.

Create HintDb appends.
Global Hint Resolve appends_ret appends_lift appends_dbCall : appends.

Ltac solve_appends :=
  repeat first
    [ apply appends_dbCall | apply appends_lift | apply appends_ret
    | apply appends_bind; [|intros ?] | apply appends_tryCatch; [|intros ?] ].

(** ** Sorting *)

Section Sorting.
Context {A : Type}.
Implicit Types (cmp : A → A → Z) (l : list A).

Lemma insertSorted_Permutation cmp x l : insertSorted cmp x l ≡ₚ x :: l.
Proof.
  induction l as [|y l IH]; simpl; [done|].
  destruct (cmp x y <=? 0)%Z; [done|].
  rewrite IH. apply Permutation_swap.
Qed.

Lemma sortBy_Permutation cmp l : sortBy cmp l ≡ₚ l.
Proof.
  induction l as [|x l IH]; simpl; [done|].
  by rewrite insertSorted_Permutation, IH.
Qed.

Lemma insertSorted_ext cmp cmp' x l :
  (∀ y, y ∈ l → cmp x y = cmp' x y) → insertSorted cmp x l = insertSorted cmp' x l.
Proof.
  induction l as [|y l IH]; intros Hext; simpl; [done|].
  rewrite <-(Hext y) by set_solver.
  destruct (cmp x y <=? 0)%Z; [done|].
  f_equal. apply IH. intros z Hz. apply Hext. set_solver.
Qed.

(** The result depends on the comparator only through the elements
    compared. *)
Lemma sortBy_ext cmp cmp' l :
  (∀ x y, x ∈ l → y ∈ l → cmp x y = cmp' x y) → sortBy cmp l = sortBy cmp' l.
Proof.
  induction l as [|x l IH]; intros Hext; simpl; [done|].
  rewrite <-IH by (intros; apply Hext; set_solver).
  apply insertSorted_ext. intros y Hy. apply Hext; [set_solver|].
  rewrite sortBy_Permutation in Hy. set_solver.
Qed.

Section ByKey.
Context (key : A → Z).

Lemma insertSorted_sorted x l :
  StronglySorted (keyLe key) l → StronglySorted (keyLe key) (insertSorted (compareBy key) x l).
Proof.
  induction 1 as [|y l Hl IH Hy]; simpl.
  - repeat constructor.
  - destruct (Z.leb_spec (compareBy key x y) 0) as [Hxy|Hxy]; unfold compareBy in Hxy.
    + constructor; [by constructor|].
      constructor; [unfold keyLe; lia|].
      eapply Forall_impl; [exact Hy|]. unfold keyLe; simpl. lia.
    + constructor; [done|].
      rewrite insertSorted_Permutation. constructor; [unfold keyLe; lia|done].
Qed.

Lemma sortBy_sorted l : StronglySorted (keyLe key) (sortBy (compareBy key) l).
Proof.
  induction l as [|x l IH]; simpl; [constructor|].
  by apply insertSorted_sorted.
Qed.

(** In a sorted list an element with a smaller key stands before one
    with a larger key. *)
Lemma sorted_positions l i j a b :
  StronglySorted (keyLe key) l →
  l !! i = Some a → l !! j = Some b → (key a < key b)%Z → i < j.
Proof.
  intros Hl. revert i j. induction Hl as [|y l Hl IH Hy]; intros i j Hi Hj Hab.
  - by rewrite lookup_nil in Hi.
  - destruct i as [|i], j as [|j]; simpl in *.
    + simplify_eq. lia.
    + lia.
    + simplify_eq. rewrite Forall_forall in Hy.
      apply list_elem_of_lookup_2 in Hi. specialize (Hy _ Hi). unfold keyLe in Hy. lia.
    + apply ->Nat.succ_lt_mono. by apply IH.
Qed.

End ByKey.

End Sorting.

(** ** Positions of the elements that satisfy a predicate *)

Section IndicesWhere.
Context {A : Type} (P : A → Prop) `{!∀ x, Decision (P x)}.

Lemma indicesWhere_snoc (l : list A) (x : A) :
  indicesWhere P (l ++ [x])
  = indicesWhere P l ++ (if decide (P x) then [length l] else []).
Proof.
  unfold indicesWhere. rewrite imap_app, filter_app, fmap_app. f_equal.
  simpl. rewrite filter_cons. simpl. rewrite Nat.add_0_r.
  by destruct (decide (P x)).
Qed.

Lemma length_indicesWhere (l : list A) : length (indicesWhere P l) = length (filter P l).
Proof.
  induction l as [|x l IH] using rev_ind; [done|].
  rewrite indicesWhere_snoc, filter_app, !length_app, IH. f_equal.
  rewrite filter_cons. by destruct (decide (P x)).
Qed.

Lemma indicesWhere_lt (l : list A) : Forall (λ r, r < length l) (indicesWhere P l).
Proof.
  apply Forall_fmap, Forall_forall. intros [r y] Hin.
  apply list_elem_of_filter in Hin as [_ Hin].
  apply list_elem_of_lookup_1 in Hin as [j Hj].
  rewrite list_lookup_imap in Hj.
  destruct (l !! j) eqn:Hlj; simplify_eq/=.
  by eapply lookup_lt_Some.
Qed.

Lemma omap_lookup_app_l (l k : list A) (rs : list nat) :
  Forall (λ r, r < length l) rs →
  omap (λ r, (l ++ k) !! r) rs = omap (λ r, l !! r) rs.
Proof.
  induction 1 as [|r rs Hr _ IH]; [done|].
  csimpl. rewrite lookup_app_l by done. by rewrite IH.
Qed.

(** Reading a list at those positions gives the filtered list. *)
Lemma omap_indicesWhere (l : list A) : omap (λ r, l !! r) (indicesWhere P l) = filter P l.
Proof.
  induction l as [|x l IH] using rev_ind; [done|].
  rewrite indicesWhere_snoc, filter_app, omap_app. f_equal.
  - rewrite omap_lookup_app_l by apply indicesWhere_lt. exact IH.
  - rewrite filter_cons. destruct (decide (P x)); [|done].
    csimpl. by rewrite list_lookup_middle.
Qed.

End IndicesWhere.

(** ** Renumbering *)

Lemma set_event_index_twice (i j : Z) (e : DbEvent.t) :
  DbEvent.set_event_index j (DbEvent.set_event_index i e) = DbEvent.set_event_index j e.
Proof. done. Qed.

Lemma renumbered_refl (e : DbEvent.t) : renumbered e e.
Proof. by destruct e as [[]]. Qed.

Lemma renumbered_set (i : Z) (e : DbEvent.t) : renumbered e (DbEvent.set_event_index i e).
Proof. done. Qed.

Lemma renumbered_trans (a b c : DbEvent.t) : renumbered a b → renumbered b c → renumbered a c.
Proof. unfold renumbered. intros -> ->. done. Qed.

Lemma renumbered_canonical (a b : DbEvent.t) :
  renumbered a b → DbEvent.canonical b = DbEvent.canonical a.
Proof. by intros ->. Qed.

Lemma renumbered_tx_id (a b : DbEvent.t) : renumbered a b → DbEvent.tx_id b = DbEvent.tx_id a.
Proof. by intros ->. Qed.

Section Renumber.
Implicit Types (h : Heap) (s : list Ref).

Lemma length_renumber s i h : length (renumber s i h) = length h.
Proof.
  revert i h. induction s as [|r s IH]; intros i h; cbn [renumber]; [done|].
  by rewrite IH, length_alter.
Qed.

Lemma renumber_lookup_notin s i h r : r ∉ s → renumber s i h !! r = h !! r.
Proof.
  revert i h. induction s as [|r' s IH]; intros i h Hr; cbn [renumber]; [done|].
  rewrite IH by set_solver. apply list_lookup_alter_ne. set_solver.
Qed.

(** The object at position [p] of the sorted array gets the index [i + p]. *)
Lemma renumber_lookup s i h p r :
  NoDup s → s !! p = Some r →
  renumber s i h !! r = DbEvent.set_event_index (Z.of_nat (i + p)) <$> h !! r.
Proof.
  intros Hnd. revert i h p.
  induction Hnd as [|r' s Hr' Hnd IH]; intros i h p Hp; [by rewrite lookup_nil in Hp|].
  destruct p as [|p]; cbn [renumber lookup list_lookup] in *.
  - simplify_eq. rewrite renumber_lookup_notin by done.
    by rewrite list_lookup_alter_eq, Nat.add_0_r.
  - rewrite (IH _ _ p) by done.
    rewrite list_lookup_alter_ne.
    + by rewrite Nat.add_succ_r.
    + intros ->. apply Hr'. by eapply list_elem_of_lookup_2.
Qed.

(** Renumbering changes nothing but indexes. *)
Lemma renumber_renumbered s i h r e' :
  renumber s i h !! r = Some e' → ∃ e, h !! r = Some e ∧ renumbered e e'.
Proof.
  revert i h. induction s as [|r' s IH]; intros i h Hr; cbn [renumber] in *.
  - exists e'. split; [done|apply renumbered_refl].
  - apply IH in Hr as (e1 & He1 & Hren).
    destruct (decide (r' = r)) as [->|Hne].
    + rewrite list_lookup_alter_eq in He1.
      destruct (h !! r) as [e|]; simplify_eq/=.
      exists e. split; [done|]. eapply renumbered_trans; [apply renumbered_set|done].
    + rewrite list_lookup_alter_ne in He1 by done. eauto.
Qed.

End Renumber.

(** ** The scatter loop *)

Section Scatter.
Context {externals : Externals}.
Implicit Types (st : ParseState.t) (e : TxEntry.t) (event : CoreNodeEvent.t).

Lemma dispatch_base (dbEvent : DbEventBase.t) event (b : Bucket) (entry : DbEvent.t) :
  dispatch dbEvent event = Ok (b, entry) → DbEvent.base entry = dbEvent.
Proof.
  unfold dispatch. intros Hd.
  destruct (CoreNodeEvent.type event); try discriminate;
    apply Result_bind_Ok in Hd as (x & _ & Hd); by simplify_eq.
Qed.

Lemma recordOf_base blockData tx_index event entry :
  recordOf blockData tx_index event entry →
  DbEvent.base entry = mkDbEventBase blockData tx_index event.
Proof. intros [b Hd]. by eapply dispatch_base. Qed.

Lemma recordOf_tx_id blockData tx_index event entry :
  recordOf blockData tx_index event entry → DbEvent.tx_id entry = CoreNodeEvent.txid event.
Proof. intros Hr. unfold DbEvent.tx_id. by rewrite (recordOf_base _ _ _ _ Hr). Qed.

Lemma recordOf_canonical blockData tx_index event entry :
  recordOf blockData tx_index event entry → DbEvent.canonical entry = true.
Proof. intros Hr. unfold DbEvent.canonical. by rewrite (recordOf_base _ _ _ _ Hr). Qed.

Lemma recordOf_event_index blockData tx_index event entry :
  recordOf blockData tx_index event entry →
  DbEvent.event_index entry = CoreNodeEvent.event_index event.
Proof. intros Hr. unfold DbEvent.event_index. by rewrite (recordOf_base _ _ _ _ Hr). Qed.

(** *** Owners *)

Lemma entryIds_txs (dbData : list TxEntry.t) :
  entryIds dbData = DbTx.tx_id <$> (TxEntry.tx <$> dbData).
Proof. unfold entryIds. by rewrite <-list_fmap_compose. Qed.

Lemma ownerOfTxid_findDbTx (dbData : list TxEntry.t) (txid : string) :
  ownerOfTxid (entryIds dbData) txid = fst <$> findDbTx dbData txid.
Proof.
  unfold ownerOfTxid, entryIds, findDbTx. rewrite list_find_fmap.
  by destruct (list_find _ dbData) as [[k e]|].
Qed.

Lemma findDbTx_Some (dbData : list TxEntry.t) (txid : string) k e :
  findDbTx dbData txid = Some (k, e) →
  dbData !! k = Some e ∧ DbTx.tx_id (TxEntry.tx e) = txid
  ∧ ownerOfTxid (entryIds dbData) txid = Some k.
Proof.
  intros Hf. rewrite ownerOfTxid_findDbTx, Hf. split_and!; [..|done].
  - by apply list_find_Some in Hf as (? & ? & ?).
  - by apply list_find_Some in Hf as (? & ? & ?).
Qed.

Lemma findDbTx_None (dbData : list TxEntry.t) (txid : string) :
  findDbTx dbData txid = None ↔ Forall (λ e, DbTx.tx_id (TxEntry.tx e) ≠ txid) dbData.
Proof. apply list_find_None. Qed.

(** *** Entries *)

Lemma keepsEvents_id : keepsEvents id.
Proof. done. Qed.

Lemma keepsEvents_push_name n : keepsEvents (TxEntry.push_name n).
Proof. done. Qed.

Lemma keepsEvents_push_namespace n : keepsEvents (TxEntry.push_namespace n).
Proof. done. Qed.

Lemma keepsEvents_compose f g : keepsEvents f → keepsEvents g → keepsEvents (f ∘ g).
Proof.
  intros Hf Hg e. unfold compose. destruct (Hf (g e)) as (-> & -> & ->). apply Hg.
Qed.

Lemma flatEvents_push (b : Bucket) (r : Ref) e : flatEvents (push b r e) ≡ₚ flatEvents e ++ [r].
Proof.
  unfold flatEvents, push. destruct b; simpl; rewrite ?app_nil_r; solve_Permutation.
Qed.

Lemma push_tx (b : Bucket) (r : Ref) e : TxEntry.tx (push b r e) = TxEntry.tx e.
Proof. done. Qed.

Lemma push_smartContracts (b : Bucket) (r : Ref) e :
  TxEntry.smartContracts (push b r e) = TxEntry.smartContracts e.
Proof. done. Qed.

Lemma fmap_alter_keep {A B} (g : A → B) (f : A → A) (k : nat) (l : list A) :
  (∀ x, g (f x) = g x) → g <$> alter f k l = g <$> l.
Proof.
  intros Hg. apply list_eq. intros i. rewrite !list_lookup_fmap.
  destruct (decide (k = i)) as [->|Hne].
  - rewrite list_lookup_alter_eq. destruct (l !! i); simpl; [|done]. by rewrite Hg.
  - by rewrite list_lookup_alter_ne.
Qed.

Lemma concat_flatEvents_alter (g : TxEntry.t → TxEntry.t) (k : nat) (r : Ref)
    (l : list TxEntry.t) e :
  l !! k = Some e →
  flatEvents (g e) ≡ₚ flatEvents e ++ [r] →
  concat (flatEvents <$> alter g k l) ≡ₚ concat (flatEvents <$> l) ++ [r].
Proof.
  revert k. induction l as [|x l IH]; intros k Hk Hg; [by rewrite lookup_nil in Hk|].
  destruct k as [|k]; simpl in *.
  - simplify_eq. rewrite Hg. solve_Permutation.
  - rewrite (IH k) by done. by rewrite (assoc_L (++)).
Qed.

(** *** One event *)

(** What a successful iteration does: nothing for an uncommitted event;
    otherwise the record of the event is allocated and pushed to an array
    of the owner, whose names and namespaces may grow. *)
Lemma processEvent_Ok parsedTxs allEvents blockData chainId st event st' :
  processEvent parsedTxs allEvents blockData chainId st event = Ok st' →
  (CoreNodeEvent.committed event = false ∧ st' = st)
  ∨ (CoreNodeEvent.committed event = true
     ∧ ∃ k dbTx b entry f,
         findDbTx (ParseState.dbData st) (CoreNodeEvent.txid event) = Some (k, dbTx)
         ∧ dispatch (mkDbEventBase blockData (DbTx.tx_index (TxEntry.tx dbTx)) event) event
           = Ok (b, entry)
         ∧ keepsEvents f
         ∧ st' = updateEntry k f (pushEvent k b entry st)).
Proof.
  unfold processEvent. destruct (CoreNodeEvent.committed event); simpl.
  2: { intros [= <-]. by left. }
  intros Hp. right. split; [done|].
  destruct (findDbTx _ _) as [[k dbTx]|] eqn:Hfind; [|done].
  apply Result_bind_Ok in Hp as ([b entry] & Hd & Hp).
  exists k, dbTx, b, entry.
  assert (Hid : ∀ st1, st1 = updateEntry k id st1).
  { intros [l h]. unfold updateEntry. simpl. by rewrite list_alter_id. }
  destruct (CoreNodeEvent.type event);
    try (exists id; split_and!; [done..|apply keepsEvents_id|]; simplify_eq; apply Hid).
  destruct (findParsedTx _ _) as [[j parsedTx]|]; [|done].
  apply Result_bind_Ok in Hp as (name & _ & Hp).
  apply Result_bind_Ok in Hp as (namespace & _ & Hp).
  injection Hp as <-.
  destruct name as [name|], namespace as [namespace|].
  - exists (TxEntry.push_namespace namespace ∘ TxEntry.push_name name).
    split_and!; [done..| |].
    + apply keepsEvents_compose; [apply keepsEvents_push_namespace|apply keepsEvents_push_name].
    + unfold updateEntry. simpl. by rewrite list_alter_alter_eq.
  - exists (TxEntry.push_name name). split_and!; [done..|apply keepsEvents_push_name|done].
  - exists (TxEntry.push_namespace namespace).
    split_and!; [done..|apply keepsEvents_push_namespace|done].
  - exists id. split_and!; [done..|apply keepsEvents_id|apply Hid].
Qed.

Lemma ScatterInv_updateEntry blockData dbData0 seen st k f :
  keepsEvents f →
  ScatterInv blockData dbData0 seen st →
  ScatterInv blockData dbData0 seen (updateEntry k f st).
Proof.
  intros Hf [Htxs Hsc Hheap Hrefs Hall]. unfold updateEntry. split; simpl.
  - rewrite fmap_alter_keep; [done|]. intros e. apply Hf.
  - rewrite fmap_alter_keep; [done|]. intros e. apply Hf.
  - done.
  - intros k' e' Hk'. destruct (decide (k = k')) as [->|Hne].
    + rewrite list_lookup_alter_eq in Hk'.
      destruct (ParseState.dbData st !! k') as [e|] eqn:He; simplify_eq/=.
      destruct (Hf e) as (_ & _ & ->). by apply Hrefs.
    + rewrite list_lookup_alter_ne in Hk' by done. by apply Hrefs.
  - rewrite fmap_alter_keep; [done|]. intros e. apply Hf.
Qed.

Lemma committedEvents_snoc (seen : list CoreNodeEvent.t) event :
  committedEvents (seen ++ [event])
  = committedEvents seen ++ (if CoreNodeEvent.committed event then [event] else []).
Proof.
  unfold committedEvents. rewrite filter_app, filter_cons. f_equal.
  by destruct (CoreNodeEvent.committed event); case_decide.
Qed.

Lemma ScatterInv_pushEvent blockData dbData0 seen st event k dbTx b entry :
  CoreNodeEvent.committed event = true →
  findDbTx (ParseState.dbData st) (CoreNodeEvent.txid event) = Some (k, dbTx) →
  dispatch (mkDbEventBase blockData (DbTx.tx_index (TxEntry.tx dbTx)) event) event
    = Ok (b, entry) →
  ScatterInv blockData dbData0 seen st →
  ScatterInv blockData dbData0 (seen ++ [event]) (pushEvent k b entry st).
Proof.
  intros Hcom Hfind Hd [Htxs Hsc Hheap Hrefs Hall].
  apply findDbTx_Some in Hfind as (Hk & _ & Howner).
  assert (Hids : entryIds (ParseState.dbData st) = entryIds dbData0)
    by (by rewrite !entryIds_txs, Htxs).
  rewrite Hids in Howner.
  assert (Hrec : recordOf blockData (DbTx.tx_index (TxEntry.tx dbTx)) event entry)
    by (by exists b).
  assert (Hentry : ownerOfTxid (entryIds dbData0) (DbEvent.tx_id entry) = Some k)
    by (by rewrite (recordOf_tx_id _ _ _ _ Hrec)).
  unfold pushEvent. split; simpl.
  - by rewrite fmap_alter_keep.
  - by rewrite fmap_alter_keep.
  - rewrite committedEvents_snoc, Hcom. apply Forall2_app; [done|].
    apply Forall2_cons; split; [|constructor].
    assert (Hk0 : (TxEntry.tx <$> dbData0) !! k = Some (TxEntry.tx dbTx))
      by (by rewrite <-Htxs, list_lookup_fmap, Hk).
    rewrite list_lookup_fmap in Hk0.
    destruct (dbData0 !! k) as [dbTx0|] eqn:Hk0'; simplify_eq/=.
    exists k, dbTx0. split_and!; [done..|]. by rewrite Hk0.
  - intros k' e' Hk'. rewrite indicesWhere_snoc.
    destruct (decide (k = k')) as [<-|Hne].
    + rewrite list_lookup_alter_eq, Hk in Hk'. simplify_eq/=.
      rewrite decide_True by done.
      rewrite flatEvents_push. by rewrite (Hrefs k dbTx Hk).
    + rewrite list_lookup_alter_ne in Hk' by done.
      rewrite decide_False by (rewrite Hentry; congruence).
      rewrite app_nil_r. by apply Hrefs.
  - rewrite (concat_flatEvents_alter _ _ (length (ParseState.heap st)) _ dbTx Hk)
      by apply flatEvents_push.
    rewrite length_app, Nat.add_1_r, seq_S. by rewrite Hall.
Qed.

Lemma processEvent_inv parsedTxs allEvents blockData chainId dbData0 seen st event st' :
  ScatterInv blockData dbData0 seen st →
  processEvent parsedTxs allEvents blockData chainId st event = Ok st' →
  ScatterInv blockData dbData0 (seen ++ [event]) st'.
Proof.
  intros Hinv Hp.
  apply processEvent_Ok in Hp
    as [[Hcom ->]|(Hcom & k & dbTx & b & entry & f & Hfind & Hd & Hf & ->)].
  - destruct Hinv as [Htxs Hsc Hheap Hrefs Hall]. split; try done.
    by rewrite committedEvents_snoc, Hcom, app_nil_r.
  - apply ScatterInv_updateEntry; [done|]. by eapply ScatterInv_pushEvent.
Qed.

Lemma scatterEvents_inv parsedTxs allEvents blockData chainId dbData0 events seen st st' :
  ScatterInv blockData dbData0 seen st →
  scatterEvents parsedTxs allEvents blockData chainId events st = Ok st' →
  ScatterInv blockData dbData0 (seen ++ events) st'.
Proof.
  revert seen st. induction events as [|event events IH]; intros seen st Hinv Hs; simpl in *.
  - simplify_eq. by rewrite app_nil_r.
  - apply Result_bind_Ok in Hs as (st1 & Hp & Hs).
    rewrite (cons_middle event), (assoc_L (++)).
    eapply IH; [|done]. by eapply processEvent_inv.
Qed.

Lemma ScatterInv_init blockData dbData0 :
  Forall (λ e, flatEvents e = []) dbData0 →
  ScatterInv blockData dbData0 [] {| ParseState.dbData := dbData0; ParseState.heap := [] |}.
Proof.
  intros Hempty. split; simpl; [done|done|constructor|..].
  - intros k e Hk. rewrite Forall_forall in Hempty.
    rewrite (Hempty e) by (by eapply list_elem_of_lookup_2). done.
  - induction Hempty as [|e l He _ IH]; [done|]. simpl. by rewrite He.
Qed.

Lemma initEntry_flatEvents blockData chainId tx e :
  initEntry blockData chainId tx = Ok e → flatEvents e = [].
Proof.
  unfold initEntry. intros Hi.
  apply Result_bind_Ok in Hi as (dbTx & _ & Hi).
  destruct (DecodedTxResult.payload _); simplify_eq/=; try done.
  apply Result_bind_Ok in Hi as ([name|] & _ & Hi); by simplify_eq.
Qed.

Lemma initEntry_smartContracts blockData chainId tx e :
  initEntry blockData chainId tx = Ok e →
  Forall (λ c, DbSmartContract.canonical c = true) (TxEntry.smartContracts e).
Proof.
  unfold initEntry. intros Hi.
  apply Result_bind_Ok in Hi as (dbTx & _ & Hi).
  destruct (DecodedTxResult.payload _); simplify_eq/=; try by repeat constructor.
  apply Result_bind_Ok in Hi as ([name|] & _ & Hi); simplify_eq; by constructor.
Qed.

Lemma initDbData_Forall blockData chainId parsedTxs dbData :
  initDbData blockData chainId parsedTxs = Ok dbData →
  length dbData = length parsedTxs
  ∧ Forall (λ e, flatEvents e = []
                 ∧ Forall (λ c, DbSmartContract.canonical c = true) (TxEntry.smartContracts e))
      dbData.
Proof.
  revert dbData. induction parsedTxs as [|tx parsedTxs IH]; intros dbData Hi; simpl in *.
  - by simplify_eq.
  - apply Result_bind_Ok in Hi as (e & He & Hi).
    apply Result_bind_Ok in Hi as (dbData' & Hd & Hi). simplify_eq.
    destruct (IH _ Hd) as [Hlen Hall]. split; [simpl; by rewrite Hlen|].
    constructor; [|done]. split.
    + by eapply initEntry_flatEvents.
    + by eapply initEntry_smartContracts.
Qed.

(** The state the scatter ends in satisfies the invariant for all the
    events. *)
Lemma scatter_inv parsedTxs events blockData chainId st :
  scatter parsedTxs events blockData chainId = Ok st →
  ∃ dbData0,
    initDbData blockData chainId parsedTxs = Ok dbData0
    ∧ ScatterInv blockData dbData0 events st.
Proof.
  unfold scatter. intros Hs.
  apply Result_bind_Ok in Hs as (dbData0 & Hinit & Hs).
  exists dbData0. split; [done|].
  change events with ([] ++ events) at 1.
  eapply scatterEvents_inv; [|done].
  apply ScatterInv_init.
  apply initDbData_Forall in Hinit as [_ Hall].
  eapply Forall_impl; [done|]. by intros e [? _].
Qed.

End Scatter.

(** ** The normalization loop *)

Section Normalize.
Implicit Types (h : Heap) (l : list TxEntry.t) (e : TxEntry.t).

Lemma flatEvents_counted e : flatEvents (counted e) = flatEvents e.
Proof. done. Qed.

Lemma eventIndexAt_ext h h' r : h' !! r = h !! r → eventIndexAt h' r = eventIndexAt h r.
Proof. unfold eventIndexAt. by intros ->. Qed.

Lemma deref_lookups h (rs : list Ref) :
  Forall (λ r, r < length h) rs → Forall2 (λ r ev, h !! r = Some ev) rs (deref h rs).
Proof.
  induction 1 as [|r rs Hr _ IH]; [constructor|].
  unfold deref. csimpl. destruct (lookup_lt_is_Some_2 h r Hr) as [ev Hev].
  rewrite Hev. simpl. by constructor.
Qed.

Lemma elem_of_concat_flatEvents l e (r : Ref) :
  e ∈ l → r ∈ flatEvents e → r ∈ concat (flatEvents <$> l).
Proof.
  induction 1 as [e l|e e' l _ IH]; intros Hr; simpl; apply elem_of_app; auto.
Qed.

Lemma normalizeAll_spec l h l' h' :
  normalizeAll l h = (l', h') →
  NoDup (concat (flatEvents <$> l)) →
  length h' = length h
  ∧ l' = counted <$> l
  ∧ (∀ r, r ∉ concat (flatEvents <$> l) → h' !! r = h !! r)
  ∧ (∀ r ev', h' !! r = Some ev' → ∃ ev, h !! r = Some ev ∧ renumbered ev ev')
  ∧ (∀ k e p r,
       l !! k = Some e →
       sortBy (compareEvents h) (flatEvents e) !! p = Some r →
       h' !! r = DbEvent.set_event_index (Z.of_nat p) <$> h !! r).
Proof.
  revert h l' h'. induction l as [|e l IH]; intros h l' h' Hn Hnd.
  - simpl in Hn. simplify_eq. split_and!; try done.
    intros r ev' Hr. exists ev'. split; [done|apply renumbered_refl].
  - cbn [normalizeAll] in Hn. unfold normalizeTx in Hn.
    set (s := sortBy (compareEvents h) (flatEvents e)) in *.
    set (h1 := renumber s 0 h) in *.
    destruct (normalizeAll l h1) as [l2 h2] eqn:Hrest. injection Hn as <- <-.
    simpl in Hnd. apply NoDup_app in Hnd as (Hnde & Hdisj & Hndl).
    assert (Hs : s ≡ₚ flatEvents e) by apply sortBy_Permutation.
    assert (Hnds : NoDup s) by (by rewrite Hs).
    destruct (IH h1 l2 h2 Hrest Hndl) as (Hlen & -> & Hout & Hren & Hpos).
    assert (Hh1 : ∀ r, r ∉ flatEvents e → h1 !! r = h !! r).
    { intros r Hr. apply renumber_lookup_notin. by rewrite Hs. }
    split_and!.
    + rewrite Hlen. apply length_renumber.
    + cbn [fmap list_fmap]. f_equal. unfold counted. by rewrite <-Hs.
    + intros r Hr. simpl in Hr. apply not_elem_of_app in Hr as [Hr1 Hr2].
      rewrite Hout by done. by apply Hh1.
    + intros r ev' Hr. apply Hren in Hr as (ev1 & Hr & Hren1).
      apply renumber_renumbered in Hr as (ev & Hr & Hren0).
      exists ev. split; [done|]. by eapply renumbered_trans.
    + intros k e' p r Hk Hp. destruct k as [|k]; simpl in Hk.
      * simplify_eq. fold s in Hp.
        assert (Hin : r ∈ flatEvents e').
        { rewrite <-Hs. by eapply list_elem_of_lookup_2. }
        rewrite Hout by (by apply Hdisj).
        by apply (renumber_lookup s 0 h p r).
      * assert (Hsub : ∀ x, x ∈ flatEvents e' → x ∉ flatEvents e).
        { intros x Hx Hxe. apply (Hdisj x Hxe).
          apply (elem_of_concat_flatEvents l e'); [|done].
          by eapply list_elem_of_lookup_2. }
        assert (Hsame : sortBy (compareEvents h1) (flatEvents e')
                        = sortBy (compareEvents h) (flatEvents e')).
        { apply sortBy_ext. intros x y Hx Hy. unfold compareEvents, compareBy.
          by rewrite !(eventIndexAt_ext h h1) by (apply Hh1; by apply Hsub). }
        rewrite <-Hsame in Hp.
        rewrite (Hpos k e' p r Hk Hp). f_equal. apply Hh1, Hsub.
        rewrite <-(sortBy_Permutation (compareEvents h1)).
        by eapply list_elem_of_lookup_2.
Qed.

End Normalize.

(** ** The result of the parser *)

Section ParserResult.
Context {externals : Externals}.

Lemma deref_app (h : Heap) (rs1 rs2 : list Ref) :
  deref h (rs1 ++ rs2) = deref h rs1 ++ deref h rs2.
Proof. apply omap_app. Qed.

Lemma mergedEvents_snapshotEntry (h : Heap) (e : TxEntry.t) :
  mergedEvents (snapshotEntry h e) = deref h (flatEvents e).
Proof.
  unfold mergedEvents, flatEvents, snapshotEntry. simpl.
  by rewrite !deref_app, !app_nil_r.
Qed.

Lemma Forall2_same_l {A B C} (R1 : A → B → Prop) (R2 : A → C → Prop) (R : B → C → Prop)
    (l : list A) (k1 : list B) (k2 : list C) :
  (∀ x y z, R1 x y → R2 x z → R y z) →
  Forall2 R1 l k1 → Forall2 R2 l k2 → Forall2 R k1 k2.
Proof.
  intros HR H1. revert k2. induction H1 as [|x y l k1 Hxy _ IH]; intros k2 H2.
  - apply Forall2_nil_inv_l in H2 as ->. constructor.
  - apply Forall2_cons_inv_l in H2 as (z & k2' & Hxz & H2 & ->).
    constructor; [by eapply HR|by apply IH].
Qed.

(** The parser returns the snapshot of the normalized state of a scatter
    that satisfies the invariant for all the events. *)
Lemma parse_Ok parsedTxs events blockData chainId out :
  parseDataStoreTxEventData parsedTxs events blockData chainId = Ok out →
  ∃ dbData0 st,
    initDbData blockData chainId parsedTxs = Ok dbData0
    ∧ ScatterInv blockData dbData0 events st
    ∧ out = snapshot (normalize st).
Proof.
  unfold parseDataStoreTxEventData. intros Hp.
  apply Result_bind_Ok in Hp as (st & Hs & Hp). injection Hp as <-.
  apply scatter_inv in Hs as (dbData0 & Hinit & Hinv).
  by exists dbData0, st.
Qed.

(** One entry of the result, against the state before the
    normalization. *)
Lemma snapshot_normalize_lookup blockData dbData0 events st k d :
  ScatterInv blockData dbData0 events st →
  snapshot (normalize st) !! k = Some d →
  ∃ e dbTx0 pre,
    ParseState.dbData st !! k = Some e
    ∧ dbData0 !! k = Some dbTx0
    ∧ TxEntry.tx e = TxEntry.tx dbTx0
    ∧ DataStoreTxEventData.tx d
      = DbTx.set_event_count (Z.of_nat (length (mergedEvents d))) (TxEntry.tx dbTx0)
    ∧ DataStoreTxEventData.smartContracts d = TxEntry.smartContracts dbTx0
    ∧ pre ≡ₚ filter (λ ev, ownerOfTxid (entryIds dbData0) (DbEvent.tx_id ev) = Some k)
               (ParseState.heap st)
    ∧ Forall2 renumbered pre (mergedEvents d)
    ∧ DbEvent.event_index <$> mergedEvents d
      ≡ₚ Z.of_nat <$> seq 0 (length (mergedEvents d))
    ∧ (∀ p q a a' b b',
         pre !! p = Some a → pre !! q = Some a' →
         mergedEvents d !! p = Some b → mergedEvents d !! q = Some b' →
         (DbEvent.event_index a < DbEvent.event_index a')%Z →
         (DbEvent.event_index b < DbEvent.event_index b')%Z).
Proof.
  intros [Htxs Hsc Hheap Hrefs Hall] Hk.
  unfold normalize, snapshot in Hk.
  destruct st as [l h]. simpl in *.
  destruct (normalizeAll l h) as [l' h'] eqn:Hn. simpl in Hk.
  assert (Hnd : NoDup (concat (flatEvents <$> l))) by (rewrite Hall; apply NoDup_seq).
  destruct (normalizeAll_spec l h l' h' Hn Hnd) as (Hlen & -> & _ & Hren & Hpos).
  rewrite <-list_fmap_compose, list_lookup_fmap in Hk.
  destruct (l !! k) as [e|] eqn:He; [|done]. simpl in Hk. injection Hk as <-.
  assert (Hk0 : (TxEntry.tx <$> dbData0) !! k = Some (TxEntry.tx e))
    by (by rewrite <-Htxs, list_lookup_fmap, He).
  assert (Hk1 : (TxEntry.smartContracts <$> dbData0) !! k = Some (TxEntry.smartContracts e))
    by (by rewrite <-Hsc, list_lookup_fmap, He).
  rewrite list_lookup_fmap in Hk0. rewrite list_lookup_fmap in Hk1.
  destruct (dbData0 !! k) as [dbTx0|] eqn:He0; [|done].
  simpl in Hk0, Hk1. injection Hk0 as Htx. injection Hk1 as Hsmart.
  rewrite mergedEvents_snapshotEntry, flatEvents_counted.
  set (refs := flatEvents e).
  assert (Hvalid : Forall (λ r, r < length h) refs).
  { apply Forall_forall. intros r Hr.
    assert (Hin : r ∈ seq 0 (length h)).
    { rewrite <-Hall. apply (elem_of_concat_flatEvents l e); [|done].
      by eapply list_elem_of_lookup_2. }
    apply elem_of_seq in Hin. lia. }
  assert (Hvalid' : Forall (λ r, r < length h') refs) by (by rewrite Hlen).
  pose proof (deref_lookups h refs Hvalid) as Hpre.
  pose proof (deref_lookups h' refs Hvalid') as Hpost.
  set (s := sortBy (compareEvents h) refs).
  assert (Hs : s ≡ₚ refs) by apply sortBy_Permutation.
  assert (Hnds : NoDup refs).
  { assert (Hsplit : ∃ l1 l2, l = l1 ++ e :: l2).
    { apply list_elem_of_split. by eapply list_elem_of_lookup_2. }
    destruct Hsplit as (l1 & l2 & ->).
    rewrite fmap_app, concat_app in Hnd. simpl in Hnd.
    apply NoDup_app in Hnd as (_ & _ & Hnd). by apply NoDup_app in Hnd as (Hnd & _). }
  exists e, dbTx0, (deref h refs). split_and!; try done.
  - simpl. rewrite <-Htx. f_equal. f_equal.
    apply Forall2_length in Hpost. by rewrite <-Hpost.
  - unfold deref, refs. rewrite (Hrefs k e He). by rewrite omap_indicesWhere.
  - eapply Forall2_same_l; [|exact Hpre|exact Hpost].
    intros r a b Ha Hb. simpl in *.
    apply Hren in Hb as (a0 & Ha0 & Hab). by simplify_eq.
  - assert (Hvs : Forall (λ r, r < length h') s) by (by rewrite Hs).
    pose proof (deref_lookups h' s Hvs) as Hsorted.
    assert (Hperm : deref h' refs ≡ₚ deref h' s).
    { unfold deref. by rewrite Hs. }
    rewrite (Permutation_length Hperm). rewrite Hperm.
    apply reflexive_eq, list_eq. intros i.
    rewrite !list_lookup_fmap.
    destruct (deref h' s !! i) as [b|] eqn:Hb; simpl.
    + destruct (Forall2_lookup_r _ _ _ _ _ Hsorted Hb) as (r & Hr & Hrb).
      rewrite lookup_seq_lt by (by eapply lookup_lt_Some). simpl.
      rewrite (Hpos k e i r He Hr) in Hrb.
      destruct (h !! r) as [a|]; simplify_eq/=. done.
    + apply lookup_ge_None in Hb. by rewrite lookup_seq_ge.
  - intros p q a a' b b' Ha Ha' Hb Hb' Hlt.
    destruct (Forall2_lookup_r _ _ _ _ _ Hpre Ha) as (r1 & Hr1 & Hr1a).
    destruct (Forall2_lookup_r _ _ _ _ _ Hpre Ha') as (r2 & Hr2 & Hr2a).
    destruct (Forall2_lookup_r _ _ _ _ _ Hpost Hb) as (r1' & Hr1' & Hr1b).
    destruct (Forall2_lookup_r _ _ _ _ _ Hpost Hb') as (r2' & Hr2' & Hr2b).
    simplify_eq/=.
    assert (Hin1 : r1 ∈ s) by (rewrite Hs; by eapply list_elem_of_lookup_2).
    assert (Hin2 : r2 ∈ s) by (rewrite Hs; by eapply list_elem_of_lookup_2).
    apply list_elem_of_lookup_1 in Hin1 as [i Hi].
    apply list_elem_of_lookup_1 in Hin2 as [j Hj].
    rewrite (Hpos k e i r1 He Hi), Hr1a in Hr1b.
    rewrite (Hpos k e j r2 He Hj), Hr2a in Hr2b.
    simplify_eq/=. unfold DbEvent.event_index at 1 2. simpl.
    apply inj_lt.
    apply (sorted_positions (eventIndexAt h) s i j r1 r2); [|done..|].
    + apply sortBy_sorted.
    + unfold eventIndexAt. by rewrite Hr1a, Hr2a.
Qed.

End ParserResult.

Lemma Forall2_filter_impl {A B} (R : A → B → Prop) (P : A → Prop) (Q : B → Prop)
    `{!∀ x, Decision (P x)} `{!∀ y, Decision (Q y)} (l : list A) (k : list B) :
  Forall2 (λ x y, (P x ↔ Q y) ∧ (P x → R x y)) l k →
  Forall2 R (filter P l) (filter Q k).
Proof.
  induction 1 as [|x y l k [HPQ HR] _ IH]; [constructor|].
  rewrite !filter_cons.
  destruct (decide (P x)), (decide (Q y)); try tauto.
  constructor; auto.
Qed.

Section ParserEntries.
Context {externals : Externals}.

Lemma deref_concat (h : Heap) (ls : list (list Ref)) :
  deref h (concat ls) = concat (deref h <$> ls).
Proof.
  induction ls as [|rs ls IH]; [done|]. simpl. by rewrite deref_app, IH.
Qed.

Lemma length_deref (h : Heap) (rs : list Ref) :
  Forall (λ r, r < length h) rs → length (deref h rs) = length rs.
Proof. intros Hv. symmetry. by eapply Forall2_length, deref_lookups. Qed.

Lemma snapshot_normalize_entries blockData dbData0 events st :
  ScatterInv blockData dbData0 events st →
  txIds (snapshot (normalize st)) = entryIds dbData0
  ∧ length (concat (mergedEvents <$> snapshot (normalize st)))
    = length (committedEvents events).
Proof.
  intros [Htxs Hsc Hheap Hrefs Hall].
  unfold normalize, snapshot. destruct st as [l h]. simpl in *.
  destruct (normalizeAll l h) as [l' h'] eqn:Hn. simpl.
  assert (Hnd : NoDup (concat (flatEvents <$> l))) by (rewrite Hall; apply NoDup_seq).
  destruct (normalizeAll_spec l h l' h' Hn Hnd) as (Hlen & -> & _).
  split.
  - unfold txIds. rewrite entryIds_txs, <-Htxs.
    rewrite <-!list_fmap_compose. by apply list_fmap_ext.
  - rewrite <-!list_fmap_compose.
    rewrite (list_fmap_ext _ (deref h' ∘ flatEvents) l)
      by (intros i e _; apply mergedEvents_snapshotEntry).
    rewrite list_fmap_compose, <-deref_concat, length_deref.
    + rewrite Hall, length_seq. symmetry. by eapply Forall2_length.
    + apply Forall_forall. intros r Hr. rewrite Hall in Hr.
      apply elem_of_seq in Hr. lia.
Qed.

(** Everything about one transaction of the result: its events are the
    records of its committed events, renumbered [0..N-1] in the order of
    their original indexes, and [event_count] is their number. *)
Lemma parse_entry_spec parsedTxs events blockData chainId out k d :
  parseDataStoreTxEventData parsedTxs events blockData chainId = Ok out →
  out !! k = Some d →
  let mine := committedEventsOf (txIds out) k events in
  length (mergedEvents d) = length mine
  ∧ DbTx.event_count (DataStoreTxEventData.tx d) = Z.of_nat (length mine)
  ∧ DbEvent.event_index <$> mergedEvents d ≡ₚ Z.of_nat <$> seq 0 (length mine)
  ∧ Forall (λ c, DbSmartContract.canonical c = true) (DataStoreTxEventData.smartContracts d)
  ∧ ∃ built pre,
      Forall2 (recordOf blockData (DbTx.tx_index (DataStoreTxEventData.tx d))) mine built
      ∧ pre ≡ₚ built
      ∧ Forall2 renumbered pre (mergedEvents d)
      ∧ (∀ p q a a' b b',
           pre !! p = Some a → pre !! q = Some a' →
           mergedEvents d !! p = Some b → mergedEvents d !! q = Some b' →
           (DbEvent.event_index a < DbEvent.event_index a')%Z →
           (DbEvent.event_index b < DbEvent.event_index b')%Z).
Proof.
  intros Hp Hk mine.
  apply parse_Ok in Hp as (dbData0 & st & Hinit & Hinv & ->).
  destruct (snapshot_normalize_entries _ _ _ _ Hinv) as [Hids _].
  destruct (snapshot_normalize_lookup _ _ _ _ _ _ Hinv Hk)
    as (e & dbTx0 & pre & He & He0 & Htx & Hd & Hsmart & Hpre & Hren & Hperm & Horder).
  set (built := filter (λ ev, ownerOfTxid (entryIds dbData0) (DbEvent.tx_id ev) = Some k)
                  (ParseState.heap st)) in *.
  assert (Hbuilt :
    Forall2 (recordOf blockData (DbTx.tx_index (DataStoreTxEventData.tx d))) mine built).
  { unfold mine, committedEventsOf, built. rewrite Hids.
    apply Forall2_filter_impl.
    eapply Forall2_impl; [apply (inv_heap _ _ _ _ Hinv)|].
    intros event entry (k' & dbTx & Hown & Hk' & Hrec). simpl.
    pose proof (recordOf_tx_id _ _ _ _ Hrec) as Hid.
    unfold ownerOf in *. rewrite Hid. split; [done|].
    intros Hown'. rewrite Hown in Hown'. simplify_eq. by rewrite Hd. }
  assert (Hlen : length (mergedEvents d) = length mine).
  { rewrite <-(Forall2_length _ _ _ Hren), (Permutation_length Hpre).
    symmetry. by eapply Forall2_length. }
  split_and!.
  - done.
  - by rewrite Hd, Hlen.
  - by rewrite <-Hlen.
  - rewrite Hsmart. apply initDbData_Forall in Hinit as [_ Hall].
    rewrite Forall_forall in Hall.
    by apply (Hall dbTx0); eapply list_elem_of_lookup_2.
  - by exists built, pre.
Qed.

(** An event of the result is the renumbered record of a committed event
    of the transaction. *)
Lemma parse_event_origin parsedTxs events blockData chainId out k d ev :
  parseDataStoreTxEventData parsedTxs events blockData chainId = Ok out →
  out !! k = Some d →
  ev ∈ mergedEvents d →
  ∃ event ev0,
    event ∈ events
    ∧ CoreNodeEvent.committed event = true
    ∧ ownerOf (txIds out) event = Some k
    ∧ recordOf blockData (DbTx.tx_index (DataStoreTxEventData.tx d)) event ev0
    ∧ renumbered ev0 ev.
Proof.
  intros Hp Hk Hev.
  destruct (parse_entry_spec _ _ _ _ _ _ _ Hp Hk)
    as (_ & _ & _ & _ & built & pre & Hbuilt & Hpre & Hren & _).
  apply list_elem_of_lookup_1 in Hev as [p Hev].
  destruct (Forall2_lookup_r _ _ _ _ _ Hren Hev) as (ev0 & Hev0 & Hren0).
  apply list_elem_of_lookup_2 in Hev0. rewrite Hpre in Hev0.
  apply list_elem_of_lookup_1 in Hev0 as [q Hev0].
  destruct (Forall2_lookup_r _ _ _ _ _ Hbuilt Hev0) as (event & Hevent & Hrec).
  apply list_elem_of_lookup_2 in Hevent.
  apply list_elem_of_filter in Hevent as [Hown Hevent].
  apply list_elem_of_filter in Hevent as [Hcom Hevent].
  by exists event, ev0.
Qed.

Lemma parse_total_events parsedTxs events blockData chainId out :
  parseDataStoreTxEventData parsedTxs events blockData chainId = Ok out →
  length (concat (mergedEvents <$> out)) = length (committedEvents events).
Proof.
  intros Hp. apply parse_Ok in Hp as (dbData0 & st & _ & Hinv & ->).
  by destruct (snapshot_normalize_entries _ _ _ _ Hinv).
Qed.

Lemma parse_canonical parsedTxs events blockData chainId out :
  parseDataStoreTxEventData parsedTxs events blockData chainId = Ok out →
  Forall (λ flag, flag = true) (concat (txCanonicalFlags <$> out)).
Proof.
  intros Hp. apply Forall_concat, Forall_fmap, Forall_lookup. intros k d Hk. simpl.
  unfold txCanonicalFlags. apply Forall_app. split; apply Forall_fmap, Forall_forall.
  - destruct (parse_entry_spec _ _ _ _ _ _ _ Hp Hk) as (_ & _ & _ & Hsmart & _).
    by rewrite Forall_forall in Hsmart.
  - intros ev Hev. simpl.
    destruct (parse_event_origin _ _ _ _ _ _ _ _ Hp Hk Hev)
      as (event & ev0 & _ & _ & _ & Hrec & Hren).
    rewrite (renumbered_canonical _ _ Hren). by eapply recordOf_canonical.
Qed.

(** *** A committed event without a transaction *)

Lemma processEvent_txs parsedTxs allEvents blockData chainId st event st' :
  processEvent parsedTxs allEvents blockData chainId st event = Ok st' →
  entryIds (ParseState.dbData st') = entryIds (ParseState.dbData st).
Proof.
  intros Hp. apply processEvent_Ok in Hp
    as [[_ ->]|(_ & k & dbTx & b & entry & f & _ & _ & Hf & ->)]; [done|].
  unfold updateEntry, pushEvent. simpl. rewrite !entryIds_txs. f_equal.
  rewrite fmap_alter_keep by (intros e; apply Hf).
  by rewrite fmap_alter_keep.
Qed.

Lemma scatterEvents_missing_tx parsedTxs allEvents blockData chainId events st event :
  event ∈ events →
  CoreNodeEvent.committed event = true →
  ownerOf (entryIds (ParseState.dbData st)) event = None →
  isThrow (scatterEvents parsedTxs allEvents blockData chainId events st).
Proof.
  intros Hin Hcom. revert st.
  induction events as [|event' events IH]; intros st Hnone; [by apply elem_of_nil in Hin|].
  simpl. apply isThrow_bind_r. intros st' Hp.
  apply elem_of_cons in Hin as [<-|Hin].
  - exfalso. unfold processEvent in Hp. rewrite Hcom in Hp. simpl in Hp.
    unfold ownerOf in Hnone. rewrite ownerOfTxid_findDbTx in Hnone.
    by destruct (findDbTx _ _).
  - apply IH; [done|]. unfold ownerOf in *. by rewrite (processEvent_txs _ _ _ _ _ _ _ Hp).
Qed.

Lemma parse_missing_tx parsedTxs events blockData chainId event :
  event ∈ events →
  CoreNodeEvent.committed event = true →
  (∀ dbData,
     initDbData blockData chainId parsedTxs = Ok dbData →
     Forall (λ e, DbTx.tx_id (TxEntry.tx e) ≠ CoreNodeEvent.txid event) dbData) →
  isThrow (parseDataStoreTxEventData parsedTxs events blockData chainId).
Proof.
  intros Hin Hcom Hmiss. unfold parseDataStoreTxEventData, scatter.
  apply isThrow_bind_l, isThrow_bind_r. intros dbData Hinit.
  eapply scatterEvents_missing_tx; [done..|]. simpl.
  unfold ownerOf. rewrite ownerOfTxid_findDbTx.
  by rewrite (proj2 (findDbTx_None dbData _) (Hmiss dbData Hinit)).
Qed.

End ParserEntries.

(** ** The handlers, step by step *)

Section HandlerFacts.
Context {externals : Externals} {dataStore : DataStore}.

(** A record built from its position carries that position. *)
Lemma imap_positions {A B} (f : nat → A → B) (g : B → Z) (l : list A) :
  (∀ i x, g (f i x) = Z.of_nat i) →
  g <$> imap f l = Z.of_nat <$> seq 0 (length l).
Proof.
  intros Hg. apply list_eq. intros i.
  rewrite !list_lookup_fmap, list_lookup_imap.
  destruct (l !! i) as [x|] eqn:Hi; simpl.
  - apply lookup_lt_Some in Hi. rewrite lookup_seq_lt by done. simpl. by rewrite Hg.
  - apply lookup_ge_None in Hi. by rewrite lookup_seq_ge.
Qed.

Lemma dbCall_calls (c : StoreCall) (w : World) :
  calls (dbCall c w).2 = calls w ++ [c].
Proof. unfold dbCall. by destruct (dbRun c (db w)). Qed.

Lemma dbCall_Ok (c : StoreCall) (w : World) :
  (dbCall c w).1 = Ok () ↔ (dbRun c (db w)).1 = None.
Proof.
  unfold dbCall. destruct (dbRun c (db w)) as [[e|] s]; simpl; split; done.
Qed.

(** The anchor-block handler either throws before it has touched the
    store, or calls [update] once with the bundle it has built. *)
Lemma handleBlockMessage_cases (chainId : ChainID) (msg : CoreNodeBlockMessage.t)
    (w : World) :
  (∃ e, handleBlockMessage chainId msg w = (Throw e, w))
  ∨ (∃ parsedTxs dbMinerRewards partials txs,
       parseTransactions chainId (blockDataOfMsg msg) (CoreNodeBlockMessage.events msg)
         (CoreNodeBlockMessage.transactions msg) = Ok parsedTxs
       ∧ mapResult (mkDbMinerReward msg) (CoreNodeBlockMessage.matured_miner_rewards msg)
         = Ok dbMinerRewards
       ∧ parseDataStoreTxEventData parsedTxs (CoreNodeBlockMessage.events msg)
           {| BlockRef.block_height := CoreNodeBlockMessage.block_height msg;
              BlockRef.index_block_hash := CoreNodeBlockMessage.index_block_hash msg |}
           chainId = Ok txs
       ∧ handleBlockMessage chainId msg w =
           dbCall (update {| DataStoreBlockUpdateData.block := mkDbBlock msg;
                             DataStoreBlockUpdateData.microblocks :=
                               mkDbMicroblock msg <$> partials;
                             DataStoreBlockUpdateData.minerRewards := dbMinerRewards;
                             DataStoreBlockUpdateData.txs := txs |}) w).
Proof.
  unfold handleBlockMessage. rewrite lift_bind.
  destruct (parseTransactions _ _ _ _) as [parsedTxs|e]; [|by left; exists e].
  rewrite lift_bind.
  destruct (mapResult _ _) as [dbMinerRewards|e]; [|by left; exists e].
  rewrite lift_bind.
  destruct (parseMicroblocksFromTxs _ _ _ _ _) as [partials|e]; [|by left; exists e].
  rewrite lift_bind.
  destruct (parseDataStoreTxEventData _ _ _ _) as [txs|e] eqn:Htxs; [|by left; exists e].
  right. by exists parsedTxs, dbMinerRewards, partials, txs.
Qed.

Lemma handleMicroblockMessage_cases (chainId : ChainID) (msg : CoreNodeMicroblockMessage.t)
    (w : World) :
  (∃ e, handleMicroblockMessage chainId msg w = (Throw e, w))
  ∨ (∃ dbMicroblocks parsedTxs txs,
       parseMicroblocksFromTxs
         (CoreNodeMicroblockMessage.parent_index_block_hash msg)
         (CoreNodeMicroblockMessage.transactions msg)
         (CoreNodeMicroblockMessage.burn_block_height msg)
         (CoreNodeMicroblockMessage.burn_block_hash msg)
         (CoreNodeMicroblockMessage.burn_block_timestamp msg) = Ok dbMicroblocks
       ∧ runParserCalls (microblockParserCalls chainId msg) = Ok parsedTxs
       ∧ parseDataStoreTxEventData parsedTxs (CoreNodeMicroblockMessage.events msg)
           {| BlockRef.block_height := -1; BlockRef.index_block_hash := "" |} chainId
         = Ok txs
       ∧ handleMicroblockMessage chainId msg w =
           dbCall (updateMicroblocks
                     {| DataStoreMicroblockUpdateData.microblocks := dbMicroblocks;
                        DataStoreMicroblockUpdateData.txs := txs |}) w).
Proof.
  unfold handleMicroblockMessage. rewrite lift_bind.
  destruct (parseMicroblocksFromTxs _ _ _ _ _) as [dbMicroblocks|e]; [|by left; exists e].
  rewrite lift_bind.
  destruct (runParserCalls _) as [parsedTxs|e]; [|by left; exists e].
  rewrite lift_bind.
  destruct (parseDataStoreTxEventData _ _ _ _) as [txs|e] eqn:Htxs; [|by left; exists e].
  right. by exists dbMicroblocks, parsedTxs, txs.
Qed.

(** A transaction that does not decode makes the whole [forEach] throw. *)
Lemma runParserCalls_decode_failure (chainId : ChainID) (blockData : CoreNodeMsgBlockData.t)
    (events : list CoreNodeEvent.t) (transactions : list CoreNodeTxMessage.t)
    (tx : CoreNodeTxMessage.t) :
  tx ∈ transactions →
  isThrow (decodeRawTx tx) →
  isThrow (runParserCalls (parserCalls chainId blockData events transactions)).
Proof.
  intros Hin Hdec. induction transactions as [|tx' l IH]; [by apply elem_of_nil in Hin|].
  apply elem_of_cons in Hin as [->|Hin]; simpl.
  - apply isThrow_bind_l. unfold parseMessageTransaction.
    by destruct (decodeRawTx tx').
  - apply isThrow_bind_r. intros ? _. apply isThrow_bind_l. by apply IH.
Qed.

End HandlerFacts.

(** ** The claims about the handlers *)

Section HandlerClaims.
Context {externals : Externals} {dataStore : DataStore}.

(** C2.  A block or microblock message with a transaction whose raw bytes
    do not decode: the handler ends with an error and the world is the one
    it started from, so no call to the store was made and the store has not
    changed. *)
Theorem undecodable_transaction_aborts_message (chainId : ChainID) :
  (∀ msg w tx,
     tx ∈ CoreNodeBlockMessage.transactions msg →
     isThrow (decodeRawTx tx) →
     ∃ e, handleBlockMessage chainId msg w = (Throw e, w))
  ∧ (∀ msg w tx,
       tx ∈ CoreNodeMicroblockMessage.transactions msg →
       isThrow (decodeRawTx tx) →
       ∃ e, handleMicroblockMessage chainId msg w = (Throw e, w)).
Proof.
  split; intros msg w tx Hin Hdec.
  - unfold handleBlockMessage. apply lift_bind_Throw.
    by eapply runParserCalls_decode_failure.
  - unfold handleMicroblockMessage. rewrite lift_bind.
    destruct (parseMicroblocksFromTxs _ _ _ _ _) as [dbMicroblocks|e]; [|by exists e].
    apply lift_bind_Throw. by eapply runParserCalls_decode_failure.
Qed.


(** C8.  The burn-block handler builds one reward per entry of
    [reward_recipients] and one slot holder per entry of
    [reward_slot_holders], in the order of the message and with the
    position as [reward_index] and [slot_index]; the first list goes to
    [updateBurnchainRewards], the second to
    [updateBurnchainRewardSlotHolders] once the first call has succeeded. *)
Theorem burn_block_records_follow_positions (msg : CoreNodeBurnBlockMessage.t)
    (w : World) :
  ∃ rewards slotHolders,
    (∀ i : nat,
       rewards !! i =
         mkDbBurnchainReward msg i <$> CoreNodeBurnBlockMessage.reward_recipients msg !! i)
    ∧ (∀ i : nat,
         slotHolders !! i =
           mkDbRewardSlotHolder msg i <$> CoreNodeBurnBlockMessage.reward_slot_holders msg !! i)
    ∧ length rewards = length (CoreNodeBurnBlockMessage.reward_recipients msg)
    ∧ length slotHolders = length (CoreNodeBurnBlockMessage.reward_slot_holders msg)
    ∧ DbBurnchainReward.reward_index <$> rewards = Z.of_nat <$> seq 0 (length rewards)
    ∧ DbBurnchainReward.reward_recipient <$> rewards
        = RewardRecipient.recipient <$> CoreNodeBurnBlockMessage.reward_recipients msg
    ∧ DbRewardSlotHolder.slot_index <$> slotHolders
        = Z.of_nat <$> seq 0 (length slotHolders)
    ∧ DbRewardSlotHolder.address <$> slotHolders
        = CoreNodeBurnBlockMessage.reward_slot_holders msg
    ∧ let first :=
        updateBurnchainRewards (CoreNodeBurnBlockMessage.burn_block_hash msg)
          (CoreNodeBurnBlockMessage.burn_block_height msg) rewards in
      let second :=
        updateBurnchainRewardSlotHolders (CoreNodeBurnBlockMessage.burn_block_hash msg)
          (CoreNodeBurnBlockMessage.burn_block_height msg) slotHolders in
      calls (handleBurnBlockMessage msg w).2 =
        calls w ++ match (dbRun first (db w)).1 with
                   | None => [first; second]
                   | Some _ => [first]
                   end.
Proof.
  exists (imap (mkDbBurnchainReward msg) (CoreNodeBurnBlockMessage.reward_recipients msg)),
    (imap (mkDbRewardSlotHolder msg) (CoreNodeBurnBlockMessage.reward_slot_holders msg)).
  split_and!.
  - intros i. apply list_lookup_imap.
  - intros i. apply list_lookup_imap.
  - apply length_imap.
  - apply length_imap.
  - rewrite length_imap. apply imap_positions. done.
  - apply list_eq. intros i.
    rewrite !list_lookup_fmap, list_lookup_imap.
    by destruct (_ !! i).
  - rewrite length_imap. apply imap_positions. done.
  - apply list_eq. intros i.
    rewrite !list_lookup_fmap, list_lookup_imap.
    by destruct (_ !! i).
  - simpl. unfold handleBurnBlockMessage, mbind, Task_bind.
    match goal with |- context [dbCall ?c w] => set (first := c) end.
    pose proof (dbCall_calls first w) as Hc.
    pose proof (dbCall_Ok first w) as Hok.
    destruct (dbCall first w) as [[[]|e] w1] eqn:Hfirst; simpl in *.
    + destruct (dbRun first (db w)).1; [by destruct Hok as [Hok _]; specialize (Hok eq_refl)|].
      rewrite dbCall_calls, Hc, <-(assoc_L (++)). done.
    + destruct (dbRun first (db w)).1; [done|].
      by destruct Hok as [_ Hok]; specialize (Hok eq_refl).
Qed.

(** C10.  Whatever the message, the only call the anchor-block handler can
    add to the calls of the store is one [update], and the block of its
    bundle has the five execution costs equal to 0; when the handler
    returns normally that call has been made. *)
Theorem block_execution_costs_are_zero (chainId : ChainID)
    (msg : CoreNodeBlockMessage.t) (w : World) :
  ∃ new,
    calls (handleBlockMessage chainId msg w).2 = calls w ++ new
    ∧ length new ≤ 1
    ∧ ((handleBlockMessage chainId msg w).1 = Ok () → length new = 1)
    ∧ Forall (λ c, ∃ data,
                c = update data
                ∧ let block := DataStoreBlockUpdateData.block data in
                  DbBlock.execution_cost_read_count block = 0%Z
                  ∧ DbBlock.execution_cost_read_length block = 0%Z
                  ∧ DbBlock.execution_cost_runtime block = 0%Z
                  ∧ DbBlock.execution_cost_write_count block = 0%Z
                  ∧ DbBlock.execution_cost_write_length block = 0%Z) new.
Proof.
  destruct (handleBlockMessage_cases chainId msg w)
    as [[e ->]|(parsedTxs & dbMinerRewards & partials & txs & _ & _ & _ & ->)].
  - exists []. simpl. rewrite app_nil_r. split_and!; [done|lia|done|constructor].
  - eexists [_]. rewrite dbCall_calls. split_and!; [done|simpl; lia|done|].
    apply Forall_singleton. eexists. split; [done|]. simpl. done.
Qed.

End HandlerClaims.

(** ** The claims about the parser *)

Section ParserClaims.
Context {externals : Externals}.

(** C1.  For every transaction of the result of
    [parseDataStoreTxEventData]: with N the number of committed events of
    the message that belong to it, the transaction has N events in its
    merged arrays, their [event_index] values are exactly 0..N-1,
    [event_count] is N, the events are the records built from those
    committed events (with the block-relative index of each) up to the new
    indexes, and whenever one event had a smaller original index than
    another it has the smaller new index too. *)
Theorem event_indexes_normalized parsedTxs events blockData chainId out k d :
  parseDataStoreTxEventData parsedTxs events blockData chainId = Ok out →
  out !! k = Some d →
  let mine := committedEventsOf (txIds out) k events in
  let N := length mine in
  length (mergedEvents d) = N
  ∧ DbTx.event_count (DataStoreTxEventData.tx d) = Z.of_nat N
  ∧ DbEvent.event_index <$> mergedEvents d ≡ₚ Z.of_nat <$> seq 0 N
  ∧ ∃ built pre,
      Forall2 (recordOf blockData (DbTx.tx_index (DataStoreTxEventData.tx d))) mine built
      ∧ pre ≡ₚ built
      ∧ Forall2 renumbered pre (mergedEvents d)
      ∧ (∀ p q a a' b b',
           pre !! p = Some a → pre !! q = Some a' →
           mergedEvents d !! p = Some b → mergedEvents d !! q = Some b' →
           (DbEvent.event_index a < DbEvent.event_index a')%Z →
           (DbEvent.event_index b < DbEvent.event_index b')%Z).
Proof.
  intros Hp Hk mine N.
  destruct (parse_entry_spec _ _ _ _ _ _ _ Hp Hk) as (Hlen & Hcount & Hperm & _ & Hrest).
  by split_and!.
Qed.


End ParserClaims.

Lemma mapResult_Forall {A B} (f : A → Result B) (P : B → Prop) (l : list A) (ys : list B) :
  mapResult f l = Ok ys → (∀ x y, f x = Ok y → P y) → Forall P ys.
Proof.
  intros Hm Hf. revert ys Hm. induction l as [|x l IH]; intros ys Hm; simpl in Hm.
  - simplify_eq. constructor.
  - apply Result_bind_Ok in Hm as (y & Hy & Hm).
    apply Result_bind_Ok in Hm as (ys' & Hys & Hm). simplify_eq.
    constructor; [by eapply Hf|by apply IH].
Qed.

Section BundleClaims.
Context {externals : Externals} {dataStore : DataStore}.

(** C5.  A committed event whose [txid] is the [tx_id] of no transaction of
    the bundle makes [parseDataStoreTxEventData] throw; the handler that
    called it for a block or microblock message then ends with an error in
    the world it started from, so nothing of the message reaches the
    store. *)
Theorem missing_transaction_is_fatal chainId parsedTxs events blockData event :
  event ∈ events →
  CoreNodeEvent.committed event = true →
  (∀ dbData,
     initDbData blockData chainId parsedTxs = Ok dbData →
     Forall (λ e, DbTx.tx_id (TxEntry.tx e) ≠ CoreNodeEvent.txid event) dbData) →
  isThrow (parseDataStoreTxEventData parsedTxs events blockData chainId)
  ∧ (∀ msg w,
       CoreNodeBlockMessage.events msg = events →
       blockData = {| BlockRef.block_height := CoreNodeBlockMessage.block_height msg;
                      BlockRef.index_block_hash :=
                        CoreNodeBlockMessage.index_block_hash msg |} →
       parseTransactions chainId (blockDataOfMsg msg) events
         (CoreNodeBlockMessage.transactions msg) = Ok parsedTxs →
       ∃ e, handleBlockMessage chainId msg w = (Throw e, w))
  ∧ (∀ msg w,
       CoreNodeMicroblockMessage.events msg = events →
       blockData = {| BlockRef.block_height := -1; BlockRef.index_block_hash := "" |} →
       runParserCalls (microblockParserCalls chainId msg) = Ok parsedTxs →
       ∃ e, handleMicroblockMessage chainId msg w = (Throw e, w)).
Proof.
  intros Hin Hcom Hmiss.
  pose proof (parse_missing_tx _ _ _ chainId _ Hin Hcom Hmiss) as Hthrow.
  split_and!; [done|..]; intros msg w Hev Hbd Hparsed; subst.
  - destruct (handleBlockMessage_cases chainId msg w)
      as [?|(parsedTxs' & ? & ? & txs & Hp' & _ & Htxs & _)]; [done|].
    rewrite Hparsed in Hp'. injection Hp' as <-. by rewrite Htxs in Hthrow.
  - destruct (handleMicroblockMessage_cases chainId msg w)
      as [?|(? & parsedTxs' & txs & _ & Hp' & Htxs & _)]; [done|].
    rewrite Hparsed in Hp'. injection Hp' as <-. by rewrite Htxs in Hthrow.
Qed.

(** C6.  Whatever the message, every call that the anchor-block, microblock
    or burn-block handler makes to the store carries [canonical = true] on
    every record the handlers build: the block, the microblocks completed
    from the anchor block, miner rewards, burnchain rewards, reward slot
    holders, and the smart contracts and events of every transaction.  The
    microblock handler passes on the microblock records of the reader as
    they are. *)
Theorem handler_records_are_canonical (chainId : ChainID) :
  (∀ msg w,
     ∃ new,
       calls (handleBlockMessage chainId msg w).2 = calls w ++ new
       ∧ Forall (λ c, Forall (λ flag, flag = true) (canonicalFlags c)) new)
  ∧ (∀ msg w,
       ∃ new,
         calls (handleMicroblockMessage chainId msg w).2 = calls w ++ new
         ∧ Forall (λ c, Forall (λ flag, flag = true) (canonicalFlags c)) new
         ∧ Forall (λ c, ∃ data,
                     c = updateMicroblocks data
                     ∧ parseMicroblocksFromTxs
                         (CoreNodeMicroblockMessage.parent_index_block_hash msg)
                         (CoreNodeMicroblockMessage.transactions msg)
                         (CoreNodeMicroblockMessage.burn_block_height msg)
                         (CoreNodeMicroblockMessage.burn_block_hash msg)
                         (CoreNodeMicroblockMessage.burn_block_timestamp msg)
                       = Ok (DataStoreMicroblockUpdateData.microblocks data)) new)
  ∧ (∀ msg w,
       ∃ new,
         calls (handleBurnBlockMessage msg w).2 = calls w ++ new
         ∧ Forall (λ c, Forall (λ flag, flag = true) (canonicalFlags c)) new).
Proof.
  split_and!; intros msg w.
  - destruct (handleBlockMessage_cases chainId msg w)
      as [[e ->]|(parsedTxs & dbMinerRewards & partials & txs & _ & Hrewards & Htxs & ->)].
    + exists []. simpl. by rewrite app_nil_r.
    + eexists [_]. rewrite dbCall_calls. split; [done|].
      apply Forall_singleton. simpl. constructor; [done|].
      rewrite !Forall_app. split_and!.
      * do 2 apply Forall_fmap. by apply Forall_true.
      * do 2 apply Forall_fmap. by apply Forall_true.
      * apply Forall_fmap. eapply mapResult_Forall; [exact Hrewards|].
        intros r y Hy. unfold mkDbMinerReward in Hy.
        repeat (apply Result_bind_Ok in Hy as (? & _ & Hy)). by simplify_eq.
      * by eapply parse_canonical.
  - destruct (handleMicroblockMessage_cases chainId msg w)
      as [[e ->]|(dbMicroblocks & parsedTxs & txs & Hmb & _ & Htxs & ->)].
    + exists []. simpl. by rewrite app_nil_r.
    + eexists [_]. rewrite dbCall_calls. split_and!; [done|..].
      * apply Forall_singleton. simpl. by eapply parse_canonical.
      * apply Forall_singleton. by eexists.
  - unfold handleBurnBlockMessage, mbind, Task_bind.
    match goal with |- context [dbCall ?c w] => set (first := c) end.
    pose proof (dbCall_calls first w) as Hc.
    assert (Hfirst : Forall (λ flag, flag = true) (canonicalFlags first)).
    { simpl. apply Forall_fmap, Forall_forall. intros x Hx.
      apply list_elem_of_lookup_1 in Hx as [i Hx]. rewrite list_lookup_imap in Hx.
      destruct (_ !! i); by simplify_eq/=. }
    destruct (dbCall first w) as [[[]|e] w1]; cbn [fst snd] in *.
    + eexists [first; _]. rewrite dbCall_calls, Hc, <-(assoc_L (++)).
      split; [done|]. constructor; [done|]. apply Forall_singleton.
      simpl. apply Forall_fmap, Forall_forall. intros x Hx.
      apply list_elem_of_lookup_1 in Hx as [i Hx]. rewrite list_lookup_imap in Hx.
      destruct (_ !! i); by simplify_eq/=.
    + exists [first]. split; [done|]. by apply Forall_singleton.
Qed.

End BundleClaims.

(** ** The claims about the server and the execution mode *)

Section ServerClaims.
Context {externals : Externals} {dataStore : DataStore}.

Lemma enqueue_run {A} (task : Task A) (w : World) : enqueue task w = task w.
Proof. unfold enqueue, tryCatch, lift. by destruct (task w) as [[a|e] w']. Qed.

Lemma appends_enqueue {A} (task : Task A) : appends task → appends (enqueue task).
Proof. intros Ht w. rewrite enqueue_run. apply Ht. Qed.

Lemma appends_handleBlockMessage chainId msg : appends (handleBlockMessage chainId msg).
Proof. unfold handleBlockMessage. solve_appends. Qed.

Lemma appends_handleMicroblockMessage chainId msg :
  appends (handleMicroblockMessage chainId msg).
Proof. unfold handleMicroblockMessage. solve_appends. Qed.

Lemma appends_handleBurnBlockMessage msg : appends (handleBurnBlockMessage msg).
Proof. unfold handleBurnBlockMessage. solve_appends. Qed.

Lemma appends_handleMempoolTxsMessage rawTxs : appends (handleMempoolTxsMessage rawTxs).
Proof.
  intros w. unfold handleMempoolTxsMessage.
  match goal with
  | |- ∃ new, calls (?m w).2 = _ => cut (appends m); [intros Hm; apply Hm|]
  end.
  solve_appends.
Qed.

Lemma appends_handleDroppedMempoolTxsMessage msg :
  appends (handleDroppedMempoolTxsMessage msg).
Proof. unfold handleDroppedMempoolTxsMessage. solve_appends. Qed.

Lemma appends_handleNewAttachmentMessage msg : appends (handleNewAttachmentMessage msg).
Proof. unfold handleNewAttachmentMessage. solve_appends. Qed.

Lemma appends_typedRoute (handler : Task unit) : appends handler → appends (typedRoute handler).
Proof. intros Hh. unfold typedRoute. solve_appends. done. Qed.

Lemma serve_appends (layers : list Layer) (req : Request.t) (w : World) :
  Forall (λ layer, appends (layer_handle layer req)) layers →
  ∃ new, calls (serve layers req w).2 = calls w ++ new.
Proof.
  intros Hall. revert w. induction Hall as [|layer layers Hl _ IH]; intros w; simpl.
  - exists []. by rewrite app_nil_r.
  - destruct (layerMatches layer req); [|apply IH].
    destruct (Hl w) as [new1 H1].
    destruct (layer_handle layer req w) as [[[|res]|e] w1]; simpl in *.
    + destruct (IH w1) as [new2 H2]. exists (new1 ++ new2).
      by rewrite H2, H1, (assoc_L (++)).
    + by exists new1.
    + by exists new1.
Qed.

Lemma typedRoutes_append (chainId : ChainID) (req : Request.t) :
  Forall (λ layer, appends (layer_handle layer req))
    (typedRoutes createMessageProcessorQueue chainId).
Proof.
  unfold typedRoutes.
  repeat (constructor; [simpl|]); [..|constructor];
    try (apply appends_typedRoute; apply appends_bind;
         [apply appends_lift|intros ?; simpl; apply appends_enqueue]).
  - apply appends_handleBlockMessage.
  - apply appends_handleBurnBlockMessage.
  - apply appends_handleMempoolTxsMessage.
  - apply appends_handleDroppedMempoolTxsMessage.
  - apply appends_handleNewAttachmentMessage.
  - apply appends_handleMicroblockMessage.
  - apply appends_ret.
Qed.

(** C3.  For a POST request the server first hands the pair of [req.path]
    and the serialized body to [handleRawEventRequest]; only when that has
    succeeded do the typed routes see the request, in the world it left,
    and when it fails the response has status 500 and no typed route runs.
    With the handlers of [createMessageProcessorQueue] the first call to
    the store is therefore [storeRawEventRequest] with that path and
    payload, every other call of the request comes after it, and there is
    none when it fails. *)
Theorem raw_request_recorded_before_typed_handler
    (messageHandler : option EventMessageHandler.t) (chainId : ChainID)
    (req : Request.t) (w : World) :
  Request.method req = POST →
  let handler := default createMessageProcessorQueue messageHandler in
  let eventPath := Request.path req in
  let payload := JSON_stringify (Request.body req) in
  let record := storeRawEventRequest eventPath payload in
  serve (startEventServer messageHandler chainId) req w =
    match EventMessageHandler.handleRawEventRequest handler eventPath payload w with
    | (Ok _, w1) => serve (typedRoutes handler chainId) req w1
    | (Throw error, w1) => (errorResponse error, w1)
    end
  ∧ ∃ later,
      calls (serve (startEventServer None chainId) req w).2 = calls w ++ record :: later
      ∧ ((dbRun record (db w)).1 ≠ None →
         later = []
         ∧ Response.status (serve (startEventServer None chainId) req w).1 = 500%Z).
Proof.
  intros Hmethod handler eventPath payload record.
  assert (Hserve : ∀ mh,
    serve (startEventServer mh chainId) req w =
      match EventMessageHandler.handleRawEventRequest (default createMessageProcessorQueue mh)
              eventPath payload w with
      | (Ok _, w1) => serve (typedRoutes (default createMessageProcessorQueue mh) chainId) req w1
      | (Throw error, w1) => (errorResponse error, w1)
      end).
  { intros mh. unfold startEventServer. simpl.
    unfold layerMatches at 1. simpl. rewrite Hmethod. simpl.
    unfold layerMatches at 1. simpl. rewrite Hmethod. simpl.
    unfold storeRawRequest, mbind, Task_bind. fold eventPath payload.
    by destruct (EventMessageHandler.handleRawEventRequest _ eventPath payload w)
      as [[[]|e] w1]. }
  split; [apply Hserve|].
  rewrite (Hserve None).
  change (default createMessageProcessorQueue None) with createMessageProcessorQueue.
  change (EventMessageHandler.handleRawEventRequest createMessageProcessorQueue
            eventPath payload w)
    with (enqueue (handleRawEventRequest eventPath payload) w).
  rewrite enqueue_run. unfold handleRawEventRequest. fold record.
  pose proof (dbCall_calls record w) as Hc.
  pose proof (dbCall_Ok record w) as Hok.
  destruct (dbCall record w) as [[[]|e] w1]; cbn [fst snd] in *.
  - destruct (serve_appends (typedRoutes createMessageProcessorQueue chainId) req w1
                (typedRoutes_append chainId req)) as [new Hnew].
    exists new. split.
    + by rewrite Hnew, Hc, <-(assoc_L (++)).
    + intros Hfail. by destruct Hok as [Hok _]; specialize (Hok eq_refl).
  - exists []. by rewrite Hc.
Qed.

End ServerClaims.

Section ApiModeClaims.
Context {externals : Externals}.

(** C9.  [getApiMode] answers readonly, writeonly or offline when
    [STACKS_API_MODE] is that string.  For any other value, and when the
    variable is not set, it answers readonly if [parseArgBoolean] reads
    [STACKS_READ_ONLY_MODE] as true, otherwise offline if it reads
    [STACKS_API_OFFLINE_MODE] as true, otherwise default. *)
Theorem getApiMode_resolution (env : gmap string string) :
  (env !! "STACKS_API_MODE" = Some "readonly" → getApiMode env = Ok StacksApiMode.readOnly)
  ∧ (env !! "STACKS_API_MODE" = Some "writeonly" →
     getApiMode env = Ok StacksApiMode.writeOnly)
  ∧ (env !! "STACKS_API_MODE" = Some "offline" → getApiMode env = Ok StacksApiMode.offline)
  ∧ (env !! "STACKS_API_MODE" ∉ [Some "readonly"; Some "writeonly"; Some "offline"] →
     (parseArgBoolean (env !! "STACKS_READ_ONLY_MODE") = Ok true →
      getApiMode env = Ok StacksApiMode.readOnly)
     ∧ (parseArgBoolean (env !! "STACKS_READ_ONLY_MODE") = Ok false →
        parseArgBoolean (env !! "STACKS_API_OFFLINE_MODE") = Ok true →
        getApiMode env = Ok StacksApiMode.offline)
     ∧ (parseArgBoolean (env !! "STACKS_READ_ONLY_MODE") = Ok false →
        parseArgBoolean (env !! "STACKS_API_OFFLINE_MODE") = Ok false →
        getApiMode env = Ok StacksApiMode.default)).
Proof.
  unfold getApiMode. split_and!.
  - intros ->. by rewrite decide_True.
  - intros ->. rewrite decide_False by done. by rewrite decide_True.
  - intros ->. rewrite !decide_False by done. by rewrite decide_True.
  - intros Hother.
    rewrite !decide_False by (intros Heq; apply Hother; rewrite Heq; set_solver).
    split_and!.
    + by intros ->.
    + by intros -> ->.
    + by intros -> ->.
Qed.

End ApiModeClaims.

(** ** The claims on the sample instance *)

Lemma event_indexes_normalized_witness :
  parseDataStoreTxEventData Sample.scenarioTxs Sample.scenarioEvents Sample.blockRef 1%Z
    = Ok Sample.scenarioResult
  ∧ DbTx.event_count <$> (DataStoreTxEventData.tx <$> Sample.scenarioResult) = [2%Z; 2%Z]
  ∧ ∀ k d,
      Sample.scenarioResult !! k = Some d →
      DbEvent.event_index <$> mergedEvents d ≡ₚ [0%Z; 1%Z].
Proof.
  split; [reflexivity|]. split; [reflexivity|].
  intros k d Hk.
  destruct (event_indexes_normalized (externals := Sample.externals) Sample.scenarioTxs Sample.scenarioEvents Sample.blockRef
              1%Z Sample.scenarioResult k d ltac:(vm_compute; reflexivity) Hk) as (_ & _ & Hperm & _).
  destruct k as [|[|k]]; simpl in Hk; [injection Hk as <-..|discriminate]; exact Hperm.
Defined.

Lemma undecodable_transaction_aborts_message_witness :
  (∃ e, handleBlockMessage 1%Z
          (Sample.blockMessage [Sample.coreTx "T1" "0x1234"; Sample.coreTx "T2" "0x"])
          Sample.world0 = (Throw e, Sample.world0))
  ∧ (∃ e, handleMicroblockMessage 1%Z
            (Sample.microblockMessage [Sample.coreTx "T1" "0x1234"; Sample.coreTx "T2" "0x"])
            Sample.world0 = (Throw e, Sample.world0)).
Proof.
  split.
  - apply (proj1 (undecodable_transaction_aborts_message 1%Z) _ _ (Sample.coreTx "T2" "0x")).
    + apply (list_elem_of_lookup_2 _ 1). reflexivity.
    + exact I.
  - apply (proj2 (undecodable_transaction_aborts_message 1%Z) _ _ (Sample.coreTx "T2" "0x")).
    + apply (list_elem_of_lookup_2 _ 1). reflexivity.
    + exact I.
Defined.

Lemma raw_request_recorded_before_typed_handler_witness :
  let refused := {| Request.method := POST; Request.path := ""; Request.body := JsNull |} in
  let accepted :=
    {| Request.method := POST; Request.path := "/new_block"; Request.body := JsNull |} in
  (Response.status (serve (startEventServer None 1%Z) refused Sample.world0).1 = 500%Z
   ∧ calls (serve (startEventServer None 1%Z) refused Sample.world0).2
     = [storeRawEventRequest "" "{}"])
  ∧ ∃ later,
      calls (serve (startEventServer None 1%Z) accepted Sample.world0).2
      = storeRawEventRequest "/new_block" "{}" :: later.
Proof.
  intros refused accepted. split.
  - destruct (raw_request_recorded_before_typed_handler None 1%Z refused Sample.world0 eq_refl)
      as [_ (later & Hcalls & Hfail)].
    destruct (Hfail ltac:(discriminate)) as [-> Hstatus].
    split; [exact Hstatus|exact Hcalls].
  - destruct (raw_request_recorded_before_typed_handler None 1%Z accepted Sample.world0 eq_refl)
      as [_ (later & Hcalls & _)].
    exists later. exact Hcalls.
Defined.


Lemma missing_transaction_is_fatal_witness :
  isThrow (parseDataStoreTxEventData [Sample.parsedTx "T1"] [Sample.stxTransfer "T9" 0 true]
             Sample.blockRef 1%Z).
Proof.
  refine (proj1 (missing_transaction_is_fatal (dataStore := Sample.store) 1%Z [Sample.parsedTx "T1"]
                   [Sample.stxTransfer "T9" 0 true] Sample.blockRef
                   (Sample.stxTransfer "T9" 0 true) _ eq_refl _)).
  - apply (list_elem_of_lookup_2 _ 0). reflexivity.
  - intros dbData Hinit. injection Hinit as <-.
    apply Forall_singleton. discriminate.
Defined.

Lemma getApiMode_resolution_witness :
  getApiMode {[ "STACKS_API_MODE" := "readonly" ]} = Ok StacksApiMode.readOnly
  ∧ getApiMode {[ "STACKS_API_MODE" := "default"; "STACKS_READ_ONLY_MODE" := "1" ]}
    = Ok StacksApiMode.readOnly
  ∧ getApiMode {[ "STACKS_API_OFFLINE_MODE" := "1" ]} = Ok StacksApiMode.offline
  ∧ getApiMode (∅ : gmap string string) = Ok StacksApiMode.default.
Proof.
  assert (Hother : ∀ v : option string,
            v ≠ Some "readonly" → v ≠ Some "writeonly" → v ≠ Some "offline" →
            v ∉ [Some "readonly"; Some "writeonly"; Some "offline"]).
  { intros v H1 H2 H3 Hin.
    repeat (apply elem_of_cons in Hin as [Hin|Hin]; [congruence|]).
    by apply elem_of_nil in Hin. }
  split_and!.
  - apply (proj1 (getApiMode_resolution {[ "STACKS_API_MODE" := "readonly" ]})).
    by vm_compute.
  - apply (proj2 (proj2 (proj2 (getApiMode_resolution
             {[ "STACKS_API_MODE" := "default"; "STACKS_READ_ONLY_MODE" := "1" ]})))).
    + apply Hother; by vm_compute.
    + by vm_compute.
  - apply (proj2 (proj2 (proj2 (getApiMode_resolution
             {[ "STACKS_API_OFFLINE_MODE" := "1" ]})))).
    + apply Hother; by vm_compute.
    + by vm_compute.
    + by vm_compute.
  - apply (proj2 (proj2 (proj2 (getApiMode_resolution ∅)))).
    + apply Hother; by vm_compute.
    + by vm_compute.
    + by vm_compute.
Defined.

(** ** The scenarios of the specification, run *)

(** Scenario 1: a block with one coinbase transaction and no event. *)
Example scenario_coinbase_without_events :
  parseDataStoreTxEventData [Sample.parsedTx "T1"] [] Sample.blockRef 1%Z
  = Ok [ {| DataStoreTxEventData.tx :=
              {| DbTx.tx_id := "T1"; DbTx.tx_index := 0; DbTx.event_count := 0;
                 DbTx.rest := JsUndefined |};
            DataStoreTxEventData.stxEvents := [];
            DataStoreTxEventData.stxLockEvents := [];
            DataStoreTxEventData.ftEvents := [];
            DataStoreTxEventData.nftEvents := [];
            DataStoreTxEventData.contractLogEvents := [];
            DataStoreTxEventData.smartContracts := [];
            DataStoreTxEventData.names := [];
            DataStoreTxEventData.namespaces := [] |} ].
Proof. reflexivity. Qed.

(** Scenario 2: the events of T1 and T2 keep their order and are numbered
    from 0 in each transaction; the contract log of T1 had index 1 and its
    transfer index 0, the contract log of T2 had index 3 and its transfer
    index 2. *)
Example scenario_two_transactions :
  (λ d, (DbTx.tx_id (DataStoreTxEventData.tx d),
         DbEvent.event_index <$> DataStoreTxEventData.contractLogEvents d,
         DbEvent.event_index <$> DataStoreTxEventData.stxEvents d))
    <$> Sample.scenarioResult
  = [("T1", [1%Z], [0%Z]); ("T2", [1%Z], [0%Z])].
Proof. reflexivity. Qed.

(** Scenario 5: two reward recipients and three slot holders. *)
Example scenario_burn_block :
  (λ c, match c with
        | updateBurnchainRewards _ _ rewards => DbBurnchainReward.reward_index <$> rewards
        | updateBurnchainRewardSlotHolders _ _ slotHolders =>
            DbRewardSlotHolder.slot_index <$> slotHolders
        | _ => []
        end)
    <$> calls (handleBurnBlockMessage Sample.burnBlockMessage Sample.world0).2
  = [[0%Z; 1%Z]; [0%Z; 1%Z; 2%Z]].
Proof. reflexivity. Qed.

(** A transaction whose bytes do not decode: nothing reaches the store. *)
Example scenario_undecodable_transaction :
  handleBlockMessage 1%Z
    (Sample.blockMessage [Sample.coreTx "T1" "0x1234"; Sample.coreTx "T2" "0x"])
    Sample.world0
  = (Throw (Error "DecodeError::Transaction"), Sample.world0).
Proof. reflexivity. Qed.

(** [STACKS_API_MODE=default] leaves the decision to the legacy flags. *)
Example scenario_default_mode_with_legacy_flag :
  getApiMode {[ "STACKS_API_MODE" := "default"; "STACKS_READ_ONLY_MODE" := "1" ]}
  = Ok StacksApiMode.readOnly.
Proof. by vm_compute. Qed.

(** * Further properties of the code *)

Lemma filter_none {A} (P : A → Prop) `{!∀ x, Decision (P x)} (l : list A) :
  (∀ x, x ∈ l → ¬ P x) → filter P l = [].
Proof.
  intros Hnone. destruct (filter P l) as [|x k] eqn:Hf; [done|].
  assert (Hx : x ∈ filter P l) by (rewrite Hf; left).
  apply list_elem_of_filter in Hx as [HP Hx]. by destruct (Hnone x Hx).
Qed.

(** ** The entries of the result, against the transactions *)

Section ParserExtras.
Context {externals : Externals}.

Lemma initDbData_Forall2 blockData chainId parsedTxs dbData :
  initDbData blockData chainId parsedTxs = Ok dbData →
  Forall2 (λ tx e, initEntry blockData chainId tx = Ok e) parsedTxs dbData.
Proof.
  revert dbData. induction parsedTxs as [|tx parsedTxs IH]; intros dbData Hi; simpl in *.
  - simplify_eq. constructor.
  - apply Result_bind_Ok in Hi as (e & He & Hi).
    apply Result_bind_Ok in Hi as (dbData' & Hd & Hi). simplify_eq.
    constructor; [done|by apply IH].
Qed.

(** What [initEntry] makes of a transaction. *)
Lemma initEntry_Ok blockData chainId tx e :
  initEntry blockData chainId tx = Ok e →
  createDbTxFromCoreMsg tx = Ok (TxEntry.tx e)
  ∧ TxEntry.smartContracts e =
      match DecodedTxResult.payload (CoreNodeParsedTxMessage.parsed_tx tx) with
      | SmartContract contract_name code_body =>
          [ {| DbSmartContract.tx_id :=
                 CoreNodeTxMessage.txid (CoreNodeParsedTxMessage.core_tx tx);
               DbSmartContract.contract_id :=
                 CoreNodeParsedTxMessage.sender_address tx +:+ "." +:+ contract_name;
               DbSmartContract.block_height := BlockRef.block_height blockData;
               DbSmartContract.source_code := code_body;
               DbSmartContract.abi :=
                 JSON_stringify
                   (CoreNodeTxMessage.contract_abi (CoreNodeParsedTxMessage.core_tx tx));
               DbSmartContract.canonical := true |} ]
      | _ => []
      end.
Proof.
  unfold initEntry. intros Hi.
  apply Result_bind_Ok in Hi as (dbTx & Hc & Hi).
  destruct (DecodedTxResult.payload _); simplify_eq/=; try done.
  apply Result_bind_Ok in Hi as ([name|] & _ & Hi); by simplify_eq.
Qed.

(** The entries of the result stand for the transactions, one by one. *)
Lemma parse_entries parsedTxs events blockData chainId out :
  parseDataStoreTxEventData parsedTxs events blockData chainId = Ok out →
  Forall2
    (λ tx d, ∃ e,
       initEntry blockData chainId tx = Ok e
       ∧ DataStoreTxEventData.tx d
         = DbTx.set_event_count (Z.of_nat (length (mergedEvents d))) (TxEntry.tx e)
       ∧ DataStoreTxEventData.smartContracts d = TxEntry.smartContracts e)
    parsedTxs out.
Proof.
  intros Hp. apply parse_Ok in Hp as (dbData0 & st & Hinit & Hinv & ->).
  pose proof (initDbData_Forall2 _ _ _ _ Hinit) as Hall.
  destruct (snapshot_normalize_entries _ _ _ _ Hinv) as [Hids _].
  assert (Hlen : length (snapshot (normalize st)) = length dbData0).
  { apply (f_equal length) in Hids. unfold txIds, entryIds in Hids.
    by rewrite !length_fmap in Hids. }
  apply Forall2_same_length_lookup. split.
  - rewrite Hlen. by eapply Forall2_length.
  - intros k tx d Htx Hd.
    destruct (snapshot_normalize_lookup _ _ _ _ _ _ Hinv Hd)
      as (e & dbTx0 & pre & _ & He0 & _ & Hdtx & Hsmart & _).
    exists dbTx0. split_and!; [|done..].
    exact (Forall2_lookup_lr _ _ _ _ _ _ Hall Htx He0).
Qed.


(** The records of an entry carry the block height the parser was given. *)
Lemma parse_block_heights parsedTxs events blockData chainId out :
  parseDataStoreTxEventData parsedTxs events blockData chainId = Ok out →
  Forall
    (λ d,
       Forall (λ c, DbSmartContract.block_height c = BlockRef.block_height blockData)
         (DataStoreTxEventData.smartContracts d)
       ∧ Forall (λ ev, DbEventBase.block_height (DbEvent.base ev)
                       = BlockRef.block_height blockData)
           (mergedEvents d))
    out.
Proof.
  intros Hp. apply Forall_lookup. intros k d Hk. split.
  - pose proof (parse_entries _ _ _ _ _ Hp) as Hall.
    destruct (Forall2_lookup_r _ _ _ _ _ Hall Hk) as (tx & _ & e & He & _ & ->).
    apply initEntry_Ok in He as [_ ->].
    destruct (DecodedTxResult.payload _); by repeat constructor.
  - apply Forall_forall. intros ev Hev.
    destruct (parse_event_origin _ _ _ _ _ _ _ _ Hp Hk Hev)
      as (event & ev0 & _ & _ & _ & Hrec & ->).
    simpl. by rewrite (recordOf_base _ _ _ _ Hrec).
Qed.

(** The result has one entry per parsed transaction, in the order of the
    transactions; the transaction record of an entry is the one
    [createDbTxFromCoreMsg] made, with nothing but [event_count] replaced. *)
Theorem result_follows_transactions parsedTxs events blockData chainId out :
  parseDataStoreTxEventData parsedTxs events blockData chainId = Ok out →
  Forall2
    (λ tx d, ∃ dbTx,
       createDbTxFromCoreMsg tx = Ok dbTx
       ∧ DataStoreTxEventData.tx d
         = DbTx.set_event_count (DbTx.event_count (DataStoreTxEventData.tx d)) dbTx)
    parsedTxs out.
Proof.
  intros Hp. eapply Forall2_impl; [exact (parse_entries _ _ _ _ _ Hp)|].
  intros tx d (e & He & Hd & _). simpl.
  exists (TxEntry.tx e). split; [by apply initEntry_Ok in He as [? _]|].
  rewrite Hd. reflexivity.
Qed.

(** A transaction that deploys a contract has exactly one smart contract
    record, named [<sender_address>.<contract_name>] and carrying the
    transaction id, the height of the block, the source and the serialized
    ABI; a transaction with any other payload has none. *)
Theorem smart_contract_per_deployment parsedTxs events blockData chainId out :
  parseDataStoreTxEventData parsedTxs events blockData chainId = Ok out →
  Forall2
    (λ tx d,
       DataStoreTxEventData.smartContracts d =
         match DecodedTxResult.payload (CoreNodeParsedTxMessage.parsed_tx tx) with
         | SmartContract contract_name code_body =>
             [ {| DbSmartContract.tx_id :=
                    CoreNodeTxMessage.txid (CoreNodeParsedTxMessage.core_tx tx);
                  DbSmartContract.contract_id :=
                    CoreNodeParsedTxMessage.sender_address tx +:+ "." +:+ contract_name;
                  DbSmartContract.block_height := BlockRef.block_height blockData;
                  DbSmartContract.source_code := code_body;
                  DbSmartContract.abi :=
                    JSON_stringify
                      (CoreNodeTxMessage.contract_abi (CoreNodeParsedTxMessage.core_tx tx));
                  DbSmartContract.canonical := true |} ]
         | _ => []
         end)
    parsedTxs out.
Proof.
  intros Hp. eapply Forall2_impl; [exact (parse_entries _ _ _ _ _ Hp)|].
  intros tx d (e & He & _ & Hd). simpl. rewrite Hd.
  by apply initEntry_Ok in He as [_ ?].
Qed.

(** Every event of an entry of the result carries the [tx_id] and the
    [tx_index] of the entry's transaction and the block height the parser
    was given. *)
Theorem events_are_filed_under_their_transaction
    parsedTxs events blockData chainId out k d ev :
  parseDataStoreTxEventData parsedTxs events blockData chainId = Ok out →
  out !! k = Some d →
  ev ∈ mergedEvents d →
  DbEvent.tx_id ev = DbTx.tx_id (DataStoreTxEventData.tx d)
  ∧ DbEventBase.tx_index (DbEvent.base ev) = DbTx.tx_index (DataStoreTxEventData.tx d)
  ∧ DbEventBase.block_height (DbEvent.base ev) = BlockRef.block_height blockData.
Proof.
  intros Hp Hk Hev.
  destruct (parse_event_origin _ _ _ _ _ _ _ _ Hp Hk Hev)
    as (event & ev0 & _ & _ & Hown & Hrec & Hren).
  pose proof (recordOf_base _ _ _ _ Hrec) as Hbase.
  rewrite Hren. unfold DbEvent.tx_id. simpl. rewrite Hbase. simpl.
  split_and!; [|done..].
  unfold ownerOf, ownerOfTxid in Hown.
  destruct (list_find _ (txIds out)) as [[k' id]|] eqn:Hfind; simplify_eq/=.
  apply list_find_Some in Hfind as (Hid & -> & _).
  unfold txIds in Hid. rewrite list_lookup_fmap, Hk in Hid. by simplify_eq/=.
Qed.

(** A committed event that no record can be built for (its [type] is none
    of [CoreNodeEventType], [BigInt] rejects its amount, or [hexToBuffer]
    its value) makes the parser throw, wherever it stands in the
    message. *)
Theorem unbuildable_event_is_fatal parsedTxs events blockData chainId event :
  event ∈ events →
  CoreNodeEvent.committed event = true →
  (∀ dbEvent, isThrow (dispatch dbEvent event)) →
  isThrow (parseDataStoreTxEventData parsedTxs events blockData chainId).
Proof.
  intros Hin Hcom Hbad. unfold parseDataStoreTxEventData, scatter.
  apply isThrow_bind_l, isThrow_bind_r. intros dbData _.
  generalize events at 1. intros allEvents.
  generalize {| ParseState.dbData := dbData; ParseState.heap := [] |}. clear dbData.
  induction events as [|event' events IH]; intros st; [by apply elem_of_nil in Hin|].
  simpl. apply elem_of_cons in Hin as [<-|Hin].
  - apply isThrow_bind_l. unfold processEvent. rewrite Hcom. simpl.
    destruct (findDbTx _ _) as [[k dbTx]|]; [|done].
    by apply isThrow_bind_l.
  - apply isThrow_bind_r. intros st' _. by apply IH.
Qed.

(** When two transactions of the bundle have the same [tx_id], the events
    with that id all go to the first of them: the later one comes out with
    no event and [event_count = 0]. *)
Theorem later_duplicate_gets_no_event parsedTxs events blockData chainId out j k d' d :
  parseDataStoreTxEventData parsedTxs events blockData chainId = Ok out →
  out !! j = Some d' →
  out !! k = Some d →
  j < k →
  DbTx.tx_id (DataStoreTxEventData.tx d') = DbTx.tx_id (DataStoreTxEventData.tx d) →
  mergedEvents d = [] ∧ DbTx.event_count (DataStoreTxEventData.tx d) = 0%Z.
Proof.
  intros Hp Hj Hk Hjk Hid.
  destruct (parse_entry_spec _ _ _ _ _ _ _ Hp Hk) as (Hlen & Hcount & _).
  assert (Hnone : committedEventsOf (txIds out) k events = []).
  { unfold committedEventsOf. apply filter_none. intros event _ Hown.
    unfold ownerOf, ownerOfTxid in Hown.
    destruct (list_find _ (txIds out)) as [[k' id]|] eqn:Hfind; simplify_eq/=.
    apply list_find_Some in Hfind as (Hidk & -> & Hfirst).
    apply (Hfirst j (DbTx.tx_id (DataStoreTxEventData.tx d'))).
    - unfold txIds. by rewrite list_lookup_fmap, Hj.
    - exact Hjk.
    - unfold txIds in Hidk. rewrite list_lookup_fmap, Hk in Hidk.
      simpl in Hidk. injection Hidk as <-. exact Hid. }
  rewrite Hnone in Hlen, Hcount. simpl in *.
  split; [by apply nil_length_inv|done].
Qed.

(** The [event_count]s of the result add up to the number of committed
    events of the message. *)
Theorem event_counts_add_up parsedTxs events blockData chainId out :
  parseDataStoreTxEventData parsedTxs events blockData chainId = Ok out →
  foldr Z.add 0%Z (DbTx.event_count <$> (DataStoreTxEventData.tx <$> out))
  = Z.of_nat (length (committedEvents events)).
Proof.
  intros Hp. rewrite <-(parse_total_events _ _ _ _ _ Hp).
  assert (Hall : Forall (λ d, DbTx.event_count (DataStoreTxEventData.tx d)
                              = Z.of_nat (length (mergedEvents d))) out).
  { apply Forall_lookup. intros k d Hk.
    destruct (parse_entry_spec _ _ _ _ _ _ _ Hp Hk) as (Hlen & Hcount & _).
    by rewrite Hlen. }
  clear Hp. induction Hall as [|d out Hd _ IH]; [done|].
  cbn [fmap list_fmap foldr concat]. rewrite length_app, IH, Hd. lia.
Qed.

End ParserExtras.

(** ** Stability of the sort *)

Section Stable.
Context {A : Type} (key : A → Z).
Implicit Types (l s : list A).

Lemma StronglySorted_impl (R R' : A → A → Prop) s :
  (∀ a b, R a b → R' a b) → StronglySorted R s → StronglySorted R' s.
Proof.
  intros HR. induction 1 as [|y s Hs IH Hy]; constructor; [done|].
  eapply Forall_impl; [exact Hy|]. auto.
Qed.

Lemma stableLe_cons x l a b : stableLe key l a b → stableLe key (x :: l) a b.
Proof.
  intros [Hlt|[Heq (p & q & Hpq & Hp & Hq)]]; [by left|right].
  split; [done|]. exists (S p), (S q). split_and!; [lia|done..].
Qed.

Lemma stableLe_key l a b : stableLe key l a b → (key a ≤ key b)%Z.
Proof. intros [?|[? _]]; lia. Qed.

Lemma stableLe_head x l z : z ∈ l → (key x ≤ key z)%Z → stableLe key (x :: l) x z.
Proof.
  intros Hz Hle. destruct (decide (key x = key z)) as [Heq|Hne]; [right|left; lia].
  split; [done|]. apply list_elem_of_lookup_1 in Hz as [q Hq].
  exists 0, (S q). split_and!; [lia|done..].
Qed.

Lemma insertSorted_stable x l s :
  (∀ z, z ∈ s → z ∈ l) →
  StronglySorted (stableLe key l) s →
  StronglySorted (stableLe key (x :: l)) (insertSorted (compareBy key) x s).
Proof.
  intros Hsub Hs. induction Hs as [|y s Hs IH Hy]; simpl.
  - repeat constructor.
  - assert (Hlift : StronglySorted (stableLe key (x :: l)) (y :: s)).
    { eapply StronglySorted_impl; [apply stableLe_cons|by constructor]. }
    destruct (Z.leb_spec (compareBy key x y) 0) as [Hxy|Hxy]; unfold compareBy in Hxy.
    + constructor; [done|].
      constructor; [apply stableLe_head; [apply Hsub; left|lia]|].
      apply Forall_forall. intros z Hz. apply stableLe_head.
      * apply Hsub. by right.
      * rewrite Forall_forall in Hy. pose proof (stableLe_key _ _ _ (Hy z Hz)). lia.
    + constructor.
      * apply IH. intros z Hz. apply Hsub. by right.
      * rewrite insertSorted_Permutation. constructor; [left; lia|].
        eapply Forall_impl; [exact Hy|]. intros z. apply stableLe_cons.
Qed.

Lemma sortBy_stable l : StronglySorted (stableLe key l) (sortBy (compareBy key) l).
Proof.
  induction l as [|x l IH]; simpl; [constructor|].
  apply insertSorted_stable; [|done]. intros z. by rewrite sortBy_Permutation.
Qed.

Lemma StronglySorted_lookup (R : A → A → Prop) s i j a b :
  StronglySorted R s → s !! i = Some a → s !! j = Some b → i < j → R a b.
Proof.
  intros Hs. revert i j. induction Hs as [|y s Hs IH Hy]; intros i j Hi Hj Hij.
  - by rewrite lookup_nil in Hi.
  - destruct i as [|i], j as [|j]; simpl in *; try lia.
    + simplify_eq. rewrite Forall_forall in Hy. apply Hy. by eapply list_elem_of_lookup_2.
    + apply (IH i j); [done..|lia].
Qed.

(** Of two elements of a list without repetition, the one that stands
    first and has no larger key stands first after the sort. *)
Lemma sortBy_positions l p q i j a b :
  NoDup l →
  l !! p = Some a → l !! q = Some b → p < q → (key a ≤ key b)%Z →
  sortBy (compareBy key) l !! i = Some a → sortBy (compareBy key) l !! j = Some b →
  i < j.
Proof.
  intros Hnd Hp Hq Hpq Hle Hi Hj.
  destruct (Nat.lt_trichotomy i j) as [?|[->|Hji]]; [done|..].
  - simplify_eq. pose proof (NoDup_lookup _ _ _ _ Hnd Hp Hq). lia.
  - destruct (StronglySorted_lookup _ _ _ _ _ _ (sortBy_stable l) Hj Hi Hji)
      as [Hlt|[_ (p' & q' & Hpq' & Hp' & Hq')]]; [lia|].
    pose proof (NoDup_lookup _ _ _ _ Hnd Hp Hq').
    pose proof (NoDup_lookup _ _ _ _ Hnd Hq Hp'). lia.
Qed.

End Stable.

(** ** The arrays during the scatter *)

Section Buckets.
Context {externals : Externals}.
Implicit Types (st : ParseState.t) (e : TxEntry.t) (event : CoreNodeEvent.t).

Lemma dispatch_bucket (dbEvent : DbEventBase.t) event (b : Bucket) (entry : DbEvent.t) :
  dispatch dbEvent event = Ok (b, entry) → bucketOf entry = b.
Proof.
  unfold dispatch. intros Hd.
  destruct (CoreNodeEvent.type event); try discriminate;
    apply Result_bind_Ok in Hd as (x & _ & Hd); by simplify_eq.
Qed.

Lemma refsOf_push (b b' : Bucket) (r : Ref) e :
  refsOf b' (push b r e) = refsOf b' e ++ (if decide (b = b') then [r] else []).
Proof. destruct b, b'; simpl; by rewrite ?app_nil_r. Qed.

Lemma flatEvents_refsOf e : flatEvents e = concat ((λ b, refsOf b e) <$> mergeOrder).
Proof. done. Qed.

Lemma mergedEvents_eventsOf (d : DataStoreTxEventData.t) :
  mergedEvents d = concat ((λ b, eventsOf b d) <$> mergeOrder).
Proof. done. Qed.

Lemma eventsOf_snapshotEntry (h : Heap) e (b : Bucket) :
  eventsOf b (snapshotEntry h e) = deref h (refsOf b e).
Proof. by destruct b. Qed.

Lemma keepsBuckets_id : keepsBuckets id.
Proof. done. Qed.

Lemma keepsBuckets_push_name n : keepsBuckets (TxEntry.push_name n).
Proof. intros e. split; [done|]. by intros []. Qed.

Lemma keepsBuckets_push_namespace n : keepsBuckets (TxEntry.push_namespace n).
Proof. intros e. split; [done|]. by intros []. Qed.

Lemma keepsBuckets_compose f g : keepsBuckets f → keepsBuckets g → keepsBuckets (f ∘ g).
Proof.
  intros Hf Hg e. unfold compose. destruct (Hf (g e)) as [-> Hb], (Hg e) as [-> Hb'].
  split; [done|]. intros b. by rewrite Hb, Hb'.
Qed.

(** A successful iteration for a committed event, array by array. *)
Lemma processEvent_Ok_buckets parsedTxs allEvents blockData chainId st event st' :
  processEvent parsedTxs allEvents blockData chainId st event = Ok st' →
  CoreNodeEvent.committed event = true →
  ∃ k dbTx b entry f,
    findDbTx (ParseState.dbData st) (CoreNodeEvent.txid event) = Some (k, dbTx)
    ∧ dispatch (mkDbEventBase blockData (DbTx.tx_index (TxEntry.tx dbTx)) event) event
      = Ok (b, entry)
    ∧ keepsBuckets f
    ∧ st' = updateEntry k f (pushEvent k b entry st).
Proof.
  unfold processEvent. intros Hp Hcom. rewrite Hcom in Hp. simpl in Hp.
  destruct (findDbTx _ _) as [[k dbTx]|] eqn:Hfind; [|done].
  apply Result_bind_Ok in Hp as ([b entry] & Hd & Hp).
  exists k, dbTx, b, entry.
  assert (Hid : ∀ st1, st1 = updateEntry k id st1).
  { intros [l h]. unfold updateEntry. simpl. by rewrite list_alter_id. }
  destruct (CoreNodeEvent.type event);
    try (exists id; split_and!; [done..|apply keepsBuckets_id|]; simplify_eq; apply Hid).
  destruct (findParsedTx _ _) as [[j parsedTx]|]; [|done].
  apply Result_bind_Ok in Hp as (name & _ & Hp).
  apply Result_bind_Ok in Hp as (namespace & _ & Hp).
  injection Hp as <-.
  destruct name as [name|], namespace as [namespace|].
  - exists (TxEntry.push_namespace namespace ∘ TxEntry.push_name name).
    split_and!; [done..| |].
    + apply keepsBuckets_compose;
        [apply keepsBuckets_push_namespace|apply keepsBuckets_push_name].
    + unfold updateEntry. simpl. by rewrite list_alter_alter_eq.
  - exists (TxEntry.push_name name). split_and!; [done..|apply keepsBuckets_push_name|done].
  - exists (TxEntry.push_namespace namespace).
    split_and!; [done..|apply keepsBuckets_push_namespace|done].
  - exists id. split_and!; [done..|apply keepsBuckets_id|apply Hid].
Qed.

Lemma BucketInv_updateEntry dbData0 st k f :
  keepsBuckets f → BucketInv dbData0 st → BucketInv dbData0 (updateEntry k f st).
Proof.
  intros Hf Hinv k' e' b Hk'. unfold updateEntry in *. simpl in *.
  destruct (decide (k = k')) as [->|Hne].
  - rewrite list_lookup_alter_eq in Hk'.
    destruct (ParseState.dbData st !! k') as [e|] eqn:He; simplify_eq/=.
    destruct (Hf e) as [_ ->]. by apply Hinv.
  - rewrite list_lookup_alter_ne in Hk' by done. by apply Hinv.
Qed.

Lemma BucketInv_pushEvent dbData0 st k dbTx b entry :
  ParseState.dbData st !! k = Some dbTx →
  ownerOfTxid (entryIds dbData0) (DbEvent.tx_id entry) = Some k →
  bucketOf entry = b →
  BucketInv dbData0 st →
  BucketInv dbData0 (pushEvent k b entry st).
Proof.
  intros Hk Hown Hb Hinv k' e' b' Hk'. unfold pushEvent in *. simpl in *.
  rewrite indicesWhere_snoc.
  destruct (decide (k = k')) as [<-|Hne].
  - rewrite list_lookup_alter_eq, Hk in Hk'. simplify_eq/=.
    rewrite refsOf_push, (Hinv k dbTx b' Hk). f_equal.
    destruct (decide (bucketOf entry = b')) as [Heq|Hneq].
    + by rewrite decide_True.
    + rewrite decide_False; [done|]. by intros [_ ?].
  - rewrite list_lookup_alter_ne in Hk' by done.
    rewrite decide_False by (intros [Hown' _]; congruence).
    rewrite app_nil_r. by apply Hinv.
Qed.

Lemma processEvent_bucket_inv parsedTxs allEvents blockData chainId dbData0 seen st event st' :
  ScatterInv blockData dbData0 seen st →
  BucketInv dbData0 st →
  processEvent parsedTxs allEvents blockData chainId st event = Ok st' →
  BucketInv dbData0 st'.
Proof.
  intros Hinv Hb Hp.
  destruct (CoreNodeEvent.committed event) eqn:Hcom.
  - destruct (processEvent_Ok_buckets _ _ _ _ _ _ _ Hp Hcom)
      as (k & dbTx & b & entry & f & Hfind & Hd & Hf & ->).
    apply BucketInv_updateEntry; [done|].
    apply findDbTx_Some in Hfind as (Hk & _ & Hown).
    apply (BucketInv_pushEvent _ _ _ dbTx); [done| |by eapply dispatch_bucket|done].
    assert (Hids : entryIds (ParseState.dbData st) = entryIds dbData0).
    { rewrite !entryIds_txs. by rewrite (inv_txs _ _ _ _ Hinv). }
    rewrite <-Hids. unfold DbEvent.tx_id. by rewrite (dispatch_base _ _ _ _ Hd).
  - unfold processEvent in Hp. rewrite Hcom in Hp. simpl in Hp. by simplify_eq.
Qed.

Lemma scatterEvents_bucket_inv
    parsedTxs allEvents blockData chainId dbData0 events seen st st' :
  ScatterInv blockData dbData0 seen st →
  BucketInv dbData0 st →
  scatterEvents parsedTxs allEvents blockData chainId events st = Ok st' →
  BucketInv dbData0 st'.
Proof.
  revert seen st. induction events as [|event events IH]; intros seen st Hinv Hb Hs;
    simpl in *.
  - by simplify_eq.
  - apply Result_bind_Ok in Hs as (st1 & Hp & Hs).
    eapply (IH (seen ++ [event])); [|by eapply processEvent_bucket_inv|done].
    by eapply processEvent_inv.
Qed.

Lemma BucketInv_init dbData0 :
  Forall (λ e, flatEvents e = []) dbData0 →
  BucketInv dbData0 {| ParseState.dbData := dbData0; ParseState.heap := [] |}.
Proof.
  intros Hempty k e b Hk. simpl in *. rewrite Forall_forall in Hempty.
  assert (He : flatEvents e = []) by (apply Hempty; by eapply list_elem_of_lookup_2).
  unfold flatEvents in He. simpl in He. rewrite app_nil_r in He.
  repeat (apply app_eq_nil in He as [? He]). by destruct b.
Qed.

(** The parser returns the snapshot of the normalized state of a scatter
    that satisfies both invariants. *)
Lemma parse_Ok_buckets parsedTxs events blockData chainId out :
  parseDataStoreTxEventData parsedTxs events blockData chainId = Ok out →
  ∃ dbData0 st,
    initDbData blockData chainId parsedTxs = Ok dbData0
    ∧ ScatterInv blockData dbData0 events st
    ∧ BucketInv dbData0 st
    ∧ out = snapshot (normalize st).
Proof.
  unfold parseDataStoreTxEventData. intros Hp.
  apply Result_bind_Ok in Hp as (st & Hs & Hp). injection Hp as <-.
  pose proof Hs as Hs'. unfold scatter in Hs'.
  apply Result_bind_Ok in Hs' as (dbData0 & Hinit & Hs').
  destruct (scatter_inv _ _ _ _ _ Hs) as (dbData0' & Hinit' & Hinv).
  rewrite Hinit in Hinit'. injection Hinit' as <-.
  exists dbData0, st. split_and!; [done..| |done].
  assert (Hempty : Forall (λ e, flatEvents e = []) dbData0).
  { apply initDbData_Forall in Hinit as [_ Hall].
    eapply Forall_impl; [done|]. by intros e [? _]. }
  eapply (scatterEvents_bucket_inv _ _ _ _ _ _ []); [|by apply BucketInv_init|done].
  by apply ScatterInv_init.
Qed.

End Buckets.

(** ** The arrays of the result *)

Section BucketResult.
Context {externals : Externals}.

Lemma renumbered_bucketOf (a b : DbEvent.t) : renumbered a b → bucketOf b = bucketOf a.
Proof. by intros ->. Qed.

Lemma renumbered_event_index (i : Z) (a : DbEvent.t) :
  DbEvent.event_index (DbEvent.set_event_index i a) = i.
Proof. done. Qed.

(** One entry of the result, array by array, against the heap before the
    normalization. *)
Lemma snapshot_normalize_buckets blockData dbData0 events st k d :
  ScatterInv blockData dbData0 events st →
  BucketInv dbData0 st →
  snapshot (normalize st) !! k = Some d →
  let built :=
    filter (λ ev, ownerOfTxid (entryIds dbData0) (DbEvent.tx_id ev) = Some k)
      (ParseState.heap st) in
  (∀ b, Forall2 renumbered (filter (λ ev, bucketOf ev = b) built) (eventsOf b d))
  ∧ (∀ p q a a' b b',
       p < q →
       mergedBy built !! p = Some a → mergedBy built !! q = Some a' →
       mergedEvents d !! p = Some b → mergedEvents d !! q = Some b' →
       (DbEvent.event_index b < DbEvent.event_index b')%Z
       ↔ (DbEvent.event_index a ≤ DbEvent.event_index a')%Z).
Proof.
  intros [Htxs Hsc Hheap Hrefs Hall] Hbuckets Hk built.
  unfold normalize, snapshot in Hk.
  destruct st as [l h]. simpl in *.
  destruct (normalizeAll l h) as [l' h'] eqn:Hn. simpl in Hk.
  assert (Hnd : NoDup (concat (flatEvents <$> l))) by (rewrite Hall; apply NoDup_seq).
  destruct (normalizeAll_spec l h l' h' Hn Hnd) as (Hlen & -> & _ & Hren & Hpos).
  rewrite <-list_fmap_compose, list_lookup_fmap in Hk.
  destruct (l !! k) as [e|] eqn:He; [|done]. simpl in Hk. injection Hk as <-.
  set (refs := flatEvents e).
  assert (Hvalid : Forall (λ r, r < length h) refs).
  { apply Forall_forall. intros r Hr.
    assert (Hin : r ∈ seq 0 (length h)).
    { rewrite <-Hall. apply (elem_of_concat_flatEvents l e); [|done].
      by eapply list_elem_of_lookup_2. }
    apply elem_of_seq in Hin. lia. }
  assert (Hvalid' : Forall (λ r, r < length h') refs) by (by rewrite Hlen).
  assert (Hsame : ∀ rs, Forall (λ r, r < length h) rs →
                        Forall2 renumbered (deref h rs) (deref h' rs)).
  { intros rs Hrs.
    eapply (Forall2_same_l (λ r ev, h !! r = Some ev) (λ r ev, h' !! r = Some ev));
      [|exact (deref_lookups h rs Hrs)|].
    - intros r a b Ha Hb. simpl in *.
      apply Hren in Hb as (a0 & Ha0 & Hab). by simplify_eq.
    - apply deref_lookups. by rewrite Hlen. }
  assert (Hbucket : ∀ b, deref h (refsOf b e) = filter (λ ev, bucketOf ev = b) built).
  { intros b. unfold deref, built. rewrite (Hbuckets k e b He), omap_indicesWhere.
    rewrite list_filter_filter. apply list_filter_iff. intros ev. tauto. }
  assert (Hsub : ∀ b, Forall (λ r, r < length h) (refsOf b e)).
  { intros b. rewrite (Hbuckets k e b He). apply indicesWhere_lt. }
  assert (Hpre : deref h refs = mergedBy built).
  { unfold refs, mergedBy. rewrite flatEvents_refsOf, deref_concat.
    rewrite <-!list_fmap_compose. f_equal. apply list_fmap_ext. intros i b _. apply Hbucket. }
  split.
  - intros b. rewrite eventsOf_snapshotEntry, <-Hbucket.
    replace (refsOf b (counted e)) with (refsOf b e) by (by destruct b).
    by apply Hsame.
  - rewrite mergedEvents_snapshotEntry, flatEvents_counted, <-Hpre. fold refs.
    pose proof (deref_lookups h refs Hvalid) as Hbefore.
    pose proof (deref_lookups h' refs Hvalid') as Hafter.
    set (s := sortBy (compareEvents h) refs).
    assert (Hs : s ≡ₚ refs) by apply sortBy_Permutation.
    assert (Hnds : NoDup refs).
    { assert (Hsplit : ∃ l1 l2, l = l1 ++ e :: l2).
      { apply list_elem_of_split. by eapply list_elem_of_lookup_2. }
      destruct Hsplit as (l1 & l2 & ->).
      rewrite fmap_app, concat_app in Hnd. simpl in Hnd.
      apply NoDup_app in Hnd as (_ & _ & Hnd). by apply NoDup_app in Hnd as (Hnd & _). }
    intros p q a a' b b' Hpq Ha Ha' Hb Hb'.
    destruct (Forall2_lookup_r _ _ _ _ _ Hbefore Ha) as (r1 & Hr1 & Hr1a).
    destruct (Forall2_lookup_r _ _ _ _ _ Hbefore Ha') as (r2 & Hr2 & Hr2a).
    destruct (Forall2_lookup_r _ _ _ _ _ Hafter Hb) as (r1' & Hr1' & Hr1b).
    destruct (Forall2_lookup_r _ _ _ _ _ Hafter Hb') as (r2' & Hr2' & Hr2b).
    simplify_eq/=.
    assert (Hin1 : r1 ∈ s) by (rewrite Hs; by eapply list_elem_of_lookup_2).
    assert (Hin2 : r2 ∈ s) by (rewrite Hs; by eapply list_elem_of_lookup_2).
    apply list_elem_of_lookup_1 in Hin1 as [i Hi].
    apply list_elem_of_lookup_1 in Hin2 as [j Hj].
    rewrite (Hpos k e i r1 He Hi), Hr1a in Hr1b.
    rewrite (Hpos k e j r2 He Hj), Hr2a in Hr2b.
    simplify_eq/=. rewrite !renumbered_event_index.
    assert (Hk1 : eventIndexAt h r1 = DbEvent.event_index a)
      by (unfold eventIndexAt; by rewrite Hr1a).
    assert (Hk2 : eventIndexAt h r2 = DbEvent.event_index a')
      by (unfold eventIndexAt; by rewrite Hr2a).
    split.
    + intros Hij. apply Z.le_ngt. intros Hgt.
      assert (j < i); [|lia].
      apply (sorted_positions (eventIndexAt h) s j i r2 r1); [apply sortBy_sorted|done..|lia].
    + intros Hle. apply inj_lt.
      apply (sortBy_positions (eventIndexAt h) refs p q i j r1 r2); [done..|lia|done|done].
Qed.

(** One entry of the result of the parser, array by array. *)
Lemma parse_entry_buckets parsedTxs events blockData chainId out k d :
  parseDataStoreTxEventData parsedTxs events blockData chainId = Ok out →
  out !! k = Some d →
  ∃ built,
    Forall2 (recordOf blockData (DbTx.tx_index (DataStoreTxEventData.tx d)))
      (committedEventsOf (txIds out) k events) built
    ∧ (∀ b, Forall2 renumbered (filter (λ ev, bucketOf ev = b) built) (eventsOf b d))
    ∧ (∀ p q a a' b b',
         p < q →
         mergedBy built !! p = Some a → mergedBy built !! q = Some a' →
         mergedEvents d !! p = Some b → mergedEvents d !! q = Some b' →
         (DbEvent.event_index b < DbEvent.event_index b')%Z
         ↔ (DbEvent.event_index a ≤ DbEvent.event_index a')%Z).
Proof.
  intros Hp Hk.
  apply parse_Ok_buckets in Hp as (dbData0 & st & Hinit & Hinv & Hbuckets & ->).
  destruct (snapshot_normalize_entries _ _ _ _ Hinv) as [Hids _].
  destruct (snapshot_normalize_lookup _ _ _ _ _ _ Hinv Hk)
    as (e & dbTx0 & pre & _ & He0 & _ & Hd & _).
  destruct (snapshot_normalize_buckets _ _ _ _ _ _ Hinv Hbuckets Hk) as [Harrays Horder].
  eexists. split_and!; [|exact Harrays|exact Horder].
  unfold committedEventsOf. rewrite Hids.
  apply Forall2_filter_impl.
  eapply Forall2_impl; [apply (inv_heap _ _ _ _ Hinv)|].
  intros event entry (k' & dbTx & Hown & Hk' & Hrec). simpl.
  pose proof (recordOf_tx_id _ _ _ _ Hrec) as Hid.
  unfold ownerOf in *. rewrite Hid. split; [done|].
  intros Hown'. rewrite Hown in Hown'. simplify_eq. by rewrite Hd.
Qed.

End BucketResult.

Section BucketExtras.
Context {externals : Externals}.

(** Each of the five event arrays of an entry of the result holds the
    records of the committed events of its transaction that are of the
    array's kind, in the order in which the message lists them and with
    nothing but the [event_index] changed. *)
Theorem arrays_keep_kind_and_message_order parsedTxs events blockData chainId out k d :
  parseDataStoreTxEventData parsedTxs events blockData chainId = Ok out →
  out !! k = Some d →
  ∃ built,
    Forall2 (recordOf blockData (DbTx.tx_index (DataStoreTxEventData.tx d)))
      (committedEventsOf (txIds out) k events) built
    ∧ ∀ b,
        Forall2 renumbered (filter (λ ev, bucketOf ev = b) built) (eventsOf b d)
        ∧ Forall (λ ev, bucketOf ev = b) (eventsOf b d).
Proof.
  intros Hp Hk.
  destruct (parse_entry_buckets _ _ _ _ _ _ _ Hp Hk) as (built & Hbuilt & Harrays & _).
  exists built. split; [done|]. intros b. split; [done|].
  apply Forall_forall. intros ev Hev.
  apply list_elem_of_lookup_1 in Hev as [i Hi].
  destruct (Forall2_lookup_r _ _ _ _ _ (Harrays b) Hi) as (ev0 & Hev0 & Hren).
  rewrite (renumbered_bucketOf _ _ Hren).
  apply list_elem_of_lookup_2, list_elem_of_filter in Hev0. by destruct Hev0.
Qed.

(** The new indexes follow the original ones, and events with the same
    original index keep the order of the merge: contract logs first, then
    the fungible, the non-fungible, the STX and the lock events, each array
    in the order of the message.  For two positions of the merged arrays,
    the earlier event gets the smaller new index exactly when its original
    index is not the larger one. *)
Theorem equal_indexes_keep_the_merge_order parsedTxs events blockData chainId out k d :
  parseDataStoreTxEventData parsedTxs events blockData chainId = Ok out →
  out !! k = Some d →
  ∃ built,
    Forall2 (recordOf blockData (DbTx.tx_index (DataStoreTxEventData.tx d)))
      (committedEventsOf (txIds out) k events) built
    ∧ Forall2 renumbered (mergedBy built) (mergedEvents d)
    ∧ ∀ p q a a' b b',
        p < q →
        mergedBy built !! p = Some a → mergedBy built !! q = Some a' →
        mergedEvents d !! p = Some b → mergedEvents d !! q = Some b' →
        (DbEvent.event_index b < DbEvent.event_index b')%Z
        ↔ (DbEvent.event_index a ≤ DbEvent.event_index a')%Z.
Proof.
  intros Hp Hk.
  destruct (parse_entry_buckets _ _ _ _ _ _ _ Hp Hk) as (built & Hbuilt & Harrays & Horder).
  exists built. split_and!; [done| |done].
  rewrite mergedEvents_eventsOf. unfold mergedBy, mergeOrder. simpl.
  repeat (apply Forall2_app; [apply Harrays|]). constructor.
Qed.

End BucketExtras.

(** ** Mapping a callback that may throw *)

Lemma mapResult_Forall2 {A B} (f : A → Result B) (l : list A) (ys : list B) :
  mapResult f l = Ok ys ↔ Forall2 (λ x y, f x = Ok y) l ys.
Proof.
  revert ys. induction l as [|x l IH]; intros ys; simpl.
  - split; [intros [= <-]; constructor|by intros ->%Forall2_nil_inv_l].
  - rewrite Result_bind_Ok. split.
    + intros (y & Hy & Hm). apply Result_bind_Ok in Hm as (ys' & Hys & [= <-]).
      constructor; [done|by apply IH].
    + intros (y & ys' & Hy & Hys & ->)%Forall2_cons_inv_l.
      exists y. split; [done|]. apply IH in Hys. by rewrite Hys.
Qed.

Lemma Forall2_compose {A B C} (R : A → B → Prop) (S : B → C → Prop)
    (l : list A) (k : list B) (m : list C) :
  Forall2 R l k → Forall2 S k m → Forall2 (λ x z, ∃ y, R x y ∧ S y z) l m.
Proof.
  intros HR. revert m. induction HR as [|x y l k Hxy _ IH]; intros m HS.
  - apply Forall2_nil_inv_l in HS as ->. constructor.
  - apply Forall2_cons_inv_l in HS as (z & m' & Hyz & HS & ->).
    constructor; [by exists y|by apply IH].
Qed.

Section HandlerExtras.
Context {externals : Externals} {dataStore : DataStore}.

Lemma handleMempoolTxsMessage_cases (rawTxs : list string) (w : World) :
  (∃ e, handleMempoolTxsMessage rawTxs w = (Throw e, w))
  ∨ (∃ dbMempoolTxs,
       handleMempoolTxsMessage rawTxs w = dbCall (updateMempoolTxs dbMempoolTxs) w
       ∧ Forall2
           (λ str dbMempoolTx,
              ∃ buffer parsedTx txSender sponsorAddress,
                hexToBuffer str = Ok buffer
                ∧ decodeTransaction buffer = Ok parsedTx
                ∧ getTxSenderAddress parsedTx = Ok txSender
                ∧ getTxSponsorAddress parsedTx = Ok sponsorAddress
                ∧ createDbMempoolTxFromCoreMsg
                    {| MempoolTxArgs.txId := DecodedTxResult.tx_id parsedTx;
                       MempoolTxArgs.txData := parsedTx;
                       MempoolTxArgs.sender := txSender;
                       MempoolTxArgs.sponsorAddress := sponsorAddress;
                       MempoolTxArgs.rawTx := buffer;
                       MempoolTxArgs.receiptDate := ((clock w + 500) `div` 1000)%Z |}
                  = Ok dbMempoolTx)
           rawTxs dbMempoolTxs).
Proof.
  unfold handleMempoolTxsMessage. rewrite lift_bind.
  destruct (mapResult hexToBuffer rawTxs) as [rawTxBuffers|e] eqn:H1; [|by left; exists e].
  rewrite lift_bind.
  destruct (mapResult _ rawTxBuffers) as [decodedTxs|e] eqn:H2; [|by left; exists e].
  rewrite lift_bind.
  destruct (mapResult _ decodedTxs) as [dbMempoolTxs|e] eqn:H3; [|by left; exists e].
  right. exists dbMempoolTxs. split; [done|].
  apply mapResult_Forall2 in H1, H2, H3.
  pose proof (Forall2_compose _ _ _ _ _ (Forall2_compose _ _ _ _ _ H1 H2) H3) as Hall.
  eapply Forall2_impl; [exact Hall|].
  intros str dbMempoolTx (decoded & (buffer & Hb & Hd) & Hc). simpl in *.
  apply Result_bind_Ok in Hd as (parsedTx & Hp & Hd).
  apply Result_bind_Ok in Hd as (txSender & Hs & Hd).
  apply Result_bind_Ok in Hd as (sponsorAddress & Hsp & Hd).
  injection Hd as <-. by exists buffer, parsedTx, txSender, sponsorAddress.
Qed.

Lemma handleDroppedMempoolTxsMessage_cases (msg : CoreNodeDropMempoolTxMessage.t) (w : World) :
  (∃ e, handleDroppedMempoolTxsMessage msg w = (Throw e, w))
  ∨ (∃ dbTxStatus,
       getTxDbStatus (CoreNodeDropMempoolTxMessage.reason msg) = Ok dbTxStatus
       ∧ handleDroppedMempoolTxsMessage msg w
         = dbCall (dropMempoolTxs dbTxStatus (CoreNodeDropMempoolTxMessage.dropped_txids msg))
             w).
Proof.
  unfold handleDroppedMempoolTxsMessage. rewrite lift_bind.
  destruct (getTxDbStatus _) as [dbTxStatus|e]; [|by left; exists e].
  right. by exists dbTxStatus.
Qed.

Lemma attachmentOf_other (message : CoreNodeAttachmentMessage.t) :
  ¬ isBnsAttachment message → attachmentOf message = Ok None.
Proof.
  unfold isBnsAttachment, attachmentOf. intros Hno.
  destruct (bool_decide _ || bool_decide _) eqn:Hb; [|done].
  apply orb_true_iff in Hb as [Hb|Hb]; apply bool_decide_eq_true in Hb; tauto.
Qed.

Lemma attachmentOf_bns (message : CoreNodeAttachmentMessage.t) :
  isBnsAttachment message → attachmentOf message ≠ Ok None.
Proof.
  unfold isBnsAttachment, attachmentOf. intros Hyes.
  destruct (bool_decide _ || bool_decide _) eqn:Hb.
  - intros Ha. repeat (apply Result_bind_Ok in Ha as (? & _ & Ha)). discriminate.
  - apply orb_false_iff in Hb as [Hb1 Hb2].
    apply bool_decide_eq_false in Hb1, Hb2. tauto.
Qed.

(** [msg.map(...).filter(...)]: the attachments of other contracts leave no
    trace, and every attachment of a BNS contract gives one record. *)
Lemma mapResult_attachmentOf (msg : list CoreNodeAttachmentMessage.t) :
  match mapResult attachmentOf msg with
  | Ok found =>
      mapResult attachmentOf (filter isBnsAttachment msg) = Ok (Some <$> omap id found)
  | Throw e => mapResult attachmentOf (filter isBnsAttachment msg) = Throw e
  end.
Proof.
  induction msg as [|message msg IH]; [done|].
  rewrite filter_cons. simpl.
  destruct (decide (isBnsAttachment message)) as [Hbns|Hother].
  - simpl. pose proof (attachmentOf_bns _ Hbns) as Hsome.
    destruct (attachmentOf message) as [[a|]|e]; [|done|done]. simpl.
    destruct (mapResult attachmentOf msg) as [found|e]; simpl; by rewrite IH.
  - rewrite (attachmentOf_other _ Hother). simpl.
    by destruct (mapResult attachmentOf msg) as [found|e].
Qed.

Lemma omap_id_Some {A} (l : list A) : omap id (Some <$> l) = l.
Proof. induction l as [|x l IH]; [done|]. csimpl. by rewrite IH. Qed.

Lemma handleNewAttachmentMessage_cases (msg : list CoreNodeAttachmentMessage.t) (w : World) :
  (∃ e, handleNewAttachmentMessage msg w = (Throw e, w))
  ∨ (∃ attachments,
       Forall2 (λ message a, attachmentOf message = Ok (Some a))
         (filter isBnsAttachment msg) attachments
       ∧ handleNewAttachmentMessage msg w = dbCall (updateAttachments attachments) w).
Proof.
  unfold handleNewAttachmentMessage. rewrite lift_bind.
  pose proof (mapResult_attachmentOf msg) as Hmap.
  destruct (mapResult attachmentOf msg) as [found|e]; [|by left; exists e].
  right. exists (omap id found). split; [|done].
  apply mapResult_Forall2 in Hmap. by apply Forall2_fmap_r in Hmap.
Qed.





(** Attachments of contracts other than the two BNS contracts have no
    influence on what [handleNewAttachmentMessage] does: the outcome and
    the call to the store are those for the message without them. *)
Theorem other_attachments_are_skipped (msg : list CoreNodeAttachmentMessage.t) (w : World) :
  handleNewAttachmentMessage msg w
  = handleNewAttachmentMessage (filter isBnsAttachment msg) w.
Proof.
  unfold handleNewAttachmentMessage. rewrite !lift_bind.
  pose proof (mapResult_attachmentOf msg) as Hmap.
  destruct (mapResult attachmentOf msg) as [found|e]; rewrite Hmap; [|done].
  by rewrite omap_id_Some.
Qed.


(** Every record of the bundle that the anchor-block handler hands to
    [update] agrees with the block of the bundle: the microblocks on the
    hashes and height of the block, with the height before as
    [parent_block_height]; the miner rewards on [index_block_hash] and, as
    [mature_block_height], the height; the smart contracts and events of
    every transaction on the height. *)
Theorem block_bundle_agrees_with_its_block (chainId : ChainID)
    (msg : CoreNodeBlockMessage.t) (w : World) :
  ∃ new,
    calls (handleBlockMessage chainId msg w).2 = calls w ++ new
    ∧ Forall
        (λ c, ∃ data,
           c = update data
           ∧ let block := DataStoreBlockUpdateData.block data in
             Forall
               (λ mb,
                  DbMicroblock.block_height mb = DbBlock.block_height block
                  ∧ DbMicroblock.parent_block_height mb = (DbBlock.block_height block - 1)%Z
                  ∧ DbMicroblock.index_block_hash mb = DbBlock.index_block_hash block
                  ∧ DbMicroblock.block_hash mb = DbBlock.block_hash block
                  ∧ DbMicroblock.parent_block_hash mb = DbBlock.parent_block_hash block)
               (DataStoreBlockUpdateData.microblocks data)
             ∧ Forall
                 (λ r,
                    DbMinerReward.mature_block_height r = DbBlock.block_height block
                    ∧ DbMinerReward.index_block_hash r = DbBlock.index_block_hash block)
                 (DataStoreBlockUpdateData.minerRewards data)
             ∧ Forall
                 (λ d,
                    Forall (λ sc, DbSmartContract.block_height sc = DbBlock.block_height block)
                      (DataStoreTxEventData.smartContracts d)
                    ∧ Forall (λ ev, DbEventBase.block_height (DbEvent.base ev)
                                    = DbBlock.block_height block)
                        (mergedEvents d))
                 (DataStoreBlockUpdateData.txs data))
        new.
Proof.
  destruct (handleBlockMessage_cases chainId msg w)
    as [[e ->]|(parsedTxs & dbMinerRewards & partials & txs & _ & Hrewards & Htxs & ->)].
  - exists []. simpl. by rewrite app_nil_r.
  - eexists [_]. rewrite dbCall_calls. split; [done|].
    apply Forall_singleton. eexists. split; [done|]. simpl. split_and!.
    + apply Forall_fmap, Forall_true. by intros mb.
    + eapply mapResult_Forall; [exact Hrewards|].
      intros r y Hy. unfold mkDbMinerReward in Hy.
      repeat (apply Result_bind_Ok in Hy as (? & _ & Hy)). by simplify_eq.
    + exact (parse_block_heights _ _ _ _ _ Htxs).
Qed.

(** The smart contracts and events that the microblock handler hands to
    [updateMicroblocks] all carry the block height -1, which stands for a
    height that is not known yet. *)
Theorem microblock_bundle_heights_are_unset (chainId : ChainID)
    (msg : CoreNodeMicroblockMessage.t) (w : World) :
  ∃ new,
    calls (handleMicroblockMessage chainId msg w).2 = calls w ++ new
    ∧ Forall
        (λ c, ∃ data,
           c = updateMicroblocks data
           ∧ Forall
               (λ d,
                  Forall (λ sc, DbSmartContract.block_height sc = (-1)%Z)
                    (DataStoreTxEventData.smartContracts d)
                  ∧ Forall (λ ev, DbEventBase.block_height (DbEvent.base ev) = (-1)%Z)
                      (mergedEvents d))
               (DataStoreMicroblockUpdateData.txs data))
        new.
Proof.
  destruct (handleMicroblockMessage_cases chainId msg w)
    as [[e ->]|(dbMicroblocks & parsedTxs & txs & _ & _ & Htxs & ->)].
  - exists []. simpl. by rewrite app_nil_r.
  - eexists [_]. rewrite dbCall_calls. split; [done|].
    apply Forall_singleton. eexists. split; [done|]. simpl.
    exact (parse_block_heights _ _ _ _ _ Htxs).
Qed.

Lemma mapResult_Throw {A B} (f : A → Result B) (l : list A) (x : A) :
  x ∈ l → isThrow (f x) → isThrow (mapResult f l).
Proof.
  intros Hin Hx. induction l as [|y l IH]; [by apply elem_of_nil in Hin|].
  apply elem_of_cons in Hin as [->|Hin]; simpl.
  - by apply isThrow_bind_l.
  - apply isThrow_bind_r. intros ? _. apply isThrow_bind_l. by apply IH.
Qed.

(** A matured miner reward with an amount that [BigInt] rejects makes the
    anchor-block handler throw before it has called the store: the block
    and its transactions are not stored either. *)
Theorem malformed_miner_reward_aborts_block (chainId : ChainID)
    (msg : CoreNodeBlockMessage.t) (w : World) (minerReward : MaturedMinerReward.t) :
  minerReward ∈ CoreNodeBlockMessage.matured_miner_rewards msg →
  isThrow (BigInt (MaturedMinerReward.coinbase_amount minerReward))
  ∨ isThrow (BigInt (MaturedMinerReward.tx_fees_anchored minerReward))
  ∨ isThrow (BigInt (MaturedMinerReward.tx_fees_streamed_confirmed minerReward))
  ∨ isThrow (BigInt (MaturedMinerReward.tx_fees_streamed_produced minerReward)) →
  ∃ e, handleBlockMessage chainId msg w = (Throw e, w).
Proof.
  intros Hin Hbad.
  destruct (handleBlockMessage_cases chainId msg w)
    as [?|(parsedTxs & dbMinerRewards & partials & txs & _ & Hrewards & _)]; [done|].
  exfalso.
  assert (Hthrow : isThrow (mkDbMinerReward msg minerReward)).
  { unfold mkDbMinerReward.
    destruct Hbad as [H|[H|[H|H]]];
      repeat first [by apply isThrow_bind_l | apply isThrow_bind_r; intros ? _]. }
  pose proof (mapResult_Throw _ _ _ Hin Hthrow) as Hall. by rewrite Hrewards in Hall.
Qed.

(** The handlers of block, microblock, mempool, dropped-transaction and
    attachment messages and of raw requests do all their parsing before
    they call the store, and call it once: each either throws in the world
    it started from, or is a single call to the store. *)
Theorem handlers_store_once_or_never (chainId : ChainID) :
  (∀ msg, storesOnceOrNever (handleBlockMessage chainId msg))
  ∧ (∀ msg, storesOnceOrNever (handleMicroblockMessage chainId msg))
  ∧ (∀ rawTxs, storesOnceOrNever (handleMempoolTxsMessage rawTxs))
  ∧ (∀ msg, storesOnceOrNever (handleDroppedMempoolTxsMessage msg))
  ∧ (∀ msg, storesOnceOrNever (handleNewAttachmentMessage msg))
  ∧ (∀ eventPath payload, storesOnceOrNever (handleRawEventRequest eventPath payload)).
Proof.
  split_and!.
  - intros msg w. destruct (handleBlockMessage_cases chainId msg w)
      as [?|(? & ? & ? & ? & _ & _ & _ & ->)]; [by left|right; by eexists].
  - intros msg w. destruct (handleMicroblockMessage_cases chainId msg w)
      as [?|(? & ? & ? & _ & _ & _ & ->)]; [by left|right; by eexists].
  - intros rawTxs w. destruct (handleMempoolTxsMessage_cases rawTxs w)
      as [?|(? & -> & _)]; [by left|right; by eexists].
  - intros msg w. destruct (handleDroppedMempoolTxsMessage_cases msg w)
      as [?|(? & _ & ->)]; [by left|right; by eexists].
  - intros msg w. destruct (handleNewAttachmentMessage_cases msg w)
      as [?|(? & _ & ->)]; [by left|right; by eexists].
  - intros eventPath payload w. right. by eexists.
Qed.

End HandlerExtras.

(** ** The routes *)

Section RouteExtras.
Context {externals : Externals} {dataStore : DataStore}.



End RouteExtras.

(** ** Where the event server listens *)

Section AddressExtras.
Context {runtime : Runtime}.

(** [startEventServer] refuses to start without a host, and names the host
    even when the port is missing too: an empty [serverHost] option is not
    replaced by the environment's host, and without the option the
    variable must be set and not empty.  With a host, a port that is no
    integer (the option, or what [parseInt] makes of the variable) is
    refused. *)
Theorem event_server_address_is_validated (serverHost : option string)
    (serverPort : option Num) (env : gmap string string) :
  (serverHost = Some ""
   ∨ (serverHost = None
      ∧ (env !! "STACKS_CORE_EVENT_HOST" = None ∨ env !! "STACKS_CORE_EVENT_HOST" = Some "")) →
   eventServerAddress serverHost serverPort env = Throw eventHostMissing)
  ∧ (∀ host,
       host ≠ "" →
       serverHost = Some host
       ∨ (serverHost = None ∧ env !! "STACKS_CORE_EVENT_HOST" = Some host) →
       serverPort = Some NonInteger
       ∨ (serverPort = None
          ∧ parseInt10 (default "" (env !! "STACKS_CORE_EVENT_PORT")) = None) →
       eventServerAddress serverHost serverPort env = Throw eventPortMissing).
Proof.
  unfold eventServerAddress. split.
  - intros [->|[-> [->| ->]]]; done.
  - intros host Hhost Hfrom Hport.
    assert (Hh : match serverHost with
                 | Some host => Some host
                 | None => env !! "STACKS_CORE_EVENT_HOST"
                 end = Some host) by (by destruct Hfrom as [->|[-> ->]]).
    rewrite Hh.
    destruct host as [|c host]; [done|].
    by destruct Hport as [->|[-> ->]].
Qed.

End AddressExtras.

(** ** The entry point *)

Section EntryExtras.
Context {externals : Externals} {runtime : Runtime} {platform : Platform}.

Lemma bind_Ok {A B} (m : Startup A) (k : A → Startup B) (t t' : list Effect.t) (b : B) :
  (m ≫= k) t = (Ok b, t') → ∃ a t1, m t = (Ok a, t1) ∧ k a t1 = (Ok b, t').
Proof.
  unfold mbind, Startup_bind. destruct (m t) as [[a|e] t1]; [|done]. by exists a, t1.
Qed.

Lemma bind_Throw {A B} (m : Startup A) (k : A → Startup B) (t t1 : list Effect.t)
    (e : JsError) :
  m t = (Throw e, t1) → (m ≫= k) t = (Throw e, t1).
Proof. unfold mbind, Startup_bind. by intros ->. Qed.

Lemma bind_run {A B} (m : Startup A) (k : A → Startup B) (t t1 : list Effect.t) (a : A) :
  m t = (Ok a, t1) → (m ≫= k) t = k a t1.
Proof. unfold mbind, Startup_bind. by intros ->. Qed.

(** *** What a run may do *)

Lemma emitsOnly_ret {A} (P : Effect.t → Prop) (a : A) : emitsOnly P (mret a).
Proof. intros t. exists []. by rewrite app_nil_r. Qed.

Lemma emitsOnly_pure {A} (P : Effect.t → Prop) (r : Result A) : emitsOnly P (pure r).
Proof. intros t. exists []. by rewrite app_nil_r. Qed.

Lemma emitsOnly_perform {A} (P : Effect.t → Prop) (effect : Effect.t) (r : Result A) :
  P effect → emitsOnly P (perform effect r).
Proof. intros HP t. exists [effect]. split; [done|by constructor]. Qed.

(** The continuation is met with what the first part returns only. *)
Lemma emitsOnly_bind {A B} (P : Effect.t → Prop) (m : Startup A) (k : A → Startup B) :
  emitsOnly P m →
  (∀ a t, (m t).1 = Ok a → emitsOnly P (k a)) →
  emitsOnly P (m ≫= k).
Proof.
  intros Hm Hk t. unfold mbind, Startup_bind.
  destruct (Hm t) as (new1 & H1 & HP1).
  assert (Hk' : ∀ a, (m t).1 = Ok a → emitsOnly P (k a)) by (intros a; apply Hk).
  destruct (m t) as [[a|e] t1]; simpl in *; subst.
  - destruct (Hk' a eq_refl (t ++ new1)) as (new2 & H2 & HP2).
    exists (new1 ++ new2). rewrite H2, (assoc_L (++)). split; [done|by apply Forall_app].
  - by exists new1.
Qed.

Lemma emitsOnly_elem_of {A} (P : Effect.t → Prop) (m : Startup A) (effect : Effect.t) :
  emitsOnly P m → effect ∈ (m []).2 → P effect.
Proof.
  intros Hm Hin. destruct (Hm []) as (new & Hnew & HP).
  rewrite Hnew in Hin. simpl in Hin. rewrite Forall_forall in HP. by apply HP.
Qed.

Lemma emitsOnly_extends {A} (P : Effect.t → Prop) (m : Startup A) (t : list Effect.t)
    (effect : Effect.t) :
  emitsOnly P m → effect ∈ t → effect ∈ (m t).2.
Proof.
  intros Hm Hin. destruct (Hm t) as (new & -> & _). apply elem_of_app. by left.
Qed.

Ltac emits_step :=
  first
    [ apply emitsOnly_ret | apply emitsOnly_pure
    | apply emitsOnly_perform
    | apply emitsOnly_bind; [|intros ? ? ?] ].

(** A computation whose effects need no look. *)
Ltac appends_only :=
  unfold connectStore, startIngestion, awaitStartEventServer;
  repeat first [emits_step | case_decide | case_match]; done.

(** The store that the run goes on with is the store of the mode. *)
Lemma store_of_run (env : gmap string string) (mode : StacksApiMode.t) (db : Db)
    (t : list Effect.t) :
  ((if decide (mode = StacksApiMode.offline) then mret OfflineDummyStore
    else connectStore env mode) t).1 = Ok db →
  db = storeOf mode.
Proof.
  unfold storeOf. case_decide; [by intros [= <-]|].
  unfold connectStore. intros Hdb.
  destruct (perform _ _ ≫= _) as [[db'|e] t1] eqn:Hrun; simplify_eq/=.
  apply bind_Ok in Hrun as ([] & t2 & _ & Hrun).
  by apply bind_Ok in Hrun as ([] & t3 & _ & [= <- _]).
Qed.

Lemma startIngestion_allowed (env : gmap string string) (mode : StacksApiMode.t) (db : Db) :
  getApiMode env = Ok mode → ingests mode → emitsOnly (allowed env) (startIngestion env db).
Proof.
  intros Hmode Hingests. unfold startIngestion, awaitStartEventServer.
  repeat first [emits_step | case_decide | case_match]; simpl; eauto.
Qed.

(** Every effect of a run of [init] is one the mode allows. *)
Lemma init_allowed (env : gmap string string) : emitsOnly (allowed env) (init env).
Proof.
  unfold init.
  apply emitsOnly_bind; [case_match; emits_step|intros _ _ _].
  apply emitsOnly_bind; [emits_step|intros apiMode t Hmode]. simpl in Hmode.
  apply emitsOnly_bind; [|intros db t' Hdb].
  - destruct (decide (apiMode = StacksApiMode.offline)) as [Hoffline|Hoffline]; [emits_step|].
    unfold connectStore.
    apply emitsOnly_bind; [apply emitsOnly_perform; simpl; by eexists|intros _ _ _].
    apply emitsOnly_bind; [|intros _ _ _; emits_step].
    destruct (decide (apiMode ≠ StacksApiMode.readOnly)) as [Hwrites|_]; [|emits_step].
    apply (startIngestion_allowed _ apiMode); [done|].
    unfold ingests. destruct apiMode; tauto.
  - apply store_of_run in Hdb.
    repeat first [emits_step | case_decide | case_match]; simpl; eauto.
Qed.

(** The event server is started in the modes [default] and [writeonly]
    only: in no other mode, and not when the mode cannot be determined,
    does a run of [init] get as far as listening for the node, whatever
    else happens in it. *)
Theorem event_server_only_where_events_are_taken_in (env : gmap string string)
    (host : string) (port : Z) :
  Effect.listen host port ∈ (init env []).2 →
  ∃ mode, getApiMode env = Ok mode ∧ ingests mode.
Proof. intros Hin. exact (emitsOnly_elem_of _ _ _ (init_allowed env) Hin). Qed.

(** The store follows the mode: a connection to Postgres is made in no run
    in [offline] mode, under the name [datastore-<mode>] and without
    migrations exactly in [readonly] mode; and the API server, which no
    run starts in [writeonly] mode, is given the dummy store in [offline]
    mode and that connection otherwise. *)
Theorem store_follows_the_mode (env : gmap string string) :
  (∀ usageName skipMigrations,
     Effect.connect usageName skipMigrations ∈ (init env []).2 →
     ∃ mode,
       getApiMode env = Ok mode
       ∧ mode ≠ StacksApiMode.offline
       ∧ usageName = "datastore-" +:+ StacksApiMode_value mode
       ∧ skipMigrations = bool_decide (mode = StacksApiMode.readOnly))
  ∧ (∀ db chainId,
       Effect.startApiServer db chainId ∈ (init env []).2 →
       ∃ mode,
         getApiMode env = Ok mode
         ∧ mode ≠ StacksApiMode.writeOnly
         ∧ db = storeOf mode
         ∧ getApiConfiguredChainID = Ok chainId).
Proof.
  split; intros ? ? Hin; exact (emitsOnly_elem_of _ _ _ (init_allowed env) Hin).
Qed.

(** *** What a run that succeeds has done *)

Lemma eventually_perform {A} (Q : Effect.t → Prop) (effect : Effect.t) (r : Result A) :
  Q effect → eventually Q (perform effect r).
Proof.
  intros HQ t a t' [= _ <-]. exists effect. split; [done|]. apply elem_of_app. right. left.
Qed.

(** The first part has the effect, and the continuation keeps it. *)
Lemma eventually_bind_l {A B} (Q P : Effect.t → Prop) (m : Startup A) (k : A → Startup B) :
  eventually Q m → (∀ a, emitsOnly P (k a)) → eventually Q (m ≫= k).
Proof.
  intros Hm Hk t b t' Hrun. apply bind_Ok in Hrun as (a & t1 & H1 & H2).
  destruct (Hm _ _ _ H1) as (effect & HQ & Hin). exists effect. split; [done|].
  replace t' with (k a t1).2 by (by rewrite H2). by eapply emitsOnly_extends.
Qed.

Lemma eventually_bind_r {A B} (Q : Effect.t → Prop) (m : Startup A) (k : A → Startup B) :
  (∀ a t, (m t).1 = Ok a → eventually Q (k a)) → eventually Q (m ≫= k).
Proof.
  intros Hk t b t' Hrun. apply bind_Ok in Hrun as (a & t1 & H1 & H2).
  eapply (Hk a t); [by rewrite H1|exact H2].
Qed.

(** Into [init], past the check of the build and the mode. *)
Ltac enter_init Hmode :=
  unfold init;
  apply eventually_bind_r; intros _ _ _;
  apply eventually_bind_r;
  let apiMode := fresh "apiMode" in
  let Hm := fresh "Hm" in
  intros apiMode ? Hm; simpl in Hm; rewrite Hmode in Hm; injection Hm as <-.

Lemma elem_of_registered (name : string) (forceKillable : bool) (trace : list Effect.t) :
  Effect.registerShutdownConfig name forceKillable ∈ trace → name ∈ registered trace.
Proof.
  intros Hin. unfold registered. apply list_elem_of_omap.
  by exists (Effect.registerShutdownConfig name forceKillable).
Qed.

(** [startIngestion] listens at the address the environment gives. *)
Lemma startIngestion_listens (env : gmap string string) (db : Db) :
  eventually
    (λ effect, ∃ host port,
       eventServerAddress None None env = Ok (host, port)
       ∧ effect = Effect.listen host port)
    (startIngestion env db).
Proof.
  unfold startIngestion, awaitStartEventServer.
  apply eventually_bind_r. intros configuredChainID _ _.
  apply (eventually_bind_l _ anything); [|intros; appends_only].
  apply eventually_bind_r. intros [host port] t Haddress. simpl in Haddress.
  apply eventually_perform. by exists host, port.
Qed.

(** A run of [init] that succeeds has started what the mode asks for:
    outside [offline] mode the store is connected, in the modes [default]
    and [writeonly] the event server listens at the address the
    environment gives, outside [writeonly] mode the API server runs on the
    store of the mode, and the shutdown of the store is registered. *)
Theorem successful_start_matches_the_mode (env : gmap string string)
    (mode : StacksApiMode.t) (trace : list Effect.t) :
  getApiMode env = Ok mode →
  init env [] = (Ok (), trace) →
  (mode ≠ StacksApiMode.offline →
   Effect.connect ("datastore-" +:+ StacksApiMode_value mode)
     (bool_decide (mode = StacksApiMode.readOnly)) ∈ trace)
  ∧ (ingests mode →
     ∃ host port,
       eventServerAddress None None env = Ok (host, port)
       ∧ Effect.listen host port ∈ trace)
  ∧ (mode ≠ StacksApiMode.writeOnly →
     ∃ chainId,
       getApiConfiguredChainID = Ok chainId
       ∧ Effect.startApiServer (storeOf mode) chainId ∈ trace)
  ∧ "DB" ∈ registered trace.
Proof.
  intros Hmode Hinit. split_and!.
  - intros Hoffline.
    assert (Hev : eventually
                    (λ effect,
                       effect = Effect.connect ("datastore-" +:+ StacksApiMode_value mode)
                                  (bool_decide (mode = StacksApiMode.readOnly)))
                    (init env)).
    { enter_init Hmode.
      apply (eventually_bind_l _ anything); [|intros; appends_only].
      rewrite decide_False by done. unfold connectStore.
      apply (eventually_bind_l _ anything); [|intros; appends_only].
      by apply eventually_perform. }
    by destruct (Hev _ _ _ Hinit) as (effect & -> & Hin).
  - intros Hingests.
    assert (Hev : eventually
                    (λ effect, ∃ host port,
                       eventServerAddress None None env = Ok (host, port)
                       ∧ effect = Effect.listen host port)
                    (init env)).
    { enter_init Hmode.
      apply (eventually_bind_l _ anything); [|intros; appends_only].
      rewrite decide_False by (by destruct Hingests as [-> | ->]). unfold connectStore.
      apply eventually_bind_r. intros _ _ _.
      apply (eventually_bind_l _ anything); [|intros; appends_only].
      rewrite decide_True by (by destruct Hingests as [-> | ->]).
      apply startIngestion_listens. }
    destruct (Hev _ _ _ Hinit) as (effect & (host & port & Haddress & ->) & Hin).
    by exists host, port.
  - intros Hwrite.
    assert (Hev : eventually
                    (λ effect, ∃ chainId,
                       getApiConfiguredChainID = Ok chainId
                       ∧ effect = Effect.startApiServer (storeOf mode) chainId)
                    (init env)).
    { enter_init Hmode.
      apply eventually_bind_r. intros db t0 ->%store_of_run.
      apply (eventually_bind_l _ anything); [|intros; appends_only].
      rewrite decide_True by done.
      apply eventually_bind_r. intros chainId t' Hchain. simpl in Hchain.
      apply (eventually_bind_l _ anything); [|intros; appends_only].
      apply eventually_perform. by exists chainId. }
    destruct (Hev _ _ _ Hinit) as (effect & (chainId & Hchain & ->) & Hin).
    by exists chainId.
  - assert (Hev : eventually (λ effect, effect = Effect.registerShutdownConfig "DB" false)
                    (init env)).
    { enter_init Hmode.
      do 3 (apply eventually_bind_r; intros ? ? _).
      apply (eventually_bind_l _ anything); [|intros; appends_only].
      by apply eventually_perform. }
    destruct (Hev _ _ _ Hinit) as (effect & -> & Hin).
    by eapply elem_of_registered.
Qed.

(** *** Runs that stop while the store is connected *)

Lemma isThrow_bind_run_l {A B} (m : Startup A) (k : A → Startup B) (t : list Effect.t) :
  isThrow (m t).1 → isThrow ((m ≫= k) t).1.
Proof. unfold mbind, Startup_bind. by destruct (m t) as [[a|e] t1]. Qed.

Lemma isThrow_bind_run_r {A B} (m : Startup A) (k : A → Startup B) (t : list Effect.t) :
  (∀ a t1, m t = (Ok a, t1) → isThrow (k a t1).1) → isThrow ((m ≫= k) t).1.
Proof.
  unfold mbind, Startup_bind. intros Hk. destruct (m t) as [[a|e] t1]; [|done]. by apply Hk.
Qed.

Lemma beforeApi_registered (trace : list Effect.t) :
  Forall beforeApi trace →
  (∀ db chainId, Effect.startApiServer db chainId ∉ trace) ∧ "DB" ∉ registered trace.
Proof.
  intros Hall. rewrite Forall_forall in Hall. split.
  - intros db chainId Hin. exact (Hall _ Hin).
  - intros Hin. apply list_elem_of_omap in Hin as (effect & Hin & Hname).
    specialize (Hall _ Hin). by destruct effect; simplify_eq/=.
Qed.

Lemma connectStore_beforeApi (env : gmap string string) (mode : StacksApiMode.t) :
  emitsOnly beforeApi (connectStore env mode).
Proof.
  unfold connectStore, startIngestion, awaitStartEventServer.
  repeat first [emits_step | case_decide | case_match]; done.
Qed.

(** A run of [init] in which [connectStore] fails ends there. *)
Lemma init_stops_with_the_store (env : gmap string string) (mode : StacksApiMode.t) :
  getApiMode env = Ok mode →
  mode ≠ StacksApiMode.offline →
  isThrow (connectStore env mode []).1 →
  isThrow (init env []).1
  ∧ ((init env []).2 = [] ∨ (init env []).2 = (connectStore env mode []).2).
Proof.
  intros Hmode Hoffline Hstore. unfold init.
  destruct (isProdEnv && negb (existsSync ".git-info")); [by split; [|left]|].
  rewrite (bind_run _ _ _ [] ()) by done.
  rewrite (bind_run _ _ _ [] mode) by (by unfold pure; rewrite Hmode).
  rewrite decide_False by done.
  destruct (connectStore env mode []) as [[db|e] t1] eqn:Hrun; [done|].
  rewrite (bind_Throw _ _ _ _ _ Hrun). by split; [|right].
Qed.

Lemma startIngestion_mismatch (env : gmap string string) (db : Db) (t : list Effect.t)
    (configuredChainID networkChainId : ChainID) :
  getApiConfiguredChainID = Ok configuredChainID →
  getStacksNodeChainID = Ok networkChainId →
  networkChainId ≠ configuredChainID →
  isThrow (startIngestion env db t).1.
Proof.
  intros Hconfigured Hnode Hne. unfold startIngestion.
  rewrite (bind_run _ _ _ t configuredChainID) by (by unfold pure; rewrite Hconfigured).
  apply isThrow_bind_run_r. intros [] t1 _.
  rewrite (bind_run _ _ _ _ ()) by done.
  rewrite (bind_run _ _ _ _ networkChainId) by (by unfold perform; rewrite Hnode).
  by rewrite decide_True.
Qed.

(** When the node reports another chain id than the one configured, a run
    of [init] in the modes [default] and [writeonly] fails; the event
    server may be listening by then, but the API server is not started and
    the shutdown of the store is not registered. *)
Theorem chain_id_mismatch_stops_the_start (env : gmap string string)
    (mode : StacksApiMode.t) (configuredChainID networkChainId : ChainID) :
  getApiMode env = Ok mode →
  ingests mode →
  getApiConfiguredChainID = Ok configuredChainID →
  getStacksNodeChainID = Ok networkChainId →
  networkChainId ≠ configuredChainID →
  isThrow (init env []).1
  ∧ (∀ db chainId, Effect.startApiServer db chainId ∉ (init env []).2)
  ∧ "DB" ∉ registered (init env []).2.
Proof.
  intros Hmode Hingests Hconfigured Hnode Hne.
  assert (Hstore : isThrow (connectStore env mode []).1).
  { unfold connectStore. apply isThrow_bind_run_r. intros [] t1 _.
    rewrite decide_True by (by destruct Hingests as [-> | ->]).
    by eapply isThrow_bind_run_l, startIngestion_mismatch. }
  destruct (init_stops_with_the_store env mode Hmode) as [Hthrow Htrace];
    [by destruct Hingests as [-> | ->]|done|].
  split; [done|]. apply beforeApi_registered.
  destruct Htrace as [-> | ->]; [constructor|].
  destruct (connectStore_beforeApi env mode []) as (new & -> & Hnew). done.
Qed.

(** Without [STACKS_CORE_EVENT_HOST], a run of [init] in the modes
    [default] and [writeonly] fails, and the most it has done by then is
    to connect the store: no server has been started. *)
Theorem missing_event_host_stops_the_start (env : gmap string string)
    (mode : StacksApiMode.t) :
  getApiMode env = Ok mode →
  ingests mode →
  env !! "STACKS_CORE_EVENT_HOST" = None →
  isThrow (init env []).1
  ∧ ∀ effect,
      effect ∈ (init env []).2 →
      effect = Effect.connect ("datastore-" +:+ StacksApiMode_value mode) false.
Proof.
  intros Hmode Hingests Hhost.
  assert (Hreadonly : bool_decide (mode = StacksApiMode.readOnly) = false)
    by (by destruct Hingests as [-> | ->]).
  assert (Hstore : ∃ e,
            connectStore env mode []
            = (Throw e, [Effect.connect ("datastore-" +:+ StacksApiMode_value mode) false])).
  { unfold connectStore. rewrite Hreadonly.
    destruct (PgDataStore_connect ("datastore-" +:+ StacksApiMode_value mode) false)
      as [[]|e] eqn:Hconnect;
      [|by exists e].
    rewrite (bind_run _ _ _ _ ()) by done.
    rewrite decide_True by (by destruct Hingests as [-> | ->]).
    unfold startIngestion, awaitStartEventServer, eventServerAddress. rewrite Hhost.
    destruct getApiConfiguredChainID as [configuredChainID|e]; by eexists. }
  destruct Hstore as [e Hstore].
  destruct (init_stops_with_the_store env mode Hmode) as [Hthrow Htrace];
    [by destruct Hingests as [-> | ->]|by rewrite Hstore|].
  split; [done|]. intros effect Hin.
  destruct Htrace as [Htrace|Htrace]; rewrite Htrace in Hin; [by apply elem_of_nil in Hin|].
  rewrite Hstore in Hin. by apply list_elem_of_singleton in Hin.
Qed.

(** *** The order of the shutdown entries *)

Lemma registered_app (t1 t2 : list Effect.t) :
  registered (t1 ++ t2) = registered t1 ++ registered t2.
Proof. apply omap_app. Qed.

Lemma registersWithin_weaken {A} (names names' : list string) (m : Startup A) :
  sublist names names' → registersWithin names m → registersWithin names' m.
Proof.
  intros Hsub Hm t. destruct (Hm t) as (new & Hnew & Hs).
  exists new. split; [done|]. by etransitivity.
Qed.

Lemma registersWithin_ret {A} (names : list string) (a : A) : registersWithin names (mret a).
Proof. intros t. exists []. rewrite app_nil_r. split; [done|apply sublist_nil_l]. Qed.

Lemma registersWithin_pure {A} (names : list string) (r : Result A) :
  registersWithin names (pure r).
Proof. intros t. exists []. rewrite app_nil_r. split; [done|apply sublist_nil_l]. Qed.

Lemma registersWithin_perform {A} (names : list string) (effect : Effect.t) (r : Result A) :
  sublist (registered [effect]) names → registersWithin names (perform effect r).
Proof. intros Hsub t. by exists [effect]. Qed.

Lemma registersWithin_bind {A B} (names1 names2 : list string) (m : Startup A)
    (k : A → Startup B) :
  registersWithin names1 m →
  (∀ a, registersWithin names2 (k a)) →
  registersWithin (names1 ++ names2) (m ≫= k).
Proof.
  intros Hm Hk t. unfold mbind, Startup_bind.
  destruct (Hm t) as (new1 & H1 & Hs1).
  destruct (m t) as [[a|e] t1]; simpl in *; subst.
  - destruct (Hk a (t ++ new1)) as (new2 & H2 & Hs2).
    exists (new1 ++ new2). rewrite H2, (assoc_L (++)). split; [done|].
    rewrite registered_app. by apply sublist_app.
  - exists new1. split; [done|]. by apply sublist_inserts_r.
Qed.

(** A step that registers nothing, before one that does. *)
Lemma registersWithin_bind_skip {A B} (names : list string) (m : Startup A)
    (k : A → Startup B) :
  registersWithin [] m →
  (∀ a, registersWithin names (k a)) →
  registersWithin names (m ≫= k).
Proof. apply (registersWithin_bind [] names). Qed.

(** A step that registers, before one that does not. *)
Lemma registersWithin_bind_last {A B} (names : list string) (m : Startup A)
    (k : A → Startup B) :
  registersWithin names m →
  (∀ a, registersWithin [] (k a)) →
  registersWithin names (m ≫= k).
Proof.
  intros Hm Hk. rewrite <-(app_nil_r names). by apply (registersWithin_bind names []).
Qed.

Ltac registers_nothing :=
  repeat first
    [ apply registersWithin_ret | apply registersWithin_pure
    | apply registersWithin_perform; simpl; apply sublist_nil_l
    | apply registersWithin_bind_skip; [|intros ?]
    | case_decide | case_match ].

Lemma startIngestion_registers (env : gmap string string) (db : Db) :
  registersWithin ["Event Server"; "Token Metadata Processor"] (startIngestion env db).
Proof.
  unfold startIngestion, awaitStartEventServer.
  apply registersWithin_bind_skip; [registers_nothing|intros configuredChainID].
  apply registersWithin_bind_skip; [registers_nothing|intros _].
  apply (registersWithin_bind ["Event Server"] ["Token Metadata Processor"]);
    [by apply registersWithin_perform|intros _].
  apply registersWithin_bind_skip; [registers_nothing|intros networkChainId].
  case_decide; [apply registersWithin_pure|].
  apply registersWithin_bind_skip; [registers_nothing|intros _].
  case_match; [|apply registersWithin_ret].
  apply registersWithin_bind_skip; [registers_nothing|intros _].
  apply registersWithin_bind_last;
    [by apply registersWithin_perform|intros _; registers_nothing].
Qed.

(** The entries of the shutdown sequence are registered in one order,
    whatever the mode and whatever fails: event server, token metadata
    processor, API server, profiler, store, Prometheus. *)
Theorem shutdown_entries_keep_one_order (env : gmap string string) :
  sublist (registered (init env []).2)
    ["Event Server"; "Token Metadata Processor"; "API Server"; "Profiler server"; "DB";
     "Prometheus"].
Proof.
  assert (Hinit : registersWithin
            (["Event Server"; "Token Metadata Processor"]
             ++ ["API Server"] ++ ["Profiler server"] ++ ["DB"] ++ ["Prometheus"])
            (init env)).
  { unfold init.
    apply registersWithin_bind_skip; [registers_nothing|intros _].
    apply registersWithin_bind_skip; [registers_nothing|intros apiMode].
    apply registersWithin_bind; [|intros db].
    { case_decide; [apply registersWithin_ret|]. unfold connectStore.
      apply registersWithin_bind_skip; [registers_nothing|intros _].
      apply registersWithin_bind_last; [|intros _; registers_nothing].
      case_decide; [apply startIngestion_registers|apply registersWithin_ret]. }
    apply registersWithin_bind; [|intros _].
    { case_decide; [|apply registersWithin_ret].
      apply registersWithin_bind_skip; [registers_nothing|intros chainId].
      apply registersWithin_bind_skip; [registers_nothing|intros _].
      by apply registersWithin_perform. }
    apply registersWithin_bind; [|intros _].
    { repeat case_match; try apply registersWithin_ret.
      apply registersWithin_bind_skip; [registers_nothing|intros _].
      by apply registersWithin_perform. }
    apply registersWithin_bind; [by apply registersWithin_perform|intros _].
    case_match; [|apply registersWithin_ret].
    apply registersWithin_bind_skip; [registers_nothing|intros _].
    by apply registersWithin_perform. }
  by destruct (Hinit []) as (new & -> & Hnew).
Qed.

(** *** The command line *)


End EntryExtras.

(** ** Names and their labels *)

Lemma split_nonempty (sep : Ascii.ascii) (s : string) : split sep s ≠ [].
Proof.
  destruct s as [|c s]; simpl; [done|].
  destruct (Ascii.eqb c sep); [done|]. by destruct (split sep s).
Qed.

Lemma concat_cons (sep part : string) (parts : list string) :
  parts ≠ [] →
  String.concat sep (part :: parts) = part +:+ sep +:+ String.concat sep parts.
Proof. by destruct parts. Qed.

(** Joining the parts with the separator gives the string back. *)
Lemma concat_split (s : string) : String.concat "." (split dot s) = s.
Proof.
  induction s as [|c s IH]; simpl; [done|].
  destruct (Ascii.eqb_spec c dot) as [->|Hne].
  - rewrite concat_cons by apply split_nonempty. by rewrite IH.
  - pose proof (split_nonempty dot s) as Hparts.
    destruct (split dot s) as [|part parts]; [done|].
    destruct parts as [|part' parts]; simpl in *; by rewrite <-IH.
Qed.

(** The first part of a string has no separator in it. *)
Lemma split_head (s label : string) (parts : list string) :
  split dot s = label :: parts → split dot label = [label].
Proof.
  revert label parts. induction s as [|c s IH]; intros label parts; simpl.
  - by intros [= <- <-].
  - destruct (Ascii.eqb_spec c dot) as [->|Hne]; [by intros [= <- <-]|].
    pose proof (split_nonempty dot s) as Hne'.
    destruct (split dot s) as [|part parts'] eqn:Hs; [done|].
    intros [= <- <-]. simpl.
    destruct (Ascii.eqb_spec c dot); [done|]. by rewrite (IH part parts').
Qed.

(** A string with a separator is its first part, the separator, and the
    other parts joined. *)
Lemma split_first (s : string) :
  tail (split dot s) ≠ [] →
  ∃ label,
    split dot label = [label]
    ∧ s = label +:+ "." +:+ String.concat "." (tail (split dot s)).
Proof.
  intros Hparts. pose proof (concat_split s) as Hs.
  destruct (split dot s) as [|label parts] eqn:Hsplit; [done|]. cbn [tail] in *.
  exists label. split; [by eapply split_head|].
  by rewrite concat_cons in Hs.
Qed.

Section NamesExtras.
Context {namesStore : NamesStore}.

(** For a name of three labels that is no known subdomain, [GET /:name]
    asks for the resolver of the name without its first label, which is
    the name from behind its first dot on: the request is redirected to
    that resolver, and answered with 404 when the zonefile gave an empty
    resolver or the parent name has none. *)
Theorem unknown_subdomain_goes_to_the_resolver (chainId : ChainID) (req : NamesRequest.t)
    (includeUnanchored : bool) :
  let name := NamesRequest.params_name req in
  length (split dot name) = 3 →
  isUnanchoredRequest req = Ok includeUnanchored →
  getSubdomain name includeUnanchored = Ok None →
  ∃ label namePart,
    split dot label = [label]
    ∧ name = label +:+ "." +:+ namePart
    ∧ getNameInfo chainId req =
        match getSubdomainResolver namePart with
        | Ok (Some result) =>
            if decide (result = "")
            then Ok (notFound "missing resolver from a malformed zonefile")
            else Ok (redirect (result +:+ "/v1/names" +:+ NamesRequest.url req))
        | Ok None => Ok (notFound ("cannot find subdomain " +:+ name))
        | Throw e => Throw e
        end.
Proof.
  intros name Hlabels Hunanchored Hsubdomain.
  destruct (split_first name) as (label & Hlabel & Hname).
  { destruct (split dot name) as [|? [|? ?]]; simplify_eq/=; done. }
  exists label, (String.concat "." (tail (split dot name))). split_and!; [done..|].
  unfold getNameInfo, lookUpName. fold name. rewrite Hunanchored. simpl.
  rewrite Hlabels. simpl. rewrite Hsubdomain. simpl.
  destruct (getSubdomainResolver _) as [[result|]|e]; simpl; [|done..].
  destruct (String.eqb_spec result "") as [->|Hne];
    [by rewrite decide_True|by rewrite decide_False].
Qed.

(** Whatever [GET /:name] answers with status 200 is an object without a
    field that is null or undefined, sent with the cache headers, and it
    names the blockchain; the other answers are redirects and 404s
    without cache headers. *)
Theorem name_info_has_no_null_field (chainId : ChainID) (req : NamesRequest.t)
    (reply : Reply) :
  getNameInfo chainId req = Ok reply →
  match reply with
  | json status etag body =>
      (status = 200%Z
       ∧ etag = true
       ∧ ∃ response,
           body = JsObject response
           ∧ Forall (λ entry, nullish entry.2 = false) response
           ∧ ("blockchain", JsString bnsBlockchain) ∈ response)
      ∨ (status = 404%Z ∧ etag = false)
  | redirect _ => True
  end.
Proof.
  unfold getNameInfo. intros Hreply.
  apply Result_bind_Ok in Hreply as (includeUnanchored & _ & Hreply).
  apply Result_bind_Ok in Hreply as ([early|nameInfoResponse] & Hfound & Hreply);
    injection Hreply as <-.
  - unfold lookUpName in Hfound. destruct (_ =? 3).
    + apply Result_bind_Ok in Hfound as ([result|] & _ & Hfound); [done|].
      apply Result_bind_Ok in Hfound as ([result|] & _ & Hfound).
      * destruct (String.eqb result ""); injection Hfound as <-; [by right|done].
      * injection Hfound as <-. by right.
    + apply Result_bind_Ok in Hfound as ([result|] & _ & Hfound); [done|].
      injection Hfound as <-. by right.
  - left. split_and!; [done..|]. eexists. split_and!; [done| |].
    + apply Forall_forall. intros entry Hin. by apply list_elem_of_filter in Hin as [? _].
    + apply list_elem_of_filter. split; [done|].
      unfold lookUpName in Hfound. destruct (_ =? 3).
      * apply Result_bind_Ok in Hfound as ([result|] & _ & Hfound).
        -- injection Hfound as <-. unfold subdomainInfo. set_solver.
        -- apply Result_bind_Ok in Hfound as ([result|] & _ & Hfound); [|done].
           by destruct (String.eqb result "").
      * apply Result_bind_Ok in Hfound as ([result|] & _ & Hfound); [|done].
        injection Hfound as <-. unfold nameInfo. set_solver.
Qed.

(** [GET /:name] redirects in one situation only: the name has three
    labels, is no known subdomain, and the name without its first label
    has a resolver that is not empty; the target is that resolver followed
    by [/v1/names] and the URL of the request. *)
Theorem redirect_only_for_unknown_subdomains (chainId : ChainID) (req : NamesRequest.t)
    (location : string) :
  getNameInfo chainId req = Ok (redirect location) →
  let name := NamesRequest.params_name req in
  length (split dot name) = 3
  ∧ ∃ includeUnanchored result,
      isUnanchoredRequest req = Ok includeUnanchored
      ∧ getSubdomain name includeUnanchored = Ok None
      ∧ getSubdomainResolver (String.concat "." (tail (split dot name))) = Ok (Some result)
      ∧ result ≠ ""
      ∧ location = result +:+ "/v1/names" +:+ NamesRequest.url req.
Proof.
  intros Hreply name. unfold getNameInfo in Hreply.
  apply Result_bind_Ok in Hreply as (includeUnanchored & Hunanchored & Hreply).
  apply Result_bind_Ok in Hreply as ([early|nameInfoResponse] & Hfound & Hreply);
    [injection Hreply as ->|done].
  unfold lookUpName in Hfound. fold name in Hfound.
  destruct (Nat.eqb_spec (length (split dot name)) 3) as [Hlabels|_].
  - split; [done|].
    apply Result_bind_Ok in Hfound as ([subdomain|] & Hsubdomain & Hfound); [done|].
    apply Result_bind_Ok in Hfound as ([result|] & Hresolver & Hfound); [|done].
    destruct (String.eqb_spec result "") as [->|Hne]; [done|].
    injection Hfound as <-. by exists includeUnanchored, result.
  - apply Result_bind_Ok in Hfound as ([result|] & _ & Hfound); done.
Qed.

(** [GET /] answers 400 exactly when the store has no name for the page
    and the query names a page, be it page 0: without a page in the query
    an empty list is answered with status 200. *)
Theorem empty_page_is_an_error_only_when_asked_for (req : NamesRequest.t) (reply : Reply) :
  getNames req = Ok reply →
  ∃ page includeUnanchored results,
    getNamesList page includeUnanchored = Ok results
    ∧ (results = [] ∧ truthy (NamesRequest.query_page req) = true →
       reply = json 400 false BnsErrors_InvalidPageNumber)
    ∧ (results ≠ [] ∨ truthy (NamesRequest.query_page req) = false →
       reply = json 200 true (JsArray results)).
Proof.
  unfold getNames. intros Hreply.
  apply Result_bind_Ok in Hreply as (page & _ & Hreply).
  apply Result_bind_Ok in Hreply as (includeUnanchored & _ & Hreply).
  apply Result_bind_Ok in Hreply as (results & Hresults & Hreply).
  exists page, includeUnanchored, results. split; [done|].
  destruct results as [|name results]; simpl in *.
  - destruct (truthy _); injection Hreply as <-.
    + split; [done|]. by intros [?|?].
    + split; [|done]. by intros [_ ?].
  - injection Hreply as <-. split; [|done]. by intros [? _].
Qed.

End NamesExtras.

(** ** The further properties on the sample instance *)

Lemma result_follows_transactions_witness :
  Forall2
    (λ tx d, ∃ dbTx,
       createDbTxFromCoreMsg tx = Ok dbTx
       ∧ DataStoreTxEventData.tx d
         = DbTx.set_event_count (DbTx.event_count (DataStoreTxEventData.tx d)) dbTx)
    Sample.scenarioTxs Sample.scenarioResult.
Proof.
  exact (result_follows_transactions (externals := Sample.externals) Sample.scenarioTxs
           Sample.scenarioEvents Sample.blockRef 1%Z Sample.scenarioResult
           ltac:(vm_compute; reflexivity)).
Defined.

Lemma smart_contract_per_deployment_witness :
  DataStoreTxEventData.smartContracts <$> SampleRuns.deployResult
  = [ [ {| DbSmartContract.tx_id := "T3";
           DbSmartContract.contract_id := "SP000.counter";
           DbSmartContract.block_height := 7;
           DbSmartContract.source_code := "(define-data-var n int 0)";
           DbSmartContract.abi := "{}";
           DbSmartContract.canonical := true |} ];
      [] ]
  ∧ Forall2
      (λ tx d,
         DataStoreTxEventData.smartContracts d =
           match DecodedTxResult.payload (CoreNodeParsedTxMessage.parsed_tx tx) with
           | SmartContract contract_name code_body =>
               [ {| DbSmartContract.tx_id :=
                      CoreNodeTxMessage.txid (CoreNodeParsedTxMessage.core_tx tx);
                    DbSmartContract.contract_id :=
                      CoreNodeParsedTxMessage.sender_address tx +:+ "." +:+ contract_name;
                    DbSmartContract.block_height := 7;
                    DbSmartContract.source_code := code_body;
                    DbSmartContract.abi :=
                      JSON_stringify
                        (CoreNodeTxMessage.contract_abi (CoreNodeParsedTxMessage.core_tx tx));
                    DbSmartContract.canonical := true |} ]
           | _ => []
           end)
      [SampleMore.deployTx; Sample.parsedTx "T1"] SampleRuns.deployResult.
Proof.
  split; [reflexivity|].
  exact (smart_contract_per_deployment (externals := Sample.externals)
           [SampleMore.deployTx; Sample.parsedTx "T1"] [] Sample.blockRef 1%Z
           SampleRuns.deployResult ltac:(vm_compute; reflexivity)).
Defined.

Lemma events_are_filed_under_their_transaction_witness :
  Forall
    (λ d,
       Forall
         (λ ev,
            DbEvent.tx_id ev = DbTx.tx_id (DataStoreTxEventData.tx d)
            ∧ DbEventBase.tx_index (DbEvent.base ev) = DbTx.tx_index (DataStoreTxEventData.tx d)
            ∧ DbEventBase.block_height (DbEvent.base ev) = 7%Z)
         (mergedEvents d))
    Sample.scenarioResult.
Proof.
  apply Forall_lookup_2. intros k d Hk.
  apply Forall_forall. intros ev Hev.
  exact (events_are_filed_under_their_transaction (externals := Sample.externals)
           Sample.scenarioTxs Sample.scenarioEvents Sample.blockRef 1%Z Sample.scenarioResult
           k d ev ltac:(vm_compute; reflexivity) Hk Hev).
Defined.

Lemma unbuildable_event_is_fatal_witness :
  isThrow (parseDataStoreTxEventData [Sample.parsedTx "T1"]
             [Sample.stxTransfer "T1" 0 true; SampleMore.unknownEvent] Sample.blockRef 1%Z).
Proof.
  refine (unbuildable_event_is_fatal (externals := Sample.externals) [Sample.parsedTx "T1"]
            [Sample.stxTransfer "T1" 0 true; SampleMore.unknownEvent] Sample.blockRef 1%Z
            SampleMore.unknownEvent _ eq_refl _).
  - apply (list_elem_of_lookup_2 _ 1). reflexivity.
  - intros dbEvent. exact I.
Defined.

Lemma later_duplicate_gets_no_event_witness :
  ∃ d' d,
    SampleRuns.duplicateResult = [d'; d]
    ∧ DbTx.tx_id (DataStoreTxEventData.tx d') = DbTx.tx_id (DataStoreTxEventData.tx d)
    ∧ mergedEvents d' ≠ []
    ∧ mergedEvents d = []
    ∧ DbTx.event_count (DataStoreTxEventData.tx d) = 0%Z.
Proof.
  eexists _, _. split; [reflexivity|]. split; [reflexivity|]. split; [discriminate|].
  refine (later_duplicate_gets_no_event (externals := Sample.externals)
            [Sample.parsedTx "T1"; Sample.parsedTx "T1"] [Sample.stxTransfer "T1" 4 true]
            Sample.blockRef 1%Z SampleRuns.duplicateResult 0 1 _ _
            ltac:(vm_compute; reflexivity) eq_refl eq_refl _ eq_refl).
  lia.
Defined.

Lemma event_counts_add_up_witness :
  foldr Z.add 0%Z (DbTx.event_count <$> (DataStoreTxEventData.tx <$> Sample.scenarioResult))
  = 4%Z
  ∧ length Sample.scenarioEvents = 5.
Proof.
  split; [|reflexivity].
  exact (event_counts_add_up (externals := Sample.externals) Sample.scenarioTxs
           Sample.scenarioEvents Sample.blockRef 1%Z Sample.scenarioResult
           ltac:(vm_compute; reflexivity)).
Defined.

Lemma arrays_keep_kind_and_message_order_witness :
  ∃ d,
    SampleRuns.tiedResult = [d]
    ∧ ∃ built,
        Forall2 (recordOf Sample.blockRef 0%Z) SampleMore.tiedEvents built
        ∧ ∀ b,
            Forall2 renumbered (filter (λ ev, bucketOf ev = b) built) (eventsOf b d)
            ∧ Forall (λ ev, bucketOf ev = b) (eventsOf b d).
Proof.
  eexists. split; [reflexivity|].
  exact (arrays_keep_kind_and_message_order (externals := Sample.externals)
           [Sample.parsedTx "T1"] SampleMore.tiedEvents Sample.blockRef 1%Z
           SampleRuns.tiedResult 0 _ ltac:(vm_compute; reflexivity) eq_refl).
Defined.

Lemma equal_indexes_keep_the_merge_order_witness :
  ∃ d,
    SampleRuns.tiedResult = [d]
    ∧ DbEvent.event_index <$> DataStoreTxEventData.contractLogEvents d = [1%Z]
    ∧ DbEvent.event_index <$> DataStoreTxEventData.stxEvents d = [2%Z]
    ∧ DbEvent.event_index <$> DataStoreTxEventData.stxLockEvents d = [0%Z]
    ∧ ∃ built,
        Forall2 (recordOf Sample.blockRef 0%Z) SampleMore.tiedEvents built
        ∧ Forall2 renumbered (mergedBy built) (mergedEvents d)
        ∧ ∀ p q a a' b b',
            p < q →
            mergedBy built !! p = Some a → mergedBy built !! q = Some a' →
            mergedEvents d !! p = Some b → mergedEvents d !! q = Some b' →
            (DbEvent.event_index b < DbEvent.event_index b')%Z
            ↔ (DbEvent.event_index a ≤ DbEvent.event_index a')%Z.
Proof.
  eexists. split; [reflexivity|]. do 3 (split; [reflexivity|]).
  exact (equal_indexes_keep_the_merge_order (externals := Sample.externals)
           [Sample.parsedTx "T1"] SampleMore.tiedEvents Sample.blockRef 1%Z
           SampleRuns.tiedResult 0 _ ltac:(vm_compute; reflexivity) eq_refl).
Defined.

Lemma malformed_miner_reward_aborts_block_witness :
  ∃ e,
    handleBlockMessage (externals := SampleMore.strict) 1%Z SampleMore.rewardMessage
      Sample.world0
    = (Throw e, Sample.world0).
Proof.
  refine (malformed_miner_reward_aborts_block (externals := SampleMore.strict)
            (dataStore := Sample.store) 1%Z SampleMore.rewardMessage Sample.world0
            SampleMore.malformedReward _ _).
  - apply (list_elem_of_lookup_2 _ 0). reflexivity.
  - left. exact I.
Defined.

Lemma event_server_address_is_validated_witness :
  eventServerAddress (Some "") (Some (Integer 3700)) (SampleEntry.env "default")
  = Throw eventHostMissing
  ∧ eventServerAddress None None {[ "STACKS_CORE_EVENT_HOST" := "127.0.0.1" ]}
    = Throw eventPortMissing.
Proof.
  split.
  - apply (proj1 (event_server_address_is_validated (runtime := SampleEntry.runtime)
                    (Some "") (Some (Integer 3700)) (SampleEntry.env "default"))).
    by left.
  - apply (proj2 (event_server_address_is_validated (runtime := SampleEntry.runtime)
                    None None {[ "STACKS_CORE_EVENT_HOST" := "127.0.0.1" ]}) "127.0.0.1").
    + discriminate.
    + right. split; [reflexivity|]. by vm_compute.
    + right. split; [reflexivity|]. by vm_compute.
Defined.

Lemma event_server_only_where_events_are_taken_in_witness :
  ∃ mode, getApiMode (SampleEntry.env "default") = Ok mode ∧ ingests mode.
Proof.
  refine (event_server_only_where_events_are_taken_in (externals := Sample.externals)
            (runtime := SampleEntry.runtime) (platform := SampleEntry.platformOf false 1%Z)
            (SampleEntry.env "default") "127.0.0.1" 3700%Z _).
  apply (list_elem_of_lookup_2 _ 1). by vm_compute.
Defined.

Lemma store_follows_the_mode_witness :
  (∃ mode,
     getApiMode (SampleEntry.env "readonly") = Ok mode
     ∧ mode ≠ StacksApiMode.offline
     ∧ "datastore-readonly" = "datastore-" +:+ StacksApiMode_value mode
     ∧ true = bool_decide (mode = StacksApiMode.readOnly))
  ∧ (∃ mode,
       getApiMode (SampleEntry.env "offline") = Ok mode
       ∧ mode ≠ StacksApiMode.writeOnly
       ∧ OfflineDummyStore = storeOf mode
       ∧ getApiConfiguredChainID (Platform := SampleEntry.platformOf false 1%Z) = Ok 1%Z).
Proof.
  split.
  - apply (proj1 (store_follows_the_mode (externals := Sample.externals)
                    (runtime := SampleEntry.runtime)
                    (platform := SampleEntry.platformOf false 1%Z)
                    (SampleEntry.env "readonly"))).
    apply (list_elem_of_lookup_2 _ 0). by vm_compute.
  - apply (proj2 (store_follows_the_mode (externals := Sample.externals)
                    (runtime := SampleEntry.runtime)
                    (platform := SampleEntry.platformOf false 1%Z)
                    (SampleEntry.env "offline"))).
    apply (list_elem_of_lookup_2 _ 0). by vm_compute.
Defined.

Lemma successful_start_matches_the_mode_witness :
  Effect.connect "datastore-default" false ∈ SampleRuns.defaultTrace
  ∧ (∃ host port,
       eventServerAddress None None (SampleEntry.env "default") = Ok (host, port)
       ∧ Effect.listen host port ∈ SampleRuns.defaultTrace)
  ∧ (∃ chainId,
       getApiConfiguredChainID (Platform := SampleEntry.platformOf false 1%Z) = Ok chainId
       ∧ Effect.startApiServer (storeOf StacksApiMode.default) chainId
         ∈ SampleRuns.defaultTrace)
  ∧ "DB" ∈ registered SampleRuns.defaultTrace.
Proof.
  destruct (successful_start_matches_the_mode (externals := Sample.externals)
              (runtime := SampleEntry.runtime) (platform := SampleEntry.platformOf false 1%Z)
              (SampleEntry.env "default") StacksApiMode.default SampleRuns.defaultTrace
              ltac:(vm_compute; reflexivity) ltac:(vm_compute; reflexivity))
    as (Hconnect & Hlisten & Hapi & Hdb).
  split_and!.
  - apply Hconnect. discriminate.
  - apply Hlisten. by left.
  - apply Hapi. discriminate.
  - exact Hdb.
Defined.

Lemma chain_id_mismatch_stops_the_start_witness :
  let run := init (platform := SampleEntry.platformOf false 2%Z) (SampleEntry.env "default") [] in
  isThrow run.1
  ∧ (∀ db chainId, Effect.startApiServer db chainId ∉ run.2)
  ∧ "DB" ∉ registered run.2.
Proof.
  exact (chain_id_mismatch_stops_the_start (externals := Sample.externals)
           (runtime := SampleEntry.runtime) (platform := SampleEntry.platformOf false 2%Z)
           (SampleEntry.env "default") StacksApiMode.default 1%Z 2%Z
           ltac:(vm_compute; reflexivity) ltac:(by left) eq_refl eq_refl ltac:(discriminate)).
Defined.

Lemma missing_event_host_stops_the_start_witness :
  let run :=
    init (platform := SampleEntry.platformOf false 1%Z) (SampleMore.modeOnly "writeonly") [] in
  isThrow run.1
  ∧ ∀ effect, effect ∈ run.2 → effect = Effect.connect "datastore-writeonly" false.
Proof.
  exact (missing_event_host_stops_the_start (externals := Sample.externals)
           (runtime := SampleEntry.runtime) (platform := SampleEntry.platformOf false 1%Z)
           (SampleMore.modeOnly "writeonly") StacksApiMode.writeOnly
           ltac:(vm_compute; reflexivity) ltac:(by right) ltac:(vm_compute; reflexivity)).
Defined.


Lemma unknown_subdomain_goes_to_the_resolver_witness :
  ∃ label namePart,
    split dot label = [label]
    ∧ "alice.id.btc" = label +:+ "." +:+ namePart
    ∧ getNameInfo 1%Z (SampleMore.request "alice.id.btc" JsUndefined)
      = Ok (redirect "https://registrar.example/v1/names/alice.id.btc").
Proof.
  destruct (unknown_subdomain_goes_to_the_resolver (namesStore := SampleMore.namesStore) 1%Z
              (SampleMore.request "alice.id.btc" JsUndefined) false eq_refl eq_refl eq_refl)
    as (label & namePart & Hlabel & Hname & _).
  exists label, namePart. split; [exact Hlabel|]. split; [exact Hname|]. reflexivity.
Defined.

Lemma name_info_has_no_null_field_witness :
  ∃ response,
    getNameInfo 1%Z (SampleMore.request "muneeb.btc" JsUndefined)
    = Ok (json 200 true (JsObject response))
    ∧ fst <$> response
      = ["address"; "blockchain"; "expire_block"; "last_txid"; "status"; "zonefile";
         "zonefile_hash"]
    ∧ ((200%Z = 200%Z
        ∧ true = true
        ∧ ∃ response',
            JsObject response = JsObject response'
            ∧ Forall (λ entry, nullish entry.2 = false) response'
            ∧ ("blockchain", JsString bnsBlockchain) ∈ response')
       ∨ (200%Z = 404%Z ∧ true = false)).
Proof.
  eexists. split; [reflexivity|]. split; [reflexivity|].
  exact (name_info_has_no_null_field (namesStore := SampleMore.namesStore) 1%Z
           (SampleMore.request "muneeb.btc" JsUndefined) _ eq_refl).
Defined.

Lemma redirect_only_for_unknown_subdomains_witness :
  length (split dot "alice.id.btc") = 3
  ∧ ∃ includeUnanchored result,
      isUnanchoredRequest (SampleMore.request "alice.id.btc" JsUndefined)
      = Ok includeUnanchored
      ∧ getSubdomain "alice.id.btc" includeUnanchored = Ok None
      ∧ getSubdomainResolver (String.concat "." (tail (split dot "alice.id.btc")))
        = Ok (Some result)
      ∧ result ≠ ""
      ∧ "https://registrar.example/v1/names/alice.id.btc"
        = result +:+ "/v1/names" +:+ "/alice.id.btc".
Proof.
  exact (redirect_only_for_unknown_subdomains (namesStore := SampleMore.namesStore) 1%Z
           (SampleMore.request "alice.id.btc" JsUndefined)
           "https://registrar.example/v1/names/alice.id.btc" eq_refl).
Defined.

Lemma empty_page_is_an_error_only_when_asked_for_witness :
  getNames (SampleMore.request "" (JsString "7"))
  = Ok (json 400 false BnsErrors_InvalidPageNumber)
  ∧ ∃ page includeUnanchored results,
      getNamesList page includeUnanchored = Ok results
      ∧ (results = [] ∧ truthy (JsString "7") = true →
         json 400 false BnsErrors_InvalidPageNumber
         = json 400 false BnsErrors_InvalidPageNumber)
      ∧ (results ≠ [] ∨ truthy (JsString "7") = false →
         json 400 false BnsErrors_InvalidPageNumber = json 200 true (JsArray results)).
Proof.
  split; [reflexivity|].
  exact (empty_page_is_an_error_only_when_asked_for (namesStore := SampleMore.namesStore)
           (SampleMore.request "" (JsString "7")) _ eq_refl).
Defined.
